(** * Knowledge-Base Search Engine frontend: the streaming client and the
      answer renderer, embedded and verified.

    The development follows the TypeScript sources:
    - [services/api.ts]: [APIError], [handleResponse], the endpoints that
      go through it and the async generator [queryStream];
    - [components/QueryInterface.tsx]: [parseSections], [handleSubmit],
      the rows of the source list and the [code] component;
    - [components/DocumentUpload.tsx]: [handleFileUpload];
    - [components/ThemeToggle.tsx]: [getPreferredTheme], [applyTheme] and
      the component with its two effects;
    - [App.tsx]: the health check and what it lets the page show.

    JavaScript strings are sequences of UTF-16 code units, transport chunks
    are byte arrays, numbers are IEEE-754 binary64 values (the Standard
    Library's [spec_float] at precision 53), and the async generator is a
    state machine driven by [next] and [return]. *)

From Stdlib Require Import String Ascii.
From Stdlib Require Import List NArith ZArith Bool Lia.
From Stdlib Require Import Strings.Byte.
From Stdlib Require Import Floats.SpecFloat.
Import ListNotations.

(* ================================================================== *)
(** * JavaScript strings *)
(* ================================================================== *)

Module JS.

(** A string is a list of UTF-16 code units. *)
Definition code_unit := N.
Definition jsstring := list code_unit.

Definition LF : code_unit := 10%N.
Definition QUOTE : code_unit := 34%N.

(** String literals of the sources, written as Rocq strings. *)
Definition js (s : string) : jsstring :=
  map N_of_ascii (list_ascii_of_string s).

(** The same, where an apostrophe of the Rocq literal stands for the double
    quote of the JavaScript text (used to write JSON documents). *)
Definition jsq (s : string) : jsstring :=
  map (fun c => if N.eqb c 39 then QUOTE else c) (js s).

Fixpoint eqb (a b : jsstring) : bool :=
  match a, b with
  | [], [] => true
  | x :: a', y :: b' => N.eqb x y && eqb a' b'
  | _, _ => false
  end.

(** [s.startsWith(p)] *)
Fixpoint startsWith (s p : jsstring) {struct p} : bool :=
  match p with
  | [] => true
  | x :: p' =>
      match s with
      | y :: s' => N.eqb x y && startsWith s' p'
      | [] => false
      end
  end.

(** [s.split(sep)] for a separator of one code unit; the result is never
    empty: the empty string splits into one empty string. *)
Fixpoint split (sep : code_unit) (s : jsstring) : list jsstring :=
  match s with
  | [] => [[]]
  | c :: r =>
      if N.eqb c sep then [] :: split sep r
      else match split sep r with
           | [] => [[c]]
           | l :: ls => (c :: l) :: ls
           end
  end.

(** Relative index of [slice]: negative counts from the end, all clamped. *)
Definition rel_index (len i : Z) : Z :=
  if (i <? 0)%Z then Z.max (len + i) 0 else Z.min i len.

(** [s.slice(start, end)] *)
Definition slice (s : jsstring) (start end_ : Z) : jsstring :=
  let len := Z.of_nat (length s) in
  let from := rel_index len start in
  let to := rel_index len end_ in
  firstn (Z.to_nat (to - from)) (skipn (Z.to_nat from) s).

(** [s.slice(start)] *)
Definition slice_from (s : jsstring) (start : Z) : jsstring :=
  slice s start (Z.of_nat (length s)).

(** [s.indexOf(c, from)] for a one-unit needle and [0 <= from]: the first
    position at or after [from] holding [c], or [-1]. *)
Fixpoint index_from (c : code_unit) (s : jsstring) (pos : Z) : Z :=
  match s with
  | [] => (-1)%Z
  | x :: r => if N.eqb x c then pos else index_from c r (pos + 1)
  end.

Definition indexOf (s : jsstring) (c : code_unit) (from : Z) : Z :=
  index_from c (skipn (Z.to_nat from) s) from.

(** ECMAScript LineTerminator: LF, CR, U+2028, U+2029. *)
Definition is_line_terminator (c : code_unit) : bool :=
  N.eqb c 10 || N.eqb c 13 || N.eqb c 8232 || N.eqb c 8233.

(** ECMAScript WhiteSpace and LineTerminator, the class of [trim] and of the
    regular-expression escape [\s]. *)
Definition is_whitespace (c : code_unit) : bool :=
  N.eqb c 9 || N.eqb c 10 || N.eqb c 11 || N.eqb c 12 || N.eqb c 13 ||
  N.eqb c 32 || N.eqb c 160 || N.eqb c 5760 ||
  (N.leb 8192 c && N.leb c 8202) ||
  N.eqb c 8232 || N.eqb c 8233 || N.eqb c 8239 || N.eqb c 8287 ||
  N.eqb c 12288 || N.eqb c 65279.

Fixpoint trimStart (s : jsstring) : jsstring :=
  match s with
  | [] => []
  | c :: r => if is_whitespace c then trimStart r else s
  end.

Definition trimEnd (s : jsstring) : jsstring :=
  rev (trimStart (rev s)).

(** [s.trim()] *)
Definition trim (s : jsstring) : jsstring := trimEnd (trimStart s).

End JS.

(* ================================================================== *)
(** * JavaScript values and [JSON.parse] *)
(* ================================================================== *)

Module JSON.
Import JS.

(** Numbers are binary64 values. *)
Definition prec : Z := 53.
Definition emax : Z := 1024.
Definition number := spec_float.

(** The values [JSON.parse] can return.  An object keeps its members in
    source order; a property read takes the last member of that name, as
    a later duplicate overwrites an earlier one. *)
#[local] Unset Elimination Schemes.
Inductive value :=
| JNull
| JBool (b : bool)
| JNumber (n : number)
| JString (s : jsstring)
| JArray (elements : list value)
| JObject (members : list (jsstring * value)).
#[local] Set Elimination Schemes.

(** The number denoted by the decimal numeral [(-1)^neg * m * 10^e10],
    rounded to nearest, ties to even. *)
Definition number_of_decimal (neg : bool) (m : N) (e10 : Z) : number :=
  match m with
  | N0 => S754_zero neg
  | Npos p =>
      if (0 <=? e10)%Z then
        binary_normalize prec emax
          (if neg then Z.neg p * 10 ^ e10 else Z.pos p * 10 ^ e10)%Z 0 neg
      else
        let '(q, e', l) :=
          SFdiv_core_binary prec emax (Z.pos p) 0 (10 ^ (- e10))%Z 0 in
        binary_round_aux prec emax neg q e' l
  end.

Definition is_digit (c : code_unit) : bool := N.leb 48 c && N.leb c 57.

Fixpoint take_digits (s : jsstring) : list N * jsstring :=
  match s with
  | c :: r =>
      if is_digit c then
        let '(ds, rest) := take_digits r in ((c - 48)%N :: ds, rest)
      else ([], s)
  | [] => ([], [])
  end.

Definition digits_value (ds : list N) : N :=
  fold_left (fun acc d => (acc * 10 + d)%N) ds 0%N.

(** A JSON number: an optional minus sign; then a single zero or a
    non-zero digit followed by digits; then an optional fraction, a dot and
    at least one digit; then an optional exponent, e or E, an optional
    sign and at least one digit. *)
Definition parse_number (s : jsstring) : option (number * jsstring) :=
  let '(neg, s1) :=
    match s with
    | c :: r => if N.eqb c 45 then (true, r) else (false, s)
    | [] => (false, s)
    end in
  let int_part :=
    match s1 with
    | c :: r =>
        if N.eqb c 48 then Some ([0%N], r)
        else if is_digit c then Some (take_digits s1)
        else None
    | [] => None
    end in
  match int_part with
  | None => None
  | Some (ints, s2) =>
      let frac_part :=
        match s2 with
        | c :: r =>
            if N.eqb c 46 then
              match take_digits r with
              | ([], _) => None
              | (fs, r') => Some (fs, r')
              end
            else Some ([], s2)
        | [] => Some ([], s2)
        end in
      match frac_part with
      | None => None
      | Some (fracs, s3) =>
          let exp_part :=
            match s3 with
            | c :: r =>
                if N.eqb c 101 || N.eqb c 69 then
                  let '(eneg, r1) :=
                    match r with
                    | c' :: r' =>
                        if N.eqb c' 45 then (true, r')
                        else if N.eqb c' 43 then (false, r')
                        else (false, r)
                    | [] => (false, r)
                    end in
                  match take_digits r1 with
                  | ([], _) => None
                  | (es, r2) =>
                      let e := Z.of_N (digits_value es) in
                      Some (if eneg then (- e)%Z else e, r2)
                  end
                else Some (0%Z, s3)
            | [] => Some (0%Z, s3)
            end in
          match exp_part with
          | None => None
          | Some (e, s4) =>
              Some (number_of_decimal neg (digits_value (ints ++ fracs))
                      (e - Z.of_nat (length fracs))%Z, s4)
          end
      end
  end.

Definition hex_value (c : code_unit) : option N :=
  if is_digit c then Some (c - 48)%N
  else if N.leb 97 c && N.leb c 102 then Some (c - 87)%N
  else if N.leb 65 c && N.leb c 70 then Some (c - 55)%N
  else None.

Definition escape_value (c : code_unit) : option code_unit :=
  match c with
  | 34%N => Some 34%N   (* quotation mark *)
  | 92%N => Some 92%N   (* reverse solidus *)
  | 47%N => Some 47%N   (* solidus *)
  | 98%N => Some 8%N    (* b *)
  | 102%N => Some 12%N  (* f *)
  | 110%N => Some 10%N  (* n *)
  | 114%N => Some 13%N  (* r *)
  | 116%N => Some 9%N   (* t *)
  | _ => None
  end.

(** The characters of a string after its opening quote, up to and
    including the closing one. *)
Fixpoint parse_string_body (s : jsstring) : option (jsstring * jsstring) :=
  match s with
  | [] => None
  | c :: r =>
      if N.eqb c 34 then Some ([], r)
      else if N.eqb c 92 then
        match r with
        | e :: r' =>
            if N.eqb e 117 then
              match r' with
              | h1 :: h2 :: h3 :: h4 :: r'' =>
                  match hex_value h1, hex_value h2,
                        hex_value h3, hex_value h4 with
                  | Some a, Some b, Some c', Some d =>
                      match parse_string_body r'' with
                      | Some (str, rest) =>
                          Some ((((a * 16 + b) * 16 + c') * 16 + d)%N :: str,
                                rest)
                      | None => None
                      end
                  | _, _, _, _ => None
                  end
              | _ => None
              end
            else
              match escape_value e with
              | Some u =>
                  match parse_string_body r' with
                  | Some (str, rest) => Some (u :: str, rest)
                  | None => None
                  end
              | None => None
              end
        | [] => None
        end
      else if N.ltb c 32 then None
      else
        match parse_string_body r with
        | Some (str, rest) => Some (c :: str, rest)
        | None => None
        end
  end.

(** JSON white space: space, tab, line feed, carriage return. *)
Definition is_ws (c : code_unit) : bool :=
  N.eqb c 32 || N.eqb c 9 || N.eqb c 10 || N.eqb c 13.

Fixpoint skip_ws (s : jsstring) : jsstring :=
  match s with
  | c :: r => if is_ws c then skip_ws r else s
  | [] => []
  end.

(** Recursive descent over the JSON grammar: a literal, a string, an
    array, an object, or else a number.  [fuel] bounds the depth of the
    calls; [2 * length text] is always enough (lemma [parse_fuel_enough]
    below). *)
Fixpoint parse_value (fuel : nat) (s : jsstring) : option (value * jsstring) :=
  match fuel with
  | O => None
  | S fuel' =>
      let s' := skip_ws s in
      if startsWith s' (js "null") then Some (JNull, skipn 4 s')
      else if startsWith s' (js "true") then Some (JBool true, skipn 4 s')
      else if startsWith s' (js "false") then Some (JBool false, skipn 5 s')
      else
        match s' with
        | c :: r =>
            if N.eqb c 34 then
              match parse_string_body r with
              | Some (str, rest) => Some (JString str, rest)
              | None => None
              end
            else if N.eqb c 91 then
              match skip_ws r with
              | c' :: r' =>
                  if N.eqb c' 93 then Some (JArray [], r')
                  else
                    match parse_elements fuel' r with
                    | Some (vs, rest) => Some (JArray vs, rest)
                    | None => None
                    end
              | [] => None
              end
            else if N.eqb c 123 then
              match skip_ws r with
              | c' :: r' =>
                  if N.eqb c' 125 then Some (JObject [], r')
                  else
                    match parse_members fuel' r with
                    | Some (ms, rest) => Some (JObject ms, rest)
                    | None => None
                    end
              | [] => None
              end
            else
              match parse_number s' with
              | Some (n, rest) => Some (JNumber n, rest)
              | None => None
              end
        | [] => None
        end
  end

(** The elements of an array after its opening bracket, up to and
    including the closing one. *)
with parse_elements (fuel : nat) (s : jsstring)
  : option (list value * jsstring) :=
  match fuel with
  | O => None
  | S fuel' =>
      match parse_value fuel' s with
      | Some (v, r) =>
          match skip_ws r with
          | c :: r' =>
              if N.eqb c 44 then
                match parse_elements fuel' r' with
                | Some (vs, rest) => Some (v :: vs, rest)
                | None => None
                end
              else if N.eqb c 93 then Some ([v], r')
              else None
          | [] => None
          end
      | None => None
      end
  end

(** The members of an object after its opening brace, up to and including
    the closing one. *)
with parse_members (fuel : nat) (s : jsstring)
  : option (list (jsstring * value) * jsstring) :=
  match fuel with
  | O => None
  | S fuel' =>
      match skip_ws s with
      | q :: r =>
          if N.eqb q 34 then
            match parse_string_body r with
            | Some (key, r1) =>
                match skip_ws r1 with
                | colon :: r2 =>
                    if N.eqb colon 58 then
                      match parse_value fuel' r2 with
                      | Some (v, r3) =>
                          match skip_ws r3 with
                          | c :: r4 =>
                              if N.eqb c 44 then
                                match parse_members fuel' r4 with
                                | Some (ms, rest) =>
                                    Some ((key, v) :: ms, rest)
                                | None => None
                                end
                              else if N.eqb c 125 then Some ([(key, v)], r4)
                              else None
                          | [] => None
                          end
                      | None => None
                      end
                    else None
                | [] => None
                end
            | None => None
            end
          else None
      | [] => None
      end
  end.

(** [JSON.parse(text)]: [None] stands for the [SyntaxError] it throws. *)
Definition parse (text : jsstring) : option value :=
  match parse_value (2 * length text + 2) text with
  | Some (v, rest) =>
      match skip_ws rest with
      | [] => Some v
      | _ => None
      end
  | None => None
  end.

(** [o[k]] on an object: the value of the last member named [k]. *)
Fixpoint lookup (k : jsstring) (ms : list (jsstring * value)) : option value :=
  match ms with
  | [] => None
  | (k', v) :: r =>
      match lookup k r with
      | Some v' => Some v'
      | None => if JS.eqb k' k then Some v else None
      end
  end.

(** The result of reading a property that no prototype defines (such as
    [type], [error], [detail], [similarity_score]): the outer [None] is the
    [TypeError] of a read on [null], the inner [None] is [undefined]. *)
Definition get (v : value) (k : jsstring) : option (option value) :=
  match v with
  | JNull => None
  | JObject ms => Some (lookup k ms)
  | _ => Some None
  end.

(** ToBoolean, on a value or on [undefined] ([None]). *)
Definition truthy (v : option value) : bool :=
  match v with
  | None => false
  | Some JNull => false
  | Some (JBool b) => b
  | Some (JNumber (S754_zero _)) => false
  | Some (JNumber S754_nan) => false
  | Some (JNumber _) => true
  | Some (JString s) => negb (JS.eqb s [])
  | Some (JArray _) => true
  | Some (JObject _) => true
  end.

(** [v === "literal"] *)
Definition is_string (v : option value) (lit : jsstring) : bool :=
  match v with
  | Some (JString s) => JS.eqb s lit
  | _ => false
  end.

(** Whether the conversion of a value that [JSON.parse] returned to a
    string completes.  An object has only the members of its text: a
    member of its own named [toString] hides the method of
    [Object.prototype] and is no function, so the conversion throws a
    [TypeError].  An array converts through [join], which converts the
    elements in order. *)
Fixpoint stringable (v : value) : bool :=
  match v with
  | JObject ms =>
      match lookup (js "toString") ms with
      | Some _ => false
      | None => true
      end
  | JArray vs =>
      (fix all (vs : list value) : bool :=
         match vs with
         | [] => true
         | v :: rest => stringable v && all rest
         end) vs
  | _ => true
  end.

End JSON.


(* ================================================================== *)
(** * [TextDecoder]: the streaming UTF-8 decoder *)
(* ================================================================== *)

Module TextDecoder.
Import JS.

Definition bytes := list byte.

(** State of the UTF-8 decoder between two bytes. *)
Record utf8 := {
  code_point : N;
  bytes_seen : N;
  bytes_needed : N;
  lower_boundary : N;
  upper_boundary : N
}.

Definition utf8_init : utf8 :=
  {| code_point := 0; bytes_seen := 0; bytes_needed := 0;
     lower_boundary := 128; upper_boundary := 191 |}.

Definition REPLACEMENT : N := 65533.

Definition in_range (lo hi b : N) : bool := N.leb lo b && N.leb b hi.

(** A lead byte, met when no sequence is open. *)
Definition lead (b : N) : utf8 * list N :=
  if in_range 0 127 b then (utf8_init, [b])
  else if in_range 194 223 b then
    ({| code_point := N.land b 31; bytes_seen := 0; bytes_needed := 1;
        lower_boundary := 128; upper_boundary := 191 |}, [])
  else if in_range 224 239 b then
    ({| code_point := N.land b 15; bytes_seen := 0; bytes_needed := 2;
        lower_boundary := if N.eqb b 224 then 160 else 128;
        upper_boundary := if N.eqb b 237 then 159 else 191 |}, [])
  else if in_range 240 244 b then
    ({| code_point := N.land b 7; bytes_seen := 0; bytes_needed := 3;
        lower_boundary := if N.eqb b 240 then 144 else 128;
        upper_boundary := if N.eqb b 244 then 143 else 191 |}, [])
  else (utf8_init, [REPLACEMENT]).

(** One byte through the decoder, in replacement error mode: the new state
    and the code points emitted.  A byte that breaks an open sequence emits
    U+FFFD and is read again as a lead byte. *)
Definition handler (d : utf8) (b : N) : utf8 * list N :=
  if N.eqb (bytes_needed d) 0 then lead b
  else if negb (in_range (lower_boundary d) (upper_boundary d) b) then
    let '(d', out) := lead b in (d', REPLACEMENT :: out)
  else
    let cp := N.lor (N.shiftl (code_point d) 6) (N.land b 63) in
    let seen := (bytes_seen d + 1)%N in
    if N.eqb seen (bytes_needed d) then (utf8_init, [cp])
    else
      ({| code_point := cp; bytes_seen := seen;
          bytes_needed := bytes_needed d;
          lower_boundary := 128; upper_boundary := 191 |}, []).

(** A code point as UTF-16 code units. *)
Definition utf16 (cp : N) : jsstring :=
  if N.ltb cp 65536 then [cp]
  else
    let c := (cp - 65536)%N in
    [(55296 + N.shiftr c 10)%N; (56320 + N.land c 1023)%N].

(** A [new TextDecoder()]: UTF-8, not fatal, the byte order mark dropped. *)
Record t := {
  decoder : utf8;
  BOM_seen : bool
}.

Definition create : t := {| decoder := utf8_init; BOM_seen := false |}.

(** A decoded code point appended to the output: the first code point of
    the stream is dropped when it is U+FEFF. *)
Definition serialize (seen : bool) (cps : list N) : bool * jsstring :=
  fold_left
    (fun (acc : bool * jsstring) cp =>
       let '(seen, out) := acc in
       if negb seen && N.eqb cp 65279 then (true, out)
       else (true, out ++ utf16 cp))
    cps (seen, []).

Definition step (acc : t * jsstring) (b : byte) : t * jsstring :=
  let '(td, out) := acc in
  let '(d', cps) := handler (decoder td) (Byte.to_N b) in
  let '(seen', text) := serialize (BOM_seen td) cps in
  ({| decoder := d'; BOM_seen := seen' |}, out ++ text).

(** [decoder.decode(value, { stream: true })]: the decoder after the chunk
    and the text it produced; an unfinished sequence stays in the decoder. *)
Definition decode_stream (td : t) (value : bytes) : t * jsstring :=
  fold_left step value (td, []).

(** Decoding of a whole body at once, as [response.json()] does: a sequence
    left open at the end is replaced by U+FFFD. *)
Definition decode_all (body : bytes) : jsstring :=
  let '(td, text) := decode_stream create body in
  if N.eqb (bytes_needed (decoder td)) 0 then text
  else text ++ snd (serialize (BOM_seen td) [REPLACEMENT]).

End TextDecoder.

(* ================================================================== *)
(** * [services/api.ts] *)
(* ================================================================== *)

Module Api.
Import JS.
Import JSON.

Definition bytes := TextDecoder.bytes.

(** What the code can throw.  [APIError] holds the three constructor
    arguments: the message as the value that [Error] has converted to the
    message string (the identity on strings), the status, and the detail,
    [None] standing for [undefined]. *)
Inductive exn :=
| APIError (message : value) (status : Z) (detail : option value)
| Error (message : jsstring)
| SyntaxError      (* [JSON.parse] or [response.json()] on malformed text *)
| TypeError        (* a property read on [null] *)
| NetworkError.    (* a rejected [fetch] or [reader.read()] *)

Inductive completion (A : Type) :=
| Normal (a : A)
| Throw (e : exn).
Arguments Normal {A} a.
Arguments Throw {A} e.

(** One [reader.read()] on the response body while it has data: a chunk of
    bytes, or a rejection.  The end of the list is [{ done: true }]. *)
Inductive read_result :=
| Chunk (value : bytes)
| ReadError.

(** The part of a fetch [Response] the code looks at.  [body] is [None]
    when [response.body] is [null]. *)
Record Response := {
  status : Z;
  statusText : jsstring;
  body : option (list read_result)
}.

(** [response.ok] *)
Definition ok (response : Response) : bool :=
  (200 <=? status response)%Z && (status response <=? 299)%Z.

Fixpoint read_all (rs : list read_result) : option bytes :=
  match rs with
  | [] => Some []
  | Chunk v :: r =>
      match read_all r with
      | Some b => Some (v ++ b)
      | None => None
      end
  | ReadError :: _ => None
  end.

(** [response.json()]: the whole body, decoded as UTF-8 and parsed. *)
Definition json (response : Response) : completion value :=
  match read_all (match body response with Some rs => rs | None => [] end) with
  | None => Throw NetworkError
  | Some b =>
      match JSON.parse (TextDecoder.decode_all b) with
      | Some v => Normal v
      | None => Throw SyntaxError
      end
  end.

(** [a || b] *)
Definition or_else (a : option value) (b : value) : value :=
  match a with
  | Some v => if truthy a then v else b
  | None => b
  end.

(** [new APIError(message, status, detail)], lines 10-24, as the operand
    of a [throw]: [super(message)] converts the message to a string, and
    where that conversion throws, its [TypeError] is what is thrown. *)
Definition new_APIError (message : value) (status : Z)
    (detail : option value) : exn :=
  if stringable message then APIError message status detail else TypeError.

(** [handleResponse], lines 26-39. *)
Definition handleResponse (response : Response) : completion value :=
  if negb (ok response) then
    let error :=
      match json response with
      | Normal v => v
      | Throw _ =>
          JObject [(js "error", JString (js "Unknown error"));
                   (js "detail", JString (statusText response))]
      end in
    match get error (js "error"), get error (js "detail") with
    | Some message, Some detail =>
        Throw (new_APIError (or_else message (JString (js "API Error")))
                 (status response) detail)
    | _, _ => Throw TypeError
    end
  else json response.

(** The four plain endpoints: the outcome of their [fetch] call goes to
    [handleResponse]. *)
Definition through_handleResponse (fetch : completion Response)
  : completion value :=
  match fetch with
  | Normal response => handleResponse response
  | Throw e => Throw e
  end.

Definition checkHealth := through_handleResponse.
Definition uploadDocument := through_handleResponse.
Definition query := through_handleResponse.
Definition deleteDocument := through_handleResponse.

(** ** The async generator [queryStream] *)

(** Where the generator is suspended. *)
Inductive generator :=
| SuspendedStart (fetch : completion Response)
    (* created, body not entered; [fetch] is the outcome the request of
       lines 82-88 will have *)
| SuspendedYield (data : value) (lines : list jsstring)
    (buffer : jsstring) (decoder : TextDecoder.t)
    (* at the [yield] of line 115: the value just yielded, the lines of the
       [for] loop still to visit, and the locals *)
| Completed.

(** The generator together with its reader: what the locked reader has
    still to deliver, and how often [getReader], [read] and [releaseLock]
    have been called. *)
Record state := {
  gen : generator;
  pending : list read_result;
  acquired : nat;
  reads : nat;
  releases : nat
}.

(** What a call of [next()] resolves or rejects with. *)
Inductive iter_result :=
| Yielded (v : value)
| Done
| Raised (e : exn).

Definition set_gen (g : generator) (st : state) : state :=
  {| gen := g; pending := pending st; acquired := acquired st;
     reads := reads st; releases := releases st |}.

(** The generator ends before the [try] block. *)
Definition close (st : state) : state := set_gen Completed st.

(** The generator leaves the [try] block: [finally] releases the reader. *)
Definition finally (st : state) : state :=
  {| gen := Completed; pending := pending st; acquired := acquired st;
     reads := reads st; releases := S (releases st) |}.

(** [response.body.getReader()] *)
Definition getReader (chunks : list read_result) (st : state) : state :=
  {| gen := gen st; pending := chunks; acquired := S (acquired st);
     reads := reads st; releases := releases st |}.

(** One [reader.read()] that leaves [rest] to deliver. *)
Definition did_read (rest : list read_result) (st : state) : state :=
  {| gen := gen st; pending := rest; acquired := acquired st;
     reads := S (reads st); releases := releases st |}.

Definition prefix : jsstring := js "data: ".

(** The [for] loop of lines 112-120, up to its first [yield], to the
    [JSON.parse] that throws, or to its end. *)
Inductive for_result :=
| ForYield (data : value) (rest : list jsstring)
| ForThrow
| ForEnd.

Fixpoint for_of (lines : list jsstring) : for_result :=
  match lines with
  | [] => ForEnd
  | line :: rest =>
      if startsWith line prefix then
        match JSON.parse (slice_from line 6) with
        | Some data => ForYield data rest
        | None => ForThrow
        end
      else for_of rest
  end.

Definition run_for (lines : list jsstring) (buffer : jsstring)
    (decoder : TextDecoder.t) (st : state)
    (continue : state -> state * iter_result) : state * iter_result :=
  match for_of lines with
  | ForYield data rest =>
      (set_gen (SuspendedYield data rest buffer decoder) st, Yielded data)
  | ForThrow => (finally st, Raised SyntaxError)
  | ForEnd => continue st
  end.

(** The [while (true)] loop of lines 104-121, entered with the reader
    about to deliver [chunks]. *)
Fixpoint while_true (decoder : TextDecoder.t) (buffer : jsstring)
    (chunks : list read_result) (st : state) : state * iter_result :=
  match chunks with
  | [] => (finally (did_read [] st), Done)
  | ReadError :: rest => (finally (did_read rest st), Raised NetworkError)
  | Chunk value :: rest =>
      let '(decoder', text) := TextDecoder.decode_stream decoder value in
      let lines := split LF (buffer ++ text) in
      let buffer' := last lines [] in
      run_for (removelast lines) buffer' decoder' (did_read rest st)
        (while_true decoder' buffer' rest)
  end.

(** [data.type === "done" || data.type === "error"]; [None] is the
    [TypeError] of reading [type] on [null]. *)
Definition is_terminal (data : value) : option bool :=
  match get data (js "type") with
  | Some ty => Some (is_string ty (js "done") || is_string ty (js "error"))
  | None => None
  end.

(** [next()]: the generator runs to its next [yield] or to its end. *)
Definition next (st : state) : state * iter_result :=
  match gen st with
  | SuspendedStart fetch =>
      match fetch with
      | Throw e => (close st, Raised e)
      | Normal response =>
          if negb (ok response) then
            let error :=
              match json response with
              | Normal v => v
              | Throw _ => JObject [(js "error", JString (js "Unknown error"))]
              end in
            match get error (js "error") with
            | Some message =>
                (close st,
                 Raised (new_APIError
                           (or_else message (JString (js "API Error")))
                           (status response) None))
            | None => (close st, Raised TypeError)
            end
          else
            match body response with
            | None => (close st, Raised (Error (js "No response body")))
            | Some chunks =>
                while_true TextDecoder.create [] chunks (getReader chunks st)
            end
      end
  | SuspendedYield data lines buffer decoder =>
      match is_terminal data with
      | None => (finally st, Raised TypeError)
      | Some true => (finally st, Done)
      | Some false =>
          run_for lines buffer decoder st
            (while_true decoder buffer (pending st))
      end
  | Completed => (st, Done)
  end.

(** [return()]: the caller abandons the sequence, as [for await] does when
    its body breaks or throws.  A generator suspended inside the [try]
    block runs its [finally]. *)
Definition return_ (st : state) : state :=
  match gen st with
  | SuspendedStart _ => close st
  | SuspendedYield _ _ _ _ => finally st
  | Completed => st
  end.

(** [api.queryStream(request)]: a fresh generator; nothing runs before the
    first [next()]. *)
Definition queryStream (fetch : completion Response) : state :=
  {| gen := SuspendedStart fetch; pending := []; acquired := 0;
     reads := 0; releases := 0 |}.

(** How a generator ended. *)
Inductive ending :=
| Returned
| Threw (e : exn).

(** A consumer that pulls until the generator ends, as the [for await] of
    [handleSubmit] does: the events in order, the ending and the final
    state.  [None]: [fuel] pulls were not enough. *)
Fixpoint collect (fuel : nat) (st : state)
  : option (list value * ending * state) :=
  match fuel with
  | O => None
  | S n =>
      match next st with
      | (st', Done) => Some ([], Returned, st')
      | (st', Raised e) => Some ([], Threw e, st')
      | (st', Yielded v) =>
          match collect n st' with
          | Some (evs, o, s) => Some (v :: evs, o, s)
          | None => None
          end
      end
  end.

End Api.

(* ================================================================== *)
(** * [components/QueryInterface.tsx] *)
(* ================================================================== *)

Module QueryInterface.
Import JS.

Record AnswerSection := {
  heading : jsstring;
  content : jsstring
}.

(** ** The regular expression [/^##\s+(.+)$/gm] *)

(** [^] with the [m] flag: at the start of the input or after a line
    terminator.  [prev] is the code unit before the position. *)
Definition line_start (prev : option code_unit) : bool :=
  match prev with
  | None => true
  | Some c => is_line_terminator c
  end.

(** [$] with the [m] flag: at the end of the input or before a line
    terminator. *)
Definition line_end (s : jsstring) : bool :=
  match s with
  | [] => true
  | c :: _ => is_line_terminator c
  end.

(** [.] without the [s] flag: any code unit but a line terminator. *)
Definition dot (c : code_unit) : bool := negb (is_line_terminator c).

(** A greedy [p+] followed by the rest [k] of the pattern, with
    backtracking: one more code unit is tried first, and the rest of the
    pattern only when that fails. *)
Fixpoint greedy_plus {A : Type} (p : code_unit -> bool)
    (k : jsstring -> option A) (s : jsstring) : option (jsstring * A) :=
  match s with
  | c :: r =>
      if p c then
        match greedy_plus p k r with
        | Some (taken, a) => Some (c :: taken, a)
        | None =>
            match k r with
            | Some a => Some ([c], a)
            | None => None
            end
        end
      else None
  | [] => None
  end.

(** The pattern tried at one position: the white space matched, the
    capture group, and what follows the match. *)
Definition match_at (prev : option code_unit) (s : jsstring)
  : option (jsstring * jsstring * jsstring) :=
  if line_start prev then
    match s with
    | c1 :: c2 :: r =>
        if N.eqb c1 35 && N.eqb c2 35 then
          match greedy_plus is_whitespace
                  (greedy_plus dot
                     (fun rest => if line_end rest then Some rest else None)) r
          with
          | Some (ws, (group, rest)) => Some (ws, group, rest)
          | None => None
          end
        else None
    | _ => None
    end
  else None.

(** What one successful [exec] gives: [match.index], [match[1]], and where
    the next [exec] resumes ([lastIndex], the input from there on and the
    code unit before it). *)
Record RegExpMatch := {
  index : Z;
  group1 : jsstring;
  lastIndex : Z;
  remaining : jsstring;
  before_remaining : option code_unit
}.

(** [headingRegex.exec(markdown)] resuming at [pos], where the input still
    holds [s]: the first position from there on at which the pattern
    matches. *)
Fixpoint exec (prev : option code_unit) (s : jsstring) (pos : Z)
  : option RegExpMatch :=
  match match_at prev s with
  | Some (ws, group, rest) =>
      Some {| index := pos;
              group1 := group;
              lastIndex := pos + 2 + Z.of_nat (length ws)
                           + Z.of_nat (length group);
              remaining := rest;
              before_remaining := Some (last group 0%N) |}
  | None =>
      match s with
      | [] => None
      | c :: r => exec (Some c) r (pos + 1)
      end
  end.

(** The [while] loop of lines 36-38: the entries pushed on [matches], the
    trimmed title and the index.  [None]: [fuel] turns were not enough. *)
Fixpoint exec_loop (fuel : nat) (prev : option code_unit) (s : jsstring)
    (pos : Z) : option (list (jsstring * Z)) :=
  match fuel with
  | O => None
  | S fuel' =>
      match exec prev s pos with
      | None => Some []
      | Some m =>
          match exec_loop fuel' (before_remaining m) (remaining m)
                  (lastIndex m) with
          | Some ms => Some ((trim (group1 m), index m) :: ms)
          | None => None
          end
      end
  end.

(** The [for] loop of lines 50-58. *)
Fixpoint sections (markdown : jsstring) (matches : list (jsstring * Z))
  : list AnswerSection :=
  match matches with
  | [] => []
  | current :: rest =>
      let headingLineEnd := indexOf markdown LF (snd current) in
      let start :=
        if (headingLineEnd =? -1)%Z then Z.of_nat (length markdown)
        else (headingLineEnd + 1)%Z in
      let end_ :=
        match rest with
        | next :: _ => snd next
        | [] => Z.of_nat (length markdown)
        end in
      {| heading := fst current;
         content := trim (slice markdown start end_) |}
      :: sections markdown rest
  end.

(** [parseSections], lines 29-61.  [None] would say that the loop of
    [exec] calls did not end within one turn per code unit of the input. *)
Definition parseSections (markdown : jsstring) : option (list AnswerSection) :=
  if JS.eqb (trim markdown) [] then Some []
  else
    match exec_loop (S (length markdown)) None markdown 0 with
    | None => None
    | Some [] => Some [{| heading := js "Answer"; content := markdown |}]
    | Some matches => Some (sections markdown matches)
    end.

(** Markdown of the examples: a vertical bar of the literal is a line
    feed. *)
Definition md (s : string) : jsstring :=
  map (fun c => if N.eqb c 124 then LF else c) (js s).

End QueryInterface.

(* ================================================================== *)
(** * The similarity clamp of the source list *)
(* ================================================================== *)

Module Similarity.
Import JS.
Import JSON.

Definition zero : number := S754_zero false.
Definition one : number := S754_finite false 4503599627370496 (-52).
Definition hundred : number := S754_finite false 7036874417766400 (-46).

Definition is_nan (x : number) : bool :=
  match x with
  | S754_nan => true
  | _ => false
  end.

Definition is_zero (sign : bool) (x : number) : bool :=
  match x with
  | S754_zero s => Bool.eqb s sign
  | _ => false
  end.

(** [Math.min(a, b)]: [NaN] when either is; [-0] is lower than [+0]. *)
Definition Math_min (a b : number) : number :=
  if is_nan a || is_nan b then S754_nan
  else if is_zero true b && is_zero false a then b
  else if SFltb b a then b
  else a.

(** [Math.max(a, b)]: [NaN] when either is; [+0] is higher than [-0]. *)
Definition Math_max (a b : number) : number :=
  if is_nan a || is_nan b then S754_nan
  else if is_zero false b && is_zero true a then b
  else if SFltb a b then b
  else a.

(** [Math.round(x)]: the integer closest to [x], the one toward positive
    infinity when two are as close; zeros, infinities and [NaN] stay.  A
    finite [x] with a negative exponent is [m * 2^e]; the integer is
    the floor of [x + 1/2], computed exactly. *)
Definition Math_round (x : number) : number :=
  match x with
  | S754_finite s m e =>
      if (0 <=? e)%Z then x
      else
        let n := ((cond_Zopp s (2 * Z.pos m) + 2 ^ (- e)) / 2 ^ (1 - e))%Z in
        if (n =? 0)%Z then S754_zero s
        else binary_normalize prec emax n 0 s
  | _ => x
  end.

(** [a * b] *)
Definition mul (a b : number) : number := SFmul prec emax a b.

(** [x ?? d], [None] standing for [undefined] and for [null]. *)
Definition nullish (x : option number) (d : number) : number :=
  match x with
  | Some v => v
  | None => d
  end.

(** Line 319: [Math.max(0, Math.min(1, source.similarity_score ?? 0))]. *)
Definition similarity (score : option number) : number :=
  Math_max zero (Math_min one (nullish score zero)).

(** The clamp of the specification, [clamp(x, 0, 1)]: zero for a number
    that is at most zero, one for a number that is at least one, and the
    number itself between the two. *)
Definition clamp (x : number) : number :=
  if SFleb x zero then zero
  else if SFleb one x then one
  else x.

(** Line 320: [Math.round(similarity * 100)]. *)
Definition percent (score : option number) : number :=
  Math_round (mul (similarity score) hundred).

(** [source.similarity_score] on a parsed source: a number, or nothing
    when the member is missing or [null].  The outer [None] is a value
    that the declared type [number] excludes, or a source that is [null]. *)
Definition similarity_score (source : value) : option (option number) :=
  match get source (js "similarity_score") with
  | Some None => Some None
  | Some (Some JNull) => Some None
  | Some (Some (JNumber n)) => Some (Some n)
  | _ => None
  end.

(** The integer a number is, when it is one. *)
Definition integer_value (x : number) : option Z :=
  match x with
  | S754_zero _ => Some 0%Z
  | S754_finite s m e =>
      if (0 <=? e)%Z then Some (cond_Zopp s (Z.pos m * 2 ^ e))%Z
      else if (Z.pos m mod 2 ^ (- e) =? 0)%Z
           then Some (cond_Zopp s (Z.pos m / 2 ^ (- e)))%Z
           else None
  | _ => None
  end.

(** A number of the binary64 format other than [NaN]. *)
Definition is_number (x : number) : bool :=
  valid_binary prec emax x && negb (is_nan x).

End Similarity.

(* ================================================================== *)
(** * Lines of a text *)
(* ================================================================== *)

Module Lines.
Import JS.

(** The lines of a text that a line feed ends, and what follows the last
    line feed. *)
Definition complete_lines (text : jsstring) : list jsstring :=
  removelast (split LF text).

Definition partial_line (text : jsstring) : jsstring :=
  last (split LF text) [].

Definition has_LF (s : jsstring) : bool := existsb (N.eqb LF) s.

End Lines.

(* ================================================================== *)
(** * The meaning of a streamed body *)
(* ================================================================== *)

Module Stream.
Import JS.
Import JSON.
Import Api.
Import Lines.

(** The text a byte stream carries, as the streaming decoder produces it. *)
Definition text_of (stream : bytes) : jsstring :=
  snd (TextDecoder.decode_stream TextDecoder.create stream).

(** A frame is a complete line with the prefix; its payload is the rest of
    the line. *)
Definition is_frame (line : jsstring) : bool := startsWith line prefix.

Definition payload (line : jsstring) : jsstring := slice_from line 6.

Definition frames (text : jsstring) : list jsstring :=
  map payload (filter is_frame (complete_lines text)).

(** Every frame classified on its own: the reading of a stream in which
    no frame hides a later one. *)
Definition classify_each (payloads : list jsstring) : list (option value) :=
  map JSON.parse payloads.

(** Frames classified in order, up to the frame that ends the stream:
    the first [done] or [error] frame, which is yielded; the first payload
    that is no JSON text, which is not; a [null] payload, which is yielded
    and then fails the read of its [type].  [None]: no frame ended the
    stream. *)
Fixpoint scan (payloads : list jsstring) : list value * option ending :=
  match payloads with
  | [] => ([], None)
  | p :: rest =>
      match JSON.parse p with
      | None => ([], Some (Threw SyntaxError))
      | Some data =>
          match is_terminal data with
          | None => ([data], Some (Threw TypeError))
          | Some true => ([data], Some Returned)
          | Some false => let '(evs, o) := scan rest in (data :: evs, o)
          end
      end
  end.

(** The events of a whole stream and its ending; a stream that no frame
    ends returns when the transport is exhausted. *)
Definition classify (payloads : list jsstring) : list value * ending :=
  let '(evs, o) := scan payloads in
  (evs, match o with Some e => e | None => Returned end).

(** The same scan on lines, frames and others mixed. *)
Definition scan_lines (lines : list jsstring) : list value * option ending :=
  scan (map payload (filter is_frame lines)).

(** A scan followed by what comes after it. *)
Definition then_ (a : list value * option ending) (b : list value * ending)
  : list value * ending :=
  match a with
  | (evs, Some o) => (evs, o)
  | (evs, None) => (evs ++ fst b, snd b)
  end.

(** The events and the ending of the [while] loop entered with [decoder],
    [buffer] and the reads [chunks] to come. *)
Fixpoint loop_meaning (decoder : TextDecoder.t) (buffer : jsstring)
    (chunks : list read_result) : list value * ending :=
  match chunks with
  | [] => ([], Returned)
  | ReadError :: _ => ([], Threw NetworkError)
  | Chunk value :: rest =>
      let '(decoder', text) := TextDecoder.decode_stream decoder value in
      then_ (scan_lines (complete_lines (buffer ++ text)))
        (loop_meaning decoder' (partial_line (buffer ++ text)) rest)
  end.

(** How many calls of [reader.read()] the [while] loop makes when it is
    entered with [decoder], [buffer] and the reads [chunks] to come, and
    what the reader has still to deliver when the loop is left: a frame
    that ends the stream leaves the later chunks unread. *)
Fixpoint loop_reads (decoder : TextDecoder.t) (buffer : jsstring)
    (chunks : list read_result) : nat * list read_result :=
  match chunks with
  | [] => (1, [])
  | ReadError :: rest => (1, rest)
  | Chunk value :: rest =>
      let '(decoder', text) := TextDecoder.decode_stream decoder value in
      match snd (scan_lines (complete_lines (buffer ++ text))) with
      | Some _ => (1, rest)
      | None =>
          let '(n, unread) :=
            loop_reads decoder' (partial_line (buffer ++ text)) rest in
          (S n, unread)
      end
  end.

(** One pull already made: what the consumer collects from its result. *)
Definition collect_after (fuel : nat) (r : state * iter_result)
  : option (list value * ending * state) :=
  match r with
  | (st', Done) => Some ([], Returned, st')
  | (st', Raised e) => Some ([], Threw e, st')
  | (st', Yielded v) =>
      match collect fuel st' with
      | Some (evs, o, s) => Some (v :: evs, o, s)
      | None => None
      end
  end.

(** The continuation [k] of a generator whose reader has [chunks] to
    deliver ends with the events and ending [r], the reader released. *)
Definition ends_with (k : state -> state * iter_result)
    (chunks : list read_result) (r : list value * ending) : Prop :=
  forall st n,
    pending st = chunks -> length (fst r) <= n ->
    exists st',
      collect_after n (k st) = Some (fst r, snd r, st') /\
      gen st' = Completed /\
      releases st' = S (releases st) /\
      acquired st' = acquired st.

(** A terminal event: its [type] is ["done"] or ["error"]. *)
Definition terminal (v : value) : bool :=
  match is_terminal v with
  | Some true => true
  | _ => false
  end.

(** What a caller can do with the generator. *)
Inductive call :=
| Next
| Return.

Definition perform (st : state) (c : call) : state :=
  match c with
  | Next => fst (next st)
  | Return => return_ st
  end.

Definition calls (cs : list call) (st : state) : state :=
  fold_left perform cs st.

(** The reader is acquired at most once, held while the generator is
    suspended at its [yield], and released as often as acquired once the
    generator is completed. *)
Definition reader_inv (st : state) : Prop :=
  match gen st with
  | SuspendedStart _ => acquired st = 0 /\ releases st = 0
  | SuspendedYield _ _ _ _ => acquired st = 1 /\ releases st = 0
  | Completed => acquired st <= 1 /\ releases st = acquired st
  end.

(** After a pull made with the reader acquired [a] times and released [rl]
    times: either an event was yielded and the generator is suspended at
    its [yield], nothing released; or the generator is completed and the
    reader was released once more. *)
Definition shape (a rl : nat) (p : state * iter_result) : Prop :=
  acquired (fst p) = a /\
  match snd p with
  | Yielded v =>
      (exists lines buffer td, gen (fst p) = SuspendedYield v lines buffer td) /\
      releases (fst p) = rl
  | _ => gen (fst p) = Completed /\ releases (fst p) = S rl
  end.

(** A test stream: an apostrophe of the literal is a double quote on the
    wire, a vertical bar is a line feed. *)
Definition wire (s : string) : bytes :=
  map (fun b => match b with
                | x27 => x22
                | x7c => x0a
                | _ => b
                end) (list_byte_of_string s).

(** A successful response whose body arrives in the chunks [cs]. *)
Definition streaming (cs : list bytes) : completion Response :=
  Normal {| status := 200; statusText := js "OK";
            body := Some (map Chunk cs) |}.

(** An error response with the given status and body. *)
Definition failing (code : Z) (reason : string) (content : bytes)
  : Response :=
  {| status := code; statusText := js reason;
     body := Some [Chunk content] |}.

End Stream.

(* ================================================================== *)
(** * The headings of a markdown text *)
(* ================================================================== *)

Module Headings.
Import JS.
Import QueryInterface.

(** The pattern [^##\s+(.+)$] matches at a position before which stands
    [prev] and from which the input reads [s]: two hash signs, the white
    space [ws], the group [title], and [rest] after the match. *)
Definition heading_at (prev : option code_unit) (s ws title rest : jsstring)
  : Prop :=
  line_start prev = true /\
  s = 35%N :: 35%N :: ws ++ title ++ rest /\
  ws <> [] /\ forallb is_whitespace ws = true /\
  title <> [] /\ forallb dot title = true /\
  line_end rest = true.

(** The code unit before what follows [skip], when [prev] stands before
    [skip]. *)
Definition prev_of (prev : option code_unit) (skip : jsstring)
  : option code_unit :=
  match rev skip with
  | [] => prev
  | c :: _ => Some c
  end.

(** The pattern matches somewhere in [s]. *)
Definition has_heading (s : jsstring) : Prop :=
  exists skip s' ws title rest,
    s = skip ++ s' /\ heading_at (prev_of None skip) s' ws title rest.

(** A line that is a heading on its own: the pattern matches it from its
    first to its last code unit. *)
Definition heading_line (l : jsstring) : Prop :=
  exists ws title, heading_at None l ws title [].

(** The successive matches of the pattern in [s], which [prev] precedes
    and which starts at position [pos] of the input: each match is the
    leftmost one after the match before it, takes the longest white space
    it can, and is listed with its position and its group. *)
Inductive successive
  : option code_unit -> jsstring -> nat -> list (nat * jsstring) -> Prop :=
| successive_none prev s pos :
    (forall skip s' ws title rest,
       s = skip ++ s' -> ~ heading_at (prev_of prev skip) s' ws title rest) ->
    successive prev s pos []
| successive_match prev s pos skip ws title rest hs :
    s = skip ++ 35%N :: 35%N :: ws ++ title ++ rest ->
    (forall skip1 skip2 ws' title' rest',
       skip = skip1 ++ skip2 -> skip2 <> [] ->
       ~ heading_at (prev_of prev skip1)
           (skip2 ++ 35%N :: 35%N :: ws ++ title ++ rest) ws' title' rest') ->
    heading_at (prev_of prev skip)
      (35%N :: 35%N :: ws ++ title ++ rest) ws title rest ->
    (forall ws' title' rest',
       heading_at (prev_of prev skip)
         (35%N :: 35%N :: ws ++ title ++ rest) ws' title' rest' ->
       length ws' <= length ws) ->
    successive (Some (last title 0%N)) rest
      (pos + length skip + 2 + length ws + length title) hs ->
    successive prev s pos ((pos + length skip, title) :: hs).

(** The code units of [s] at the positions from [a] to [b], [b] left
    out; none when [b <= a]. *)
Definition between (s : jsstring) (a b : nat) : jsstring :=
  firstn (b - a) (skipn a s).

(** The line that holds position [i] ends at [e]: the first line feed at
    or after [i], or the end of the input when there is none. *)
Definition line_ends_at (s : jsstring) (i e : nat) : Prop :=
  i <= e <= length s /\
  existsb (N.eqb LF) (between s i e) = false /\
  (e = length s \/ nth_error s e = Some LF).

(** One section per match: the heading is the trimmed group, the content
    the trimmed text from after the line feed that ends the line of the
    match to the next match, or to the end of the input. *)
Inductive describes (markdown : jsstring)
  : list (nat * jsstring) -> list AnswerSection -> Prop :=
| describes_nil : describes markdown [] []
| describes_cons i title hs sec secs e :
    line_ends_at markdown i e ->
    heading sec = trim title ->
    content sec =
      trim (between markdown (Nat.min (S e) (length markdown))
              (match hs with
               | (j, _) :: _ => j
               | [] => length markdown
               end)) ->
    describes markdown hs secs ->
    describes markdown ((i, title) :: hs) (sec :: secs).

(** The last piece of the pattern, [$]. *)
Definition eol (rest : jsstring) : option jsstring :=
  if line_end rest then Some rest else None.

(** What the loop pushes on [matches] for the matches [hs]. *)
Definition pushed (hs : list (nat * jsstring)) : list (jsstring * Z) :=
  map (fun h => (trim (snd h), Z.of_nat (fst h))) hs.

End Headings.


(* ================================================================== *)
(** * The stages of a JSON number *)
(* ================================================================== *)

(** [JSON.parse_number] reads a numeral in four stages; each one is named
    here, so that a property of the whole can be shown stage by stage. *)
Module JSONStages.
Import JS.
Import JSON.

(** An optional minus sign. *)
Definition sign_part (s : jsstring) : bool * jsstring :=
  match s with
  | c :: r => if N.eqb c 45 then (true, r) else (false, s)
  | [] => (false, s)
  end.

(** A single zero, or a digit from 1 to 9 and the digits after it. *)
Definition int_part (s1 : jsstring) : option (list N * jsstring) :=
  match s1 with
  | c :: r =>
      if N.eqb c 48 then Some ([0%N], r)
      else if is_digit c then Some (take_digits s1)
      else None
  | [] => None
  end.

(** An optional fraction: a dot and at least one digit. *)
Definition frac_part (s2 : jsstring) : option (list N * jsstring) :=
  match s2 with
  | c :: r =>
      if N.eqb c 46 then
        match take_digits r with
        | ([], _) => None
        | (fs, r') => Some (fs, r')
        end
      else Some ([], s2)
  | [] => Some ([], s2)
  end.

(** The optional sign of an exponent. *)
Definition exp_sign (r : jsstring) : bool * jsstring :=
  match r with
  | c' :: r' =>
      if N.eqb c' 45 then (true, r')
      else if N.eqb c' 43 then (false, r')
      else (false, r)
  | [] => (false, r)
  end.

(** An optional exponent: e or E, an optional sign, at least one digit. *)
Definition exp_part (s3 : jsstring) : option (Z * jsstring) :=
  match s3 with
  | c :: r =>
      if N.eqb c 101 || N.eqb c 69 then
        let '(eneg, r1) := exp_sign r in
        match take_digits r1 with
        | ([], _) => None
        | (es, r2) =>
            let e := Z.of_N (digits_value es) in
            Some (if eneg then (- e)%Z else e, r2)
        end
      else Some (0%Z, s3)
  | [] => Some (0%Z, s3)
  end.

(** The four stages in a row. *)
Definition number_stages (s : jsstring) : option (number * jsstring) :=
  let '(neg, s1) := sign_part s in
  match int_part s1 with
  | None => None
  | Some (ints, s2) =>
      match frac_part s2 with
      | None => None
      | Some (fracs, s3) =>
          match exp_part s3 with
          | None => None
          | Some (e, s4) =>
              Some (number_of_decimal neg (digits_value (ints ++ fracs))
                      (e - Z.of_nat (length fracs))%Z, s4)
          end
      end
  end.

(** What a parser returns when the input is followed by [w] that it does
    not read: the same value, and [w] after what it left. *)
Definition followed_by {A : Type} (w : jsstring)
    (r : option (A * jsstring)) : option (A * jsstring) :=
  match r with
  | Some (a, rest) => Some (a, rest ++ w)
  | None => None
  end.

(** What is left of an input, cleared of leading white space, when [w]
    follows it. *)
Definition with_tail (w : jsstring) (x : jsstring) : jsstring :=
  match x with
  | [] => []
  | _ => x ++ w
  end.

End JSONStages.

(* ================================================================== *)
(** * Line endings on the wire *)
(* ================================================================== *)

Module LineEndings.
Import JS.

Definition CR : code_unit := 13%N.

(** Lines sent with a line feed after each. *)
Definition lf_lines (ls : list jsstring) : jsstring :=
  flat_map (fun l => l ++ [LF]) ls.

(** The same lines sent with a carriage return and a line feed after
    each, as servers of event streams commonly do. *)
Definition crlf_lines (ls : list jsstring) : jsstring :=
  flat_map (fun l => l ++ [CR; LF]) ls.

End LineEndings.

(* ================================================================== *)
(** * [QueryInterface]: [handleSubmit] *)
(* ================================================================== *)

Module HandleSubmit.
Import JS.
Import JSON.
Import Api.

(** ** String conversion *)

Section Conversion.

(** [Number::toString]: the decimal text of a number.  No property below
    depends on which text it is. *)
Variable Number_toString : number -> jsstring.

(** [ToString] on a value that [JSON.parse] returned.  An object has only
    the members of its text: it converts through [Object.prototype], to
    ["[object Object]"], unless a member of its own named [toString] hides
    that method, and then the conversion throws.  An array converts
    through [join]: its elements converted in order, [null] to the empty
    string, with commas between. *)
Fixpoint ToString (v : value) : completion jsstring :=
  match v with
  | JNull => Normal (js "null")
  | JBool true => Normal (js "true")
  | JBool false => Normal (js "false")
  | JNumber n => Normal (Number_toString n)
  | JString s => Normal s
  | JObject ms =>
      match lookup (js "toString") ms with
      | Some _ => Throw TypeError
      | None => Normal (js "[object Object]")
      end
  | JArray vs =>
      (fix join (vs : list value) : completion jsstring :=
         match vs with
         | [] => Normal []
         | v :: rest =>
             match (match v with
                    | JNull => Normal []
                    | _ => ToString v
                    end) with
             | Throw e => Throw e
             | Normal s =>
                 match rest with
                 | [] => Normal s
                 | _ :: _ =>
                     match join rest with
                     | Throw e => Throw e
                     | Normal t => Normal (s ++ 44%N :: t)
                     end
                 end
             end
         end) vs
  end.

(** [s + x] for a string [s], hence [s += x]: [x] converted and appended;
    [None] is [undefined]. *)
Definition add (s : jsstring) (x : option value) : completion jsstring :=
  match x with
  | None => Normal (s ++ js "undefined")
  | Some v =>
      match ToString v with
      | Normal t => Normal (s ++ t)
      | Throw e => Throw e
      end
  end.

(** ** The state of the component *)

(** The state [handleSubmit] reads and sets.  For [error] and [sources],
    which receive [event.data] as it comes, [None] is [undefined] and
    [Some JNull] is [null]; for the two others [None] is [null]. *)
Record ui := {
  query : jsstring;
  loading : bool;
  error : option value;
  answer : jsstring;
  sources : option value;
  processingTime : option number;
  shareError : option jsstring
}.

Definition setLoading (b : bool) (u : ui) : ui :=
  {| query := query u; loading := b; error := error u; answer := answer u;
     sources := sources u; processingTime := processingTime u;
     shareError := shareError u |}.

Definition setError (e : option value) (u : ui) : ui :=
  {| query := query u; loading := loading u; error := e; answer := answer u;
     sources := sources u; processingTime := processingTime u;
     shareError := shareError u |}.

Definition setAnswer (a : jsstring) (u : ui) : ui :=
  {| query := query u; loading := loading u; error := error u; answer := a;
     sources := sources u; processingTime := processingTime u;
     shareError := shareError u |}.

Definition setSources (s : option value) (u : ui) : ui :=
  {| query := query u; loading := loading u; error := error u;
     answer := answer u; sources := s; processingTime := processingTime u;
     shareError := shareError u |}.

Definition setProcessingTime (t : option number) (u : ui) : ui :=
  {| query := query u; loading := loading u; error := error u;
     answer := answer u; sources := sources u; processingTime := t;
     shareError := shareError u |}.

Definition setShareError (s : option jsstring) (u : ui) : ui :=
  {| query := query u; loading := loading u; error := error u;
     answer := answer u; sources := sources u;
     processingTime := processingTime u; shareError := s |}.

(** The locals of one submission, and how many times [performance.now()]
    has been called. *)
Record locals := {
  fullAnswer : jsstring;
  startedAt : number;
  ticks : nat
}.

Definition thousand : number := S754_finite false 8796093022208000 (-43).

(** [(performance.now() - startedAt) / 1000] *)
Definition elapsed (now startedAt : number) : number :=
  SFdiv prec emax (SFsub prec emax now startedAt) thousand.

(** [performance.now()]: the reading of each call, in order. *)
Variable performance_now : nat -> number.

(** The body of the [for await] loop, lines 154-164, on one event. *)
Definition on_event (s : ui * locals) (event : value)
  : completion (ui * locals) :=
  let '(u, l) := s in
  match get event (js "type") with
  | None => Throw TypeError
  | Some ty =>
      if is_string ty (js "sources") then
        match get event (js "data") with
        | Some data => Normal (setSources data u, l)
        | None => Throw TypeError
        end
      else if is_string ty (js "answer") then
        match get event (js "data") with
        | Some data =>
            match add (fullAnswer l) data with
            | Normal full =>
                Normal (setAnswer full u,
                        {| fullAnswer := full; startedAt := startedAt l;
                           ticks := ticks l |})
            | Throw e => Throw e
            end
        | None => Throw TypeError
        end
      else if is_string ty (js "done") then
        Normal (setProcessingTime
                  (Some (elapsed (performance_now (ticks l)) (startedAt l))) u,
                {| fullAnswer := fullAnswer l; startedAt := startedAt l;
                   ticks := S (ticks l) |})
      else if is_string ty (js "error") then
        match get event (js "data") with
        | Some data => Normal (setError data u, l)
        | None => Throw TypeError
        end
      else Normal (u, l)
  end.

(** [for await (const event of generator) body]: pull, run the body, and
    again.  When the body throws, the generator is closed with [return()]
    before the error goes on.  [None]: [fuel] pulls were not enough. *)
Fixpoint for_await (fuel : nat) (st : state) (s : ui * locals)
  : option (ui * locals * ending * state) :=
  match fuel with
  | O => None
  | S n =>
      match next st with
      | (st', Done) => Some (s, Returned, st')
      | (st', Raised e) => Some (s, Threw e, st')
      | (st', Yielded event) =>
          match on_event s event with
          | Normal s' => for_await n st' s'
          | Throw e => Some (s, Threw e, return_ st')
          end
      end
  end.

(** The same loop on the events a run of the generator gives and on its
    ending: what the body makes of them. *)
Fixpoint consume (evs : list value) (o : ending) (s : ui * locals)
  : ui * locals * ending :=
  match evs with
  | [] => (s, o)
  | event :: rest =>
      match on_event s event with
      | Normal s' => consume rest o s'
      | Throw e => (s, Threw e)
      end
  end.

(** The [catch] clause, lines 166-171.  The message of an [APIError] is
    the string its constructor made of the first argument; when that
    conversion throws, what is caught is the [TypeError] of the
    conversion and no [APIError] ([new_APIError] makes none). *)
Definition on_catch (e : exn) (u : ui) : ui :=
  match e with
  | APIError message _ detail =>
      match ToString message with
      | Normal text =>
          setError (if truthy detail then detail
                    else Some (JString text)) u
      | Throw _ => setError (Some (JString (js "Failed to process query"))) u
      end
  | _ => setError (Some (JString (js "Failed to process query"))) u
  end.

(** Lines 142-147. *)
Definition reset (u : ui) : ui :=
  setShareError None
    (setProcessingTime None
       (setSources (Some (JArray []))
          (setAnswer [] (setError (Some JNull) (setLoading true u))))).

(** The [try] statement with its [catch] and [finally], on the outcome of
    the loop. *)
Definition settle (r : ui * locals * ending) : ui :=
  match r with
  | (u, _, Returned) => setLoading false u
  | (u, _, Threw e) => setLoading false (on_catch e u)
  end.

(** The locals as the loop is entered: [startedAt] is the first reading
    of the clock. *)
Definition entry : locals :=
  {| fullAnswer := []; startedAt := performance_now 0; ticks := 1 |}.

(** [handleSubmit], lines 136-175, for the outcome [fetch] that the
    request would have: the state of the component after it, and the
    generator it has used, if any.  [None]: [fuel] pulls were not enough. *)
Definition handleSubmit (fuel : nat) (fetch : completion Response) (u : ui)
  : option (ui * option state) :=
  if JS.eqb (trim (query u)) [] then Some (u, None)
  else
    match for_await fuel (queryStream fetch) (reset u, entry) with
    | None => None
    | Some (r, st) => Some (settle r, Some st)
    end.

End Conversion.

(** The answer text the [answer] events of [evs] carry as strings. *)
Definition answer_text (evs : list value) : jsstring :=
  flat_map (fun event =>
              match get event (js "type"), get event (js "data") with
              | Some ty, Some (Some (JString s)) =>
                  if is_string ty (js "answer") then s else []
              | _, _ => []
              end) evs.

(** An event the protocol allows: an object, and when its [type] is
    ["answer"], its [data] is a string. *)
Definition well_formed (event : value) : bool :=
  match event with
  | JObject ms =>
      if is_string (lookup (js "type") ms) (js "answer") then
        match lookup (js "data") ms with
        | Some (JString _) => true
        | _ => false
        end
      else true
  | _ => false
  end.

(** The [data] of the last event of the given type, if there is one. *)
Fixpoint last_data (kind : jsstring) (evs : list value)
  : option (option value) :=
  match evs with
  | [] => None
  | event :: rest =>
      match last_data kind rest with
      | Some data => Some data
      | None =>
          match get event (js "type"), get event (js "data") with
          | Some ty, Some data =>
              if is_string ty kind then Some data else None
          | _, _ => None
          end
      end
  end.

(** A user interface as the component has it before the first query. *)
Definition initial (q : jsstring) : ui :=
  {| query := q; loading := false; error := Some JNull; answer := [];
     sources := Some (JArray []); processingTime := None;
     shareError := None |}.

End HandleSubmit.

(* ================================================================== *)
(** * [components/ThemeToggle.tsx] *)
(* ================================================================== *)

Module ThemeToggle.
Import JS.

Definition THEME_STORAGE_KEY : jsstring := js "kb-rag-theme".

(** [type ThemeMode = "light" | "dark"] *)
Inductive ThemeMode :=
| light
| dark.

(** The string a mode is. *)
Definition text (mode : ThemeMode) : jsstring :=
  match mode with
  | light => js "light"
  | dark => js "dark"
  end.

Definition same (a b : ThemeMode) : bool :=
  match a, b with
  | light, light => true
  | dark, dark => true
  | _, _ => false
  end.

(** ** The browser *)

(** A [Storage]: keys with their values, each key once. *)
Definition Storage := list (jsstring * jsstring).

(** [storage.getItem(key)]; [None] is [null]. *)
Fixpoint getItem (storage : Storage) (key : jsstring) : option jsstring :=
  match storage with
  | [] => None
  | (k, v) :: rest => if JS.eqb k key then Some v else getItem rest key
  end.

(** [storage.setItem(key, value)] *)
Fixpoint setItem (storage : Storage) (key value : jsstring) : Storage :=
  match storage with
  | [] => [(key, value)]
  | (k, v) :: rest =>
      if JS.eqb k key then (k, value) :: rest
      else (k, v) :: setItem rest key value
  end.

(** A [DOMTokenList]: tokens in order, each once. *)
Definition DOMTokenList := list jsstring.

Definition contains (tokens : DOMTokenList) (token : jsstring) : bool :=
  existsb (JS.eqb token) tokens.

(** [classList.add(token)] *)
Definition add (tokens : DOMTokenList) (token : jsstring) : DOMTokenList :=
  if contains tokens token then tokens else tokens ++ [token].

(** [classList.remove(token)] *)
Definition remove (tokens : DOMTokenList) (token : jsstring) : DOMTokenList :=
  filter (fun t => negb (JS.eqb token t)) tokens.

(** What the component sees of the browser: the local storage, whether
    the media query [(prefers-color-scheme: dark)] matches, and the class
    list of the root element. *)
Record browser := {
  localStorage : Storage;
  prefers_dark : bool;
  classList : DOMTokenList
}.

(** ** The functions of the module *)

(** [getPreferredTheme], lines 9-18; [None] is a run without [window]. *)
Definition getPreferredTheme (window : option browser) : ThemeMode :=
  match window with
  | None => light
  | Some w =>
      let stored := getItem (localStorage w) THEME_STORAGE_KEY in
      let system := if prefers_dark w then dark else light in
      match stored with
      | Some s =>
          if JS.eqb s (js "light") then light
          else if JS.eqb s (js "dark") then dark
          else system
      | None => system
      end
  end.

(** [applyTheme], lines 20-28; [None] is a run without [document]. *)
Definition applyTheme (mode : ThemeMode) (document : option browser)
  : option browser :=
  match document with
  | None => None
  | Some w =>
      Some {| localStorage := localStorage w;
              prefers_dark := prefers_dark w;
              classList := match mode with
                           | dark => add (classList w) (js "dark")
                           | light => remove (classList w) (js "dark")
                           end |}
  end.

(** ** The component *)

(** The mounted component: its state [mode], the browser it runs in, and
    whether its listener is registered on the media query. *)
Record component := {
  mode : ThemeMode;
  window : browser;
  listening : bool
}.

(** The effect of lines 33-36, run after a render in which [mode] has
    changed: the theme applied and the mode stored. *)
Definition mode_effect (c : component) : component :=
  match applyTheme (mode c) (Some (window c)) with
  | Some w =>
      {| mode := mode c;
         window := {| localStorage :=
                        setItem (localStorage w) THEME_STORAGE_KEY
                          (text (mode c));
                      prefers_dark := prefers_dark w;
                      classList := classList w |};
         listening := listening c |}
  | None => c
  end.

(** The effect of lines 38-49, run once: the listener registered. *)
Definition listen_effect (c : component) : component :=
  {| mode := mode c; window := window c; listening := true |}.

(** The first render in the browser [w] and the effects after it, in the
    order of their declaration. *)
Definition mount (w : browser) : component :=
  listen_effect
    (mode_effect {| mode := getPreferredTheme (Some w); window := w;
                    listening := false |}).

(** [setMode(next)]: a state that changes renders the component again,
    and the effect that depends on [mode] runs; the same state does
    nothing. *)
Definition setMode (next : ThemeMode) (c : component) : component :=
  if same next (mode c) then c
  else mode_effect {| mode := next; window := window c;
                      listening := listening c |}.

(** [toggle], lines 51-53. *)
Definition flip (prev : ThemeMode) : ThemeMode :=
  match prev with
  | light => dark
  | dark => light
  end.

Definition toggle (c : component) : component := setMode (flip (mode c)) c.

(** [listener], lines 40-45; [!stored] holds for [null] and for the empty
    string. *)
Definition listener (matches : bool) (c : component) : component :=
  match getItem (localStorage (window c)) THEME_STORAGE_KEY with
  | Some (_ :: _) => c
  | _ => setMode (if matches then dark else light) c
  end.

(** What happens to a mounted component: a click on the button, a change
    of the system preference, and the local storage emptied from outside
    (by the user, or by other code of the same origin). *)
Inductive event :=
| Click
| Change (matches : bool)
| Cleared.

Definition handle (c : component) (e : event) : component :=
  match e with
  | Click => toggle c
  | Change matches =>
      let c' := {| mode := mode c;
                   window := {| localStorage := localStorage (window c);
                                prefers_dark := matches;
                                classList := classList (window c) |};
                   listening := listening c |} in
      if listening c then listener matches c' else c'
  | Cleared =>
      {| mode := mode c;
         window := {| localStorage := [];
                      prefers_dark := prefers_dark (window c);
                      classList := classList (window c) |};
         listening := listening c |}
  end.

Definition run (w : browser) (events : list event) : component :=
  fold_left handle events (mount w).

Definition is_dark (mode : ThemeMode) : bool := same mode dark.

Definition clicks (events : list event) : nat :=
  length (filter (fun e => match e with Click => true | _ => false end)
            events).

Definition storage_kept (events : list event) : bool :=
  forallb (fun e => match e with Cleared => false | _ => true end) events.

(** What the root element keeps: its class list shows the mode, and its
    other classes are those of [tokens]. *)
Definition themed (tokens : DOMTokenList) (c : component) : Prop :=
  contains (classList (window c)) (js "dark") = is_dark (mode c) /\
  remove (classList (window c)) (js "dark") = remove tokens (js "dark").

(** The stored value is the mode. *)
Definition stored_mode (c : component) : Prop :=
  getItem (localStorage (window c)) THEME_STORAGE_KEY = Some (text (mode c)).

End ThemeToggle.

(* ================================================================== *)
(** * [components/DocumentUpload.tsx] *)
(* ================================================================== *)

Module DocumentUpload.
Import JS.
Import JSON.
Import Api.

(** An entry of [uploadedDocs]: the three members read off the response,
    [None] for a member the response does not have. *)
Record doc := {
  id : option value;
  name : option value;
  chunks : option value
}.

(** The state of the component; [error] as in [HandleSubmit.ui]. *)
Record ui := {
  uploading : bool;
  uploadedDocs : list doc;
  dragActive : bool;
  error : option value
}.

Definition setUploading (b : bool) (u : ui) : ui :=
  {| uploading := b; uploadedDocs := uploadedDocs u;
     dragActive := dragActive u; error := error u |}.

Definition setError (e : option value) (u : ui) : ui :=
  {| uploading := uploading u; uploadedDocs := uploadedDocs u;
     dragActive := dragActive u; error := e |}.

Definition setUploadedDocs (docs : list doc) (u : ui) : ui :=
  {| uploading := uploading u; uploadedDocs := docs;
     dragActive := dragActive u; error := error u |}.

Definition setDragActive (b : bool) (u : ui) : ui :=
  {| uploading := uploading u; uploadedDocs := uploadedDocs u;
     dragActive := b; error := error u |}.

Section Conversion.

Variable Number_toString : number -> jsstring.

(** The [catch] clause, lines 38-43; the message of an [APIError] as in
    [HandleSubmit.on_catch]. *)
Definition on_catch (e : exn) (u : ui) : ui :=
  match e with
  | APIError message _ detail =>
      match HandleSubmit.ToString Number_toString message with
      | Normal text =>
          setError (if truthy detail then detail
                    else Some (JString text)) u
      | Throw _ => setError (Some (JString (js "Failed to upload document"))) u
      end
  | _ => setError (Some (JString (js "Failed to upload document"))) u
  end.

(** [handleFileUpload], lines 23-47, for the outcome [fetch] of the
    request.  The updater given to [setUploadedDocs] reads the three
    members of the response when the component is rendered next, after
    the [try] statement has ended: on a response that is [null] its
    [TypeError] is caught by no clause of the handler, and is the [Throw]
    here. *)
Definition handleFileUpload (fetch : completion Response) (u : ui)
  : completion ui :=
  let u1 := setError (Some JNull) (setUploading true u) in
  match uploadDocument fetch with
  | Normal response =>
      match get response (js "document_id"),
            get response (js "filename"),
            get response (js "chunks_created") with
      | Some i, Some n, Some c =>
          Normal (setUploading false
                    (setUploadedDocs
                       (uploadedDocs u1 ++
                        [{| id := i; name := n; chunks := c |}]) u1))
      | _, _, _ => Throw TypeError
      end
  | Throw e => Normal (setUploading false (on_catch e u1))
  end.

End Conversion.

End DocumentUpload.

(* ================================================================== *)
(** * [App.tsx]: the health check *)
(* ================================================================== *)

Module App.
Import JS.
Import JSON.
Import Api.

(** The state of [App]: [health], [JNull] for [null], and [loading]. *)
Record app := {
  health : value;
  loading : bool
}.

(** The effect of lines 41-55, run once after the first render, for the
    outcome [fetch] of the request. *)
Definition mount (fetch : completion Response) : app :=
  match checkHealth fetch with
  | Normal response => {| health := response; loading := false |}
  | Throw _ => {| health := JNull; loading := false |}
  end.

(** What [<main>] shows, lines 84-91 and on. *)
Inductive view :=
| Checking      (* "Checking backend health..." *)
| Unreachable   (* "Unable to reach the backend" *)
| Studio.       (* the upload and query panels *)

Definition main (a : app) : option view :=
  if loading a then Some Checking
  else if negb (truthy (Some (health a))) then Some Unreachable
  else
    match get (health a) (js "status") with
    | None => None
    | Some status =>
        if negb (is_string status (js "healthy")) then Some Unreachable
        else Some Studio
    end.

End App.

(* ================================================================== *)
(** * [QueryInterface]: a row of the source list *)
(* ================================================================== *)

Module SourceList.
Import JS.
Import JSON.
Import Api.
Import Similarity.

Definition six : number := S754_finite false 6755399441055744 (-50).

(** Line 340: [Math.min(Math.max(percent, 6), 100)], the width of the
    bar in percent. *)
Definition bar_width (percent : number) : number :=
  Math_min (Math_max percent six) hundred.

(** Line 332: [source.metadata.document_id?.slice(0, 8) ?? "n/a"].  The
    read of [document_id] throws when [source.metadata] is [undefined] or
    [null]; a [document_id] that is [undefined] or [null] gives ["n/a"]; a
    string or an array is sliced; any other value has no [slice] to call.
    What [slice] returns is never [undefined] nor [null]. *)
Definition document_id_label (source : value) : completion value :=
  match get source (js "metadata") with
  | Some (Some metadata) =>
      match get metadata (js "document_id") with
      | Some None => Normal (JString (js "n/a"))
      | Some (Some JNull) => Normal (JString (js "n/a"))
      | Some (Some (JString s)) => Normal (JString (slice s 0 8))
      | Some (Some (JArray vs)) => Normal (JArray (firstn 8 vs))
      | _ => Throw TypeError
      end
  | _ => Throw TypeError
  end.

End SourceList.

(* ================================================================== *)
(** * Answers written section by section *)
(* ================================================================== *)

(** The markdown that [parseSections] is meant for: one second-level
    heading per section, the content on the lines after it. *)
Module Rendering.
Import JS.
Import QueryInterface.

Definition render_section (sec : AnswerSection) : jsstring :=
  js "## " ++ heading sec ++ LF :: content sec ++ [LF].

Definition render (secs : list AnswerSection) : jsstring :=
  flat_map render_section secs.

(** No white space at either end. *)
Definition is_trimmed (s : jsstring) : bool :=
  match s with
  | [] => true
  | c :: _ => negb (is_whitespace c) && negb (is_whitespace (last s c))
  end.

(** A heading: not empty, on one line, no white space at either end. *)
Definition plain_heading (h : jsstring) : bool :=
  negb (JS.eqb h []) && forallb dot h && is_trimmed h.

(** No line of the text starts with two hash signs and white space, or
    is two hash signs alone at the end of the text; [at_line_start] says
    whether the text begins a line.  Lines of three hash signs or more,
    the deeper headings of markdown, are allowed. *)
Fixpoint no_heading_line (at_line_start : bool) (s : jsstring) : bool :=
  match s with
  | [] => true
  | c :: r =>
      negb (at_line_start && N.eqb c 35 &&
            match r with
            | c2 :: r2 =>
                N.eqb c2 35 &&
                match r2 with
                | c3 :: _ => is_whitespace c3
                | [] => true
                end
            | [] => false
            end)
      && no_heading_line (is_line_terminator c) r
  end.

(** A content: no white space at either end, no line that the pattern
    of headings could match. *)
Definition plain_content (c : jsstring) : bool :=
  is_trimmed c && no_heading_line true c.

Definition plain (sec : AnswerSection) : bool :=
  plain_heading (heading sec) && plain_content (content sec).

(** What the loop of [exec] calls pushes for the sections [secs] written
    from position [pos] on. *)
Fixpoint positions (secs : list AnswerSection) (pos : Z)
  : list (jsstring * Z) :=
  match secs with
  | [] => []
  | sec :: rest =>
      (heading sec, pos)
      :: positions rest (pos + Z.of_nat (length (render_section sec)))%Z
  end.

End Rendering.

(* ================================================================== *)
(** * [QueryInterface]: the [code] component of the markdown view *)
(* ================================================================== *)

Module MarkdownComponents.
Import JS.

(** The class [\w] of regular expressions: a letter of the basic Latin
    alphabet, a digit, or the low line. *)
Definition is_word (c : code_unit) : bool :=
  (N.leb 97 c && N.leb c 122) || (N.leb 65 c && N.leb c 90) ||
  (N.leb 48 c && N.leb c 57) || N.eqb c 95.

(** The longest run of word characters at the start of [s], and what
    follows it. *)
Fixpoint word_run (s : jsstring) : jsstring * jsstring :=
  match s with
  | c :: r =>
      if is_word c then let '(w, rest) := word_run r in (c :: w, rest)
      else ([], s)
  | [] => ([], [])
  end.

(** The pattern [language-(\w+)] tried at the start of [s]: the group. *)
Definition match_here (s : jsstring) : option jsstring :=
  if startsWith s (js "language-") then
    match word_run (skipn 9 s) with
    | ([], _) => None
    | (w, _) => Some w
    end
  else None.

(** [/language-(\w+)/.exec(s)]: the group of the leftmost match. *)
Fixpoint exec (s : jsstring) : option jsstring :=
  match match_here s with
  | Some w => Some w
  | None =>
      match s with
      | [] => None
      | _ :: r => exec r
      end
  end.

(** [className || ""]; [None] is [undefined]. *)
Definition or_empty (className : option jsstring) : jsstring :=
  match className with
  | Some s => s
  | None => []
  end.

(** Lines 77 and 80: the class of the inner [code] element of a block,
    [languageMatch ? `language-${languageMatch[1]}` : ""]. *)
Definition language_class (className : option jsstring) : jsstring :=
  match exec (or_empty className) with
  | Some w => js "language-" ++ w
  | None => []
  end.

End MarkdownComponents.

(* ================================================================== *)
(** * The body of a query request *)
(* ================================================================== *)

(** [JSON.stringify] on the request of [handleSubmit],
    [{ query: query.trim(), top_k: 5 }], lines 82-88 of [services/api.ts]
    and line 153 of [QueryInterface.tsx]. *)
Module Request.
Import JS.
Import JSON.

(** A hexadecimal digit, in lower case. *)
Definition hex_digit (d : N) : code_unit :=
  if N.ltb d 10 then (48 + d)%N else (87 + d)%N.

(** [UnicodeEscape]: a reverse solidus, [u], and four hexadecimal
    digits. *)
Definition UnicodeEscape (c : code_unit) : jsstring :=
  [92%N; 117%N;
   hex_digit (c / 4096); hex_digit ((c / 256) mod 16);
   hex_digit ((c / 16) mod 16); hex_digit (c mod 16)].

Definition is_leading_surrogate (c : code_unit) : bool :=
  N.leb 55296 c && N.leb c 56319.

Definition is_trailing_surrogate (c : code_unit) : bool :=
  N.leb 56320 c && N.leb c 57343.

(** A code unit that is no surrogate, as [QuoteJSONString] writes it:
    the short escape where the table has one, the Unicode escape for the
    other control characters, the code unit itself otherwise. *)
Definition quote_unit (c : code_unit) : jsstring :=
  if N.eqb c 8 then [92; 98]%N
  else if N.eqb c 9 then [92; 116]%N
  else if N.eqb c 10 then [92; 110]%N
  else if N.eqb c 12 then [92; 102]%N
  else if N.eqb c 13 then [92; 114]%N
  else if N.eqb c 34 then [92; 34]%N
  else if N.eqb c 92 then [92; 92]%N
  else if N.ltb c 32 then UnicodeEscape c
  else [c].

(** The characters between the quotes: a leading surrogate followed by a
    trailing one is a code point written as it is; a surrogate alone is
    escaped. *)
Fixpoint quote_body (s : jsstring) : jsstring :=
  match s with
  | [] => []
  | c :: r =>
      if is_leading_surrogate c then
        match r with
        | d :: r' =>
            if is_trailing_surrogate d then c :: d :: quote_body r'
            else UnicodeEscape c ++ quote_body r
        | [] => UnicodeEscape c
        end
      else if is_trailing_surrogate c then UnicodeEscape c ++ quote_body r
      else quote_unit c ++ quote_body r
  end.

(** [QuoteJSONString] *)
Definition QuoteJSONString (s : jsstring) : jsstring :=
  QUOTE :: quote_body s ++ [QUOTE].

(** [JSON.stringify({ query: q, top_k: 5 })]: the members in the order
    of the object literal, no white space. *)
Definition stringify_request (q : jsstring) : jsstring :=
  js "{" ++ QuoteJSONString (js "query") ++ js ":" ++ QuoteJSONString q
  ++ js "," ++ QuoteJSONString (js "top_k") ++ js ":" ++ js "5" ++ js "}".

Definition five : number := S754_finite false 5629499534213120 (-50).

(** A string of UTF-16 code units. *)
Definition is_utf16 (s : jsstring) : bool :=
  forallb (fun c => N.ltb c 65536) s.

(** The body of the request that [handleSubmit] sends for the query
    typed. *)
Definition request_body (query : jsstring) : jsstring :=
  stringify_request (trim query).

(** What the parser of strings makes of one more character at the
    front. *)
Definition and_then (c : code_unit) (r : option (jsstring * jsstring))
  : option (jsstring * jsstring) :=
  match r with
  | Some (str, rest) => Some (c :: str, rest)
  | None => None
  end.

End Request.
(* ================================================================== *)
(** * Facts on lines *)
(* ================================================================== *)

Module LinesFacts.
Import JS.
Import Lines.

Lemma has_LF_cons (c : code_unit) (r : jsstring) :
  has_LF (c :: r) = N.eqb c LF || has_LF r.
Proof. unfold has_LF. cbn [existsb]. rewrite (N.eqb_sym LF c). reflexivity. Qed.

Lemma split_not_nil (sep : code_unit) (s : jsstring) : split sep s <> [].
Proof.
  destruct s as [|c r]; simpl; [discriminate|].
  destruct (N.eqb c sep); [discriminate|].
  destruct (split sep r); discriminate.
Qed.

Lemma complete_lines_cons (c : code_unit) (r : jsstring) :
  complete_lines (c :: r) =
  if N.eqb c LF then [] :: complete_lines r
  else match complete_lines r with
       | [] => []
       | l :: ls => (c :: l) :: ls
       end.
Proof.
  unfold complete_lines; simpl.
  pose proof (split_not_nil LF r) as Hne.
  destruct (N.eqb c LF).
  - destruct (split LF r); [congruence|reflexivity].
  - destruct (split LF r) as [|l [|l' ls]]; [congruence| |]; reflexivity.
Qed.

Lemma partial_line_cons (c : code_unit) (r : jsstring) :
  partial_line (c :: r) =
  if N.eqb c LF then partial_line r
  else match complete_lines r with
       | [] => c :: partial_line r
       | _ :: _ => partial_line r
       end.
Proof.
  unfold partial_line, complete_lines; simpl.
  pose proof (split_not_nil LF r) as Hne.
  destruct (N.eqb c LF).
  - destruct (split LF r); [congruence|reflexivity].
  - destruct (split LF r) as [|l [|l' ls]]; [congruence| |]; reflexivity.
Qed.

(** A text without line feed is one partial line. *)
Lemma no_LF_lines (s : jsstring) :
  has_LF s = false -> complete_lines s = [] /\ partial_line s = s.
Proof.
  induction s as [|c r IH]; intros H.
  - split; reflexivity.
  - rewrite has_LF_cons in H. apply orb_false_iff in H as [Hc Hr].
    destruct (IH Hr) as [IH1 IH2].
    rewrite complete_lines_cons, partial_line_cons.
    rewrite Hc, IH1, IH2. split; reflexivity.
Qed.

Lemma complete_lines_nil_iff (s : jsstring) :
  complete_lines s = [] <-> has_LF s = false.
Proof.
  split; [|apply no_LF_lines].
  induction s as [|c r IH]; intros H; [reflexivity|].
  rewrite complete_lines_cons in H. rewrite has_LF_cons.
  destruct (N.eqb c LF); [discriminate|].
  destruct (complete_lines r); [|discriminate].
  apply IH. reflexivity.
Qed.

(** What follows the last line feed holds no line feed. *)
Lemma partial_line_no_LF (s : jsstring) : has_LF (partial_line s) = false.
Proof.
  induction s as [|c r IH]; [reflexivity|].
  rewrite partial_line_cons.
  destruct (N.eqb c LF) eqn:Hc; [assumption|].
  destruct (complete_lines r) eqn:Hr; [|assumption].
  rewrite has_LF_cons, Hc. assumption.
Qed.

(** The text is its complete lines, each with its line feed, followed by
    the partial line. *)
Lemma lines_join (s : jsstring) :
  s = flat_map (fun l => l ++ [LF]) (complete_lines s) ++ partial_line s.
Proof.
  induction s as [|c r IH]; [reflexivity|].
  rewrite complete_lines_cons, partial_line_cons.
  destruct (N.eqb c LF) eqn:Hc.
  - apply N.eqb_eq in Hc. subst c. simpl. f_equal. exact IH.
  - destruct (complete_lines r) as [|l ls]; simpl in *; f_equal; exact IH.
Qed.

Lemma complete_lines_no_LF (s : jsstring) :
  Forall (fun l => has_LF l = false) (complete_lines s).
Proof.
  induction s as [|c r IH]; [constructor|].
  rewrite complete_lines_cons.
  destruct (N.eqb c LF) eqn:Hc.
  - constructor; [reflexivity|assumption].
  - destruct (complete_lines r) as [|l ls]; [constructor|].
    inversion IH; subst. constructor; [|assumption].
    rewrite has_LF_cons, Hc. assumption.
Qed.

(** Appending text: the lines already complete stay, and the partial line
    is what the new text is appended to. *)
Lemma complete_lines_app (a b : jsstring) :
  complete_lines (a ++ b) =
  complete_lines a ++ complete_lines (partial_line a ++ b).
Proof.
  induction a as [|c r IH]; [reflexivity|].
  simpl app. rewrite !complete_lines_cons, partial_line_cons.
  destruct (N.eqb c LF) eqn:Hc.
  - rewrite IH. reflexivity.
  - destruct (complete_lines r) as [|l ls] eqn:Hr.
    + simpl. rewrite complete_lines_cons, Hc.
      rewrite IH. reflexivity.
    + rewrite IH. reflexivity.
Qed.

Lemma partial_line_app (a b : jsstring) :
  partial_line (a ++ b) = partial_line (partial_line a ++ b).
Proof.
  induction a as [|c r IH]; [reflexivity|].
  simpl app. rewrite !partial_line_cons.
  destruct (N.eqb c LF) eqn:Hc; [exact IH|].
  rewrite complete_lines_app.
  destruct (complete_lines r) as [|l ls] eqn:Hr.
  - simpl. rewrite partial_line_cons, Hc.
    rewrite <- IH. reflexivity.
  - simpl. exact IH.
Qed.

(** Lines that are complete in [a] followed by a line feed-ended text:
    a prefix ending in a line feed closes its last line. *)
Lemma complete_lines_terminated (ls : list jsstring) (rest : jsstring) :
  Forall (fun l => has_LF l = false) ls ->
  complete_lines (flat_map (fun l => l ++ [LF]) ls ++ rest) =
  ls ++ complete_lines rest.
Proof.
  induction ls as [|l ls IH]; intros H; [reflexivity|].
  inversion H as [|? ? Hl Hls]; subst.
  simpl. rewrite <- !app_assoc.
  rewrite complete_lines_app.
  destruct (no_LF_lines l Hl) as [E1 E2]. rewrite E1, E2. simpl.
  clear E1 E2.
  induction l as [|c r IHl].
  - simpl. rewrite complete_lines_cons. simpl. rewrite IH by assumption.
    reflexivity.
  - rewrite has_LF_cons in Hl. apply orb_false_iff in Hl as [Hc Hr].
    simpl. rewrite complete_lines_cons. rewrite Hc.
    rewrite IHl by (try assumption; constructor; assumption).
    reflexivity.
Qed.

End LinesFacts.

(* ================================================================== *)
(** * Facts on [JSON.parse] *)
(* ================================================================== *)

Module JSONFacts.
Import JS.
Import JSON.

(** ** What the parsers consume *)

Lemma skip_ws_length (s : jsstring) : length (skip_ws s) <= length s.
Proof.
  induction s as [|c r IH]; simpl; [lia|].
  destruct (is_ws c); simpl; lia.
Qed.

Lemma startsWith_skipn (s p : jsstring) :
  startsWith s p = true -> length (skipn (length p) s) + length p = length s.
Proof.
  revert s. induction p as [|x p IH]; intros s H; simpl in *; [lia|].
  destruct s as [|y s]; [discriminate|].
  apply andb_true_iff in H as [_ H]. simpl. specialize (IH s H). lia.
Qed.

Lemma take_digits_length (s : jsstring) :
  length (snd (take_digits s)) + length (fst (take_digits s)) = length s.
Proof.
  induction s as [|c r IH]; simpl; [reflexivity|].
  destruct (is_digit c); simpl; [|lia].
  destruct (take_digits r) as [ds rest]. simpl in *. lia.
Qed.

Lemma parse_string_body_length_upto (n : nat) :
  forall s,
    length s <= n ->
    forall str rest,
      parse_string_body s = Some (str, rest) -> length rest < length s.
Proof.
  induction n as [|n IHn]; intros s Hn str rest H;
    [destruct s; [discriminate|simpl in Hn; lia]|].
  assert (IH : forall y, length y < length s ->
                 forall str0 rest0,
                   parse_string_body y = Some (str0, rest0) ->
                   length rest0 < length y).
  { intros y Hy. apply IHn. lia. }
  clear IHn.
  destruct s as [|c r]; [discriminate|].
  simpl in H.
  destruct (N.eqb c 34); [inversion H; subst; simpl; lia|].
  destruct (N.eqb c 92).
  - destruct r as [|e r']; [discriminate|].
    destruct (N.eqb e 117).
    + destruct r' as [|h1 [|h2 [|h3 [|h4 r'']]]]; try discriminate.
      destruct (hex_value h1), (hex_value h2), (hex_value h3), (hex_value h4);
        try discriminate.
      destruct (parse_string_body r'') as [[str0 rest0]|] eqn:E; [|discriminate].
      inversion H; subst.
      specialize (IH r'' ltac:(simpl; lia) _ _ E). simpl. lia.
    + destruct (escape_value e); [|discriminate].
      destruct (parse_string_body r') as [[str0 rest0]|] eqn:E; [|discriminate].
      inversion H; subst.
      specialize (IH r' ltac:(simpl; lia) _ _ E). simpl. lia.
  - destruct (N.ltb c 32); [discriminate|].
    destruct (parse_string_body r) as [[str0 rest0]|] eqn:E; [|discriminate].
    inversion H; subst.
    specialize (IH r ltac:(simpl; lia) _ _ E). simpl. lia.
Qed.

Lemma parse_string_body_length (s str rest : jsstring) :
  parse_string_body s = Some (str, rest) -> length rest < length s.
Proof. apply (parse_string_body_length_upto (length s)). apply le_n. Qed.

Lemma parse_number_length (s : jsstring) (n : number) (rest : jsstring) :
  parse_number s = Some (n, rest) -> length rest < length s.
Proof.
  unfold parse_number. intros H.
  (* the sign *)
  set (sign := match s with
               | c :: r => if N.eqb c 45 then (true, r) else (false, s)
               | [] => (false, s)
               end) in H.
  assert (Hs1 : length (snd sign) <= length s).
  { unfold sign. destruct s as [|c r]; simpl; [lia|].
    destruct (N.eqb c 45); simpl; lia. }
  destruct sign as [neg s1]. simpl in Hs1.
  (* the integer part takes at least one code unit *)
  set (int_part := match s1 with
                   | c :: r =>
                       if N.eqb c 48 then Some ([0%N], r)
                       else if is_digit c then Some (take_digits s1)
                       else None
                   | [] => None
                   end) in H.
  assert (Hint : forall ints s2,
             int_part = Some (ints, s2) -> length s2 < length s1).
  { unfold int_part. intros ints s2 E. destruct s1 as [|c r]; [discriminate|].
    destruct (N.eqb c 48); [inversion E; subst; simpl; lia|].
    destruct (is_digit c) eqn:Hd; [|discriminate].
    pose proof (take_digits_length (c :: r)) as Hl.
    assert (Hne : fst (take_digits (c :: r)) <> []).
    { simpl. rewrite Hd. destruct (take_digits r). discriminate. }
    destruct (take_digits (c :: r)) as [ds rest0].
    inversion E; subst. simpl in Hl, Hne.
    destruct ints; [contradiction|].
    unfold jsstring, code_unit in *. simpl in *. lia. }
  destruct int_part as [[ints s2]|]; [|discriminate].
  specialize (Hint ints s2 eq_refl).
  (* the fraction *)
  set (frac_part := match s2 with
                    | c :: r =>
                        if N.eqb c 46 then
                          match take_digits r with
                          | ([], _) => None
                          | (fs, r') => Some (fs, r')
                          end
                        else Some ([], s2)
                    | [] => Some ([], s2)
                    end) in H.
  assert (Hfrac : forall fracs s3,
             frac_part = Some (fracs, s3) -> length s3 <= length s2).
  { unfold frac_part. intros fracs s3 E. destruct s2 as [|c r].
    - inversion E; subst. simpl. lia.
    - destruct (N.eqb c 46); [|inversion E; subst; lia].
      pose proof (take_digits_length r) as Hl.
      destruct (take_digits r) as [[|d ds] r']; [discriminate|].
      inversion E; subst. simpl in *. lia. }
  destruct frac_part as [[fracs s3]|]; [|discriminate].
  specialize (Hfrac fracs s3 eq_refl).
  (* the exponent *)
  set (exp_part := match s3 with
                   | c :: r =>
                       if N.eqb c 101 || N.eqb c 69 then
                         let '(eneg, r1) :=
                           match r with
                           | c' :: r' =>
                               if N.eqb c' 45 then (true, r')
                               else if N.eqb c' 43 then (false, r')
                               else (false, r)
                           | [] => (false, r)
                           end in
                         match take_digits r1 with
                         | ([], _) => None
                         | (es, r2) =>
                             let e := Z.of_N (digits_value es) in
                             Some (if eneg then (- e)%Z else e, r2)
                         end
                       else Some (0%Z, s3)
                   | [] => Some (0%Z, s3)
                   end) in H.
  assert (Hexp : forall e s4,
             exp_part = Some (e, s4) -> length s4 <= length s3).
  { unfold exp_part. intros e s4 E. destruct s3 as [|c r].
    - inversion E; subst. simpl. lia.
    - destruct (N.eqb c 101 || N.eqb c 69); [|inversion E; subst; lia].
      set (esign := match r with
                    | c' :: r' =>
                        if N.eqb c' 45 then (true, r')
                        else if N.eqb c' 43 then (false, r')
                        else (false, r)
                    | [] => (false, r)
                    end) in E.
      assert (Hr1 : length (snd esign) <= length r).
      { unfold esign. destruct r as [|c' r']; simpl; [lia|].
        destruct (N.eqb c' 45); [simpl; lia|].
        destruct (N.eqb c' 43); simpl; lia. }
      destruct esign as [eneg r1]. simpl in Hr1.
      pose proof (take_digits_length r1) as Hl.
      destruct (take_digits r1) as [[|d ds] r2]; [discriminate|].
      inversion E; subst. simpl in *. lia. }
  destruct exp_part as [[e s4]|]; [|discriminate].
  specialize (Hexp e s4 eq_refl).
  inversion H; subst. lia.
Qed.


(** ** One unfolding of each parser *)

Lemma parse_value_S (f : nat) (s : jsstring) :
  parse_value (S f) s =
  if startsWith (skip_ws s) (js "null") then Some (JNull, skipn 4 (skip_ws s))
  else if startsWith (skip_ws s) (js "true")
       then Some (JBool true, skipn 4 (skip_ws s))
  else if startsWith (skip_ws s) (js "false")
       then Some (JBool false, skipn 5 (skip_ws s))
  else
    match skip_ws s with
    | c :: r =>
        if N.eqb c 34 then
          match parse_string_body r with
          | Some (str, rest) => Some (JString str, rest)
          | None => None
          end
        else if N.eqb c 91 then
          match skip_ws r with
          | c' :: r' =>
              if N.eqb c' 93 then Some (JArray [], r')
              else
                match parse_elements f r with
                | Some (vs, rest) => Some (JArray vs, rest)
                | None => None
                end
          | [] => None
          end
        else if N.eqb c 123 then
          match skip_ws r with
          | c' :: r' =>
              if N.eqb c' 125 then Some (JObject [], r')
              else
                match parse_members f r with
                | Some (ms, rest) => Some (JObject ms, rest)
                | None => None
                end
          | [] => None
          end
        else
          match parse_number (skip_ws s) with
          | Some (n, rest) => Some (JNumber n, rest)
          | None => None
          end
    | [] => None
    end.
Proof. reflexivity. Qed.

Lemma parse_elements_S (f : nat) (s : jsstring) :
  parse_elements (S f) s =
  match parse_value f s with
  | Some (v, r) =>
      match skip_ws r with
      | c :: r' =>
          if N.eqb c 44 then
            match parse_elements f r' with
            | Some (vs, rest) => Some (v :: vs, rest)
            | None => None
            end
          else if N.eqb c 93 then Some ([v], r')
          else None
      | [] => None
      end
  | None => None
  end.
Proof. reflexivity. Qed.

Lemma parse_members_S (f : nat) (s : jsstring) :
  parse_members (S f) s =
  match skip_ws s with
  | q :: r =>
      if N.eqb q 34 then
        match parse_string_body r with
        | Some (key, r1) =>
            match skip_ws r1 with
            | colon :: r2 =>
                if N.eqb colon 58 then
                  match parse_value f r2 with
                  | Some (v, r3) =>
                      match skip_ws r3 with
                      | c :: r4 =>
                          if N.eqb c 44 then
                            match parse_members f r4 with
                            | Some (ms, rest) => Some ((key, v) :: ms, rest)
                            | None => None
                            end
                          else if N.eqb c 125 then Some ([(key, v)], r4)
                          else None
                      | [] => None
                      end
                  | None => None
                  end
                else None
            | [] => None
            end
        | None => None
        end
      else None
  | [] => None
  end.
Proof. reflexivity. Qed.

(** ** More fuel changes nothing *)

Lemma parse_mono (f : nat) :
  (forall s x, parse_value f s = Some x -> parse_value (S f) s = Some x) /\
  (forall s x, parse_elements f s = Some x ->
               parse_elements (S f) s = Some x) /\
  (forall s x, parse_members f s = Some x ->
               parse_members (S f) s = Some x).
Proof.
  induction f as [|f (IHv & IHe & IHm)];
    [repeat split; intros; discriminate|].
  split; [|split]; intros s x H.
  - rewrite parse_value_S in H. rewrite parse_value_S.
    destruct (startsWith (skip_ws s) (js "null")); [assumption|].
    destruct (startsWith (skip_ws s) (js "true")); [assumption|].
    destruct (startsWith (skip_ws s) (js "false")); [assumption|].
    destruct (skip_ws s) as [|c r]; [assumption|].
    destruct (N.eqb c 34); [assumption|].
    destruct (N.eqb c 91).
    { destruct (skip_ws r) as [|c' r']; [assumption|].
      destruct (N.eqb c' 93); [assumption|].
      destruct (parse_elements f r) as [[vs rest]|] eqn:E; [|discriminate].
      rewrite (IHe _ _ E). assumption. }
    destruct (N.eqb c 123); [|assumption].
    destruct (skip_ws r) as [|c' r']; [assumption|].
    destruct (N.eqb c' 125); [assumption|].
    destruct (parse_members f r) as [[ms rest]|] eqn:E; [|discriminate].
    rewrite (IHm _ _ E). assumption.
  - rewrite parse_elements_S in H. rewrite parse_elements_S.
    destruct (parse_value f s) as [[v r]|] eqn:E; [|discriminate].
    rewrite (IHv _ _ E).
    destruct (skip_ws r) as [|c r']; [assumption|].
    destruct (N.eqb c 44); [|assumption].
    destruct (parse_elements f r') as [[vs rest]|] eqn:E2; [|discriminate].
    rewrite (IHe _ _ E2). assumption.
  - rewrite parse_members_S in H. rewrite parse_members_S.
    destruct (skip_ws s) as [|q r]; [assumption|].
    destruct (N.eqb q 34); [|assumption].
    destruct (parse_string_body r) as [[key r1]|]; [|assumption].
    destruct (skip_ws r1) as [|colon r2]; [assumption|].
    destruct (N.eqb colon 58); [|assumption].
    destruct (parse_value f r2) as [[v r3]|] eqn:E; [|discriminate].
    rewrite (IHv _ _ E).
    destruct (skip_ws r3) as [|c r4]; [assumption|].
    destruct (N.eqb c 44); [|assumption].
    destruct (parse_members f r4) as [[ms rest]|] eqn:E2; [|discriminate].
    rewrite (IHm _ _ E2). assumption.
Qed.

Lemma parse_value_mono (f f' : nat) (s : jsstring) (x : value * jsstring) :
  f <= f' -> parse_value f s = Some x -> parse_value f' s = Some x.
Proof.
  induction 1 as [|f' _ IH]; intros H; [assumption|].
  apply parse_mono, IH, H.
Qed.

Lemma parse_elements_mono (f f' : nat) (s : jsstring)
    (x : list value * jsstring) :
  f <= f' -> parse_elements f s = Some x -> parse_elements f' s = Some x.
Proof.
  induction 1 as [|f' _ IH]; intros H; [assumption|].
  apply parse_mono, IH, H.
Qed.

Lemma parse_members_mono (f f' : nat) (s : jsstring)
    (x : list (jsstring * value) * jsstring) :
  f <= f' -> parse_members f s = Some x -> parse_members f' s = Some x.
Proof.
  induction 1 as [|f' _ IH]; intros H; [assumption|].
  apply parse_mono, IH, H.
Qed.


(** ** Twice the code units consumed is fuel enough *)

Lemma parse_bound (f : nat) :
  (forall s v r,
     parse_value f s = Some (v, r) ->
     length r < length s /\
     parse_value (2 * (length s - length r)) s = Some (v, r)) /\
  (forall s vs r,
     parse_elements f s = Some (vs, r) ->
     length r < length s /\
     parse_elements (2 * (length s - length r)) s = Some (vs, r)) /\
  (forall s ms r,
     parse_members f s = Some (ms, r) ->
     length r < length s /\
     parse_members (2 * (length s - length r)) s = Some (ms, r)).
Proof.
  induction f as [|f (IHv & IHe & IHm)];
    [repeat split; intros; discriminate|].
  split; [|split].
  - intros s v rest H. rewrite parse_value_S in H.
    pose proof (skip_ws_length s) as Hws.
    assert (Hone : forall g,
               length rest < length s ->
               parse_value (S g) s = Some (v, rest) ->
               S g <= 2 * (length s - length rest) ->
               length rest < length s /\
               parse_value (2 * (length s - length rest)) s = Some (v, rest)).
    { intros g Hl Hp Hg. split; [assumption|].
      exact (parse_value_mono _ _ _ _ Hg Hp). }
    destruct (startsWith (skip_ws s) (js "null")) eqn:E1.
    { inversion H; subst.
      pose proof (startsWith_skipn _ _ E1) as Hk. simpl length in Hk.
      apply (Hone 0); [lia| |lia].
      rewrite parse_value_S, E1. reflexivity. }
    destruct (startsWith (skip_ws s) (js "true")) eqn:E2.
    { inversion H; subst.
      pose proof (startsWith_skipn _ _ E2) as Hk. simpl length in Hk.
      apply (Hone 0); [lia| |lia].
      rewrite parse_value_S, E1, E2. reflexivity. }
    destruct (startsWith (skip_ws s) (js "false")) eqn:E3.
    { inversion H; subst.
      pose proof (startsWith_skipn _ _ E3) as Hk. simpl length in Hk.
      apply (Hone 0); [lia| |lia].
      rewrite parse_value_S, E1, E2, E3. reflexivity. }
    destruct (skip_ws s) as [|c r0] eqn:Esk; [discriminate|].
    simpl length in Hws.
    destruct (N.eqb c 34) eqn:Eq.
    { destruct (parse_string_body r0) as [[str rest0]|] eqn:Es; [|discriminate].
      inversion H; subst.
      pose proof (parse_string_body_length _ _ _ Es) as Hl.
      apply (Hone 0); [lia| |lia].
      rewrite parse_value_S, Esk, E1, E2, E3, Eq, Es. reflexivity. }
    destruct (N.eqb c 91) eqn:Ea.
    { pose proof (skip_ws_length r0) as Hws0.
      destruct (skip_ws r0) as [|c' r'] eqn:Esk0; [discriminate|].
      simpl length in Hws0.
      destruct (N.eqb c' 93) eqn:Ec.
      - inversion H; subst.
        apply (Hone 0); [lia| |lia].
        rewrite parse_value_S, Esk, E1, E2, E3, Eq, Ea, Esk0, Ec. reflexivity.
      - destruct (parse_elements f r0) as [[vs rest0]|] eqn:Ee; [|discriminate].
        inversion H; subst.
        destruct (IHe _ _ _ Ee) as [Hl Hp].
        apply (Hone (2 * (length r0 - length rest))); [lia| |lia].
        rewrite parse_value_S, Esk, E1, E2, E3, Eq, Ea, Esk0, Ec, Hp.
        reflexivity. }
    destruct (N.eqb c 123) eqn:Eo.
    { pose proof (skip_ws_length r0) as Hws0.
      destruct (skip_ws r0) as [|c' r'] eqn:Esk0; [discriminate|].
      simpl length in Hws0.
      destruct (N.eqb c' 125) eqn:Ec.
      - inversion H; subst.
        apply (Hone 0); [lia| |lia].
        rewrite parse_value_S, Esk, E1, E2, E3, Eq, Ea, Eo, Esk0, Ec.
        reflexivity.
      - destruct (parse_members f r0) as [[ms rest0]|] eqn:Em; [|discriminate].
        inversion H; subst.
        destruct (IHm _ _ _ Em) as [Hl Hp].
        apply (Hone (2 * (length r0 - length rest))); [lia| |lia].
        rewrite parse_value_S, Esk, E1, E2, E3, Eq, Ea, Eo, Esk0, Ec, Hp.
        reflexivity. }
    destruct (parse_number (c :: r0)) as [[n rest0]|] eqn:En; [|discriminate].
    inversion H; subst.
    pose proof (parse_number_length _ _ _ En) as Hl. simpl length in Hl.
    apply (Hone 0); [lia| |lia].
    rewrite parse_value_S, Esk, E1, E2, E3, Eq, Ea, Eo, En. reflexivity.
  - intros s vs rest H. rewrite parse_elements_S in H.
    destruct (parse_value f s) as [[v r1]|] eqn:Ev; [|discriminate].
    destruct (IHv _ _ _ Ev) as [Hl1 Hp1].
    pose proof (skip_ws_length r1) as Hws.
    destruct (skip_ws r1) as [|c r'] eqn:Esk; [discriminate|].
    simpl length in Hws.
    destruct (N.eqb c 44) eqn:Ec.
    + destruct (parse_elements f r') as [[vs' rest0]|] eqn:Ee; [|discriminate].
      inversion H; subst.
      destruct (IHe _ _ _ Ee) as [Hl2 Hp2].
      split; [lia|].
      apply (parse_elements_mono
               (S (Nat.max (2 * (length s - length r1))
                           (2 * (length r' - length rest))))); [lia|].
      rewrite parse_elements_S.
      rewrite (parse_value_mono _ _ _ _ (Nat.le_max_l _ _) Hp1).
      rewrite Esk, Ec.
      rewrite (parse_elements_mono _ _ _ _ (Nat.le_max_r _ _) Hp2).
      reflexivity.
    + destruct (N.eqb c 93) eqn:Ec2; [|discriminate].
      inversion H; subst. split; [lia|].
      apply (parse_elements_mono (S (2 * (length s - length r1)))); [lia|].
      rewrite parse_elements_S, Hp1, Esk, Ec, Ec2. reflexivity.
  - intros s ms rest H. rewrite parse_members_S in H.
    pose proof (skip_ws_length s) as Hws.
    destruct (skip_ws s) as [|q r0] eqn:Esk; [discriminate|].
    simpl length in Hws.
    destruct (N.eqb q 34) eqn:Eq; [|discriminate].
    destruct (parse_string_body r0) as [[key r1]|] eqn:Es; [|discriminate].
    pose proof (parse_string_body_length _ _ _ Es) as Hl0.
    pose proof (skip_ws_length r1) as Hws1.
    destruct (skip_ws r1) as [|colon r2] eqn:Esk1; [discriminate|].
    simpl length in Hws1.
    destruct (N.eqb colon 58) eqn:Ecol; [|discriminate].
    destruct (parse_value f r2) as [[v r3]|] eqn:Ev; [|discriminate].
    destruct (IHv _ _ _ Ev) as [Hl1 Hp1].
    pose proof (skip_ws_length r3) as Hws3.
    destruct (skip_ws r3) as [|c r4] eqn:Esk3; [discriminate|].
    simpl length in Hws3.
    destruct (N.eqb c 44) eqn:Ec.
    + destruct (parse_members f r4) as [[ms' rest0]|] eqn:Em; [|discriminate].
      inversion H; subst.
      destruct (IHm _ _ _ Em) as [Hl2 Hp2].
      split; [lia|].
      apply (parse_members_mono
               (S (Nat.max (2 * (length r2 - length r3))
                           (2 * (length r4 - length rest))))); [lia|].
      rewrite parse_members_S, Esk, Eq, Es, Esk1, Ecol.
      rewrite (parse_value_mono _ _ _ _ (Nat.le_max_l _ _) Hp1).
      rewrite Esk3, Ec.
      rewrite (parse_members_mono _ _ _ _ (Nat.le_max_r _ _) Hp2).
      reflexivity.
    + destruct (N.eqb c 125) eqn:Ec2; [|discriminate].
      inversion H; subst. split; [lia|].
      apply (parse_members_mono (S (2 * (length r2 - length r3)))); [lia|].
      rewrite parse_members_S, Esk, Eq, Es, Esk1, Ecol, Hp1, Esk3, Ec, Ec2.
      reflexivity.
Qed.

(** The fuel of [JSON.parse] is enough: whatever any amount of fuel
    parses, [JSON.parse] parses the same. *)
Lemma parse_fuel_enough (f : nat) (text : jsstring) (v : value)
    (rest : jsstring) :
  parse_value f text = Some (v, rest) ->
  parse_value (2 * length text + 2) text = Some (v, rest).
Proof.
  intros H. destruct (parse_bound f) as [Hv _].
  destruct (Hv _ _ _ H) as [Hl Hp].
  apply (parse_value_mono (2 * (length text - length rest))); [lia|assumption].
Qed.

(** [JSON.parse] accepts a text exactly when the grammar does, with
    whatever depth of calls. *)
Lemma parse_spec (text : jsstring) (v : value) :
  JSON.parse text = Some v <->
  exists f rest, parse_value f text = Some (v, rest) /\ skip_ws rest = [].
Proof.
  unfold JSON.parse. split.
  - intros H.
    destruct (parse_value (2 * length text + 2) text) as [[v0 rest]|] eqn:E;
      [|discriminate].
    destruct (skip_ws rest) eqn:Er; [|discriminate].
    inversion H; subst. exists (2 * length text + 2), rest.
    split; assumption.
  - intros (f & rest & Hp & Hr).
    rewrite (parse_fuel_enough _ _ _ _ Hp), Hr. reflexivity.
Qed.

End JSONFacts.

(* ================================================================== *)
(** * Facts on the decoder and on the generator *)
(* ================================================================== *)

Module StreamFacts.
Import JS.
Import JSON.
Import Api.
Import Lines.
Import LinesFacts.
Import Stream.

(** ** The decoder is a fold over the bytes *)

Lemma decode_fold (value : bytes) :
  forall (td : TextDecoder.t) (out : jsstring),
    fold_left TextDecoder.step value (td, out) =
    (fst (TextDecoder.decode_stream td value),
     out ++ snd (TextDecoder.decode_stream td value)).
Proof.
  unfold TextDecoder.decode_stream.
  induction value as [|b r IH]; intros td out.
  - simpl. rewrite app_nil_r. reflexivity.
  - cbn [fold_left].
    destruct (TextDecoder.step (td, out) b) as [td1 out1] eqn:E1.
    destruct (TextDecoder.step (td, []) b) as [td2 out2] eqn:E2.
    assert (td1 = td2 /\ out1 = out ++ out2) as [-> ->].
    { unfold TextDecoder.step in E1, E2.
      destruct (TextDecoder.handler (TextDecoder.decoder td) (to_N b)) as [d' cps].
      destruct (TextDecoder.serialize (TextDecoder.BOM_seen td) cps) as [seen' text].
      inversion E1; inversion E2; subst. split; reflexivity. }
    rewrite (IH td2 (out ++ out2)), (IH td2 out2).
    simpl. rewrite app_assoc. reflexivity.
Qed.

(** Decoding a chunk and then the next one is decoding both at once. *)
Lemma decode_stream_app (td : TextDecoder.t) (a b : bytes) :
  TextDecoder.decode_stream td (a ++ b) =
  let '(td1, t1) := TextDecoder.decode_stream td a in
  let '(td2, t2) := TextDecoder.decode_stream td1 b in
  (td2, t1 ++ t2).
Proof.
  unfold TextDecoder.decode_stream at 1.
  rewrite fold_left_app.
  fold (TextDecoder.decode_stream td a).
  destruct (TextDecoder.decode_stream td a) as [td1 t1].
  rewrite decode_fold.
  destruct (TextDecoder.decode_stream td1 b) as [td2 t2].
  reflexivity.
Qed.

Lemma decode_stream_nil (td : TextDecoder.t) :
  TextDecoder.decode_stream td [] = (td, []).
Proof. reflexivity. Qed.

(** ** Scans *)

Lemma scan_app (a b : list jsstring) (r : list value * ending) :
  then_ (scan (a ++ b)) r = then_ (scan a) (then_ (scan b) r).
Proof.
  induction a as [|p a IH]; simpl.
  - destruct (scan b) as [evs [o|]]; reflexivity.
  - destruct (JSON.parse p) as [data|]; [|reflexivity].
    destruct (is_terminal data) as [[|]|]; try reflexivity.
    destruct (scan (a ++ b)) as [e1 o1].
    destruct (scan a) as [e2 o2].
    destruct o1 as [o1|], o2 as [o2|]; simpl in *.
    + inversion IH; subst; reflexivity.
    + destruct (then_ (scan b) r) as [e3 o3]. simpl in IH.
      inversion IH; subst; reflexivity.
    + inversion IH; subst. reflexivity.
    + destruct (then_ (scan b) r) as [e3 o3]. simpl in *.
      inversion IH; subst. rewrite H0. reflexivity.
Qed.

Lemma scan_lines_app (a b : list jsstring) (r : list value * ending) :
  then_ (scan_lines (a ++ b)) r =
  then_ (scan_lines a) (then_ (scan_lines b) r).
Proof.
  unfold scan_lines. rewrite filter_app, map_app. apply scan_app.
Qed.

Lemma scan_lines_skip (line : jsstring) (rest : list jsstring) :
  is_frame line = false -> scan_lines (line :: rest) = scan_lines rest.
Proof. unfold scan_lines. simpl. intros ->. reflexivity. Qed.

Lemma scan_lines_frame (line : jsstring) (rest : list jsstring) :
  is_frame line = true ->
  scan_lines (line :: rest) =
  match JSON.parse (payload line) with
  | None => ([], Some (Threw SyntaxError))
  | Some data =>
      match is_terminal data with
      | None => ([data], Some (Threw TypeError))
      | Some true => ([data], Some Returned)
      | Some false => let '(evs, o) := scan_lines rest in (data :: evs, o)
      end
  end.
Proof. unfold scan_lines. simpl. intros ->. reflexivity. Qed.

(** ** The loop, pull by pull *)

Lemma collect_S (n : nat) (st : state) :
  collect (S n) st = collect_after n (next st).
Proof. reflexivity. Qed.

Lemma for_of_cons (line : jsstring) (rest : list jsstring) :
  for_of (line :: rest) =
  if is_frame line then
    match JSON.parse (payload line) with
    | Some data => ForYield data rest
    | None => ForThrow
    end
  else for_of rest.
Proof. reflexivity. Qed.

Lemma run_for_ends (chunks : list read_result) (td : TextDecoder.t)
    (buffer : jsstring) (r : list value * ending) :
  ends_with (while_true td buffer chunks) chunks r ->
  forall lines,
    ends_with (fun st => run_for lines buffer td st (while_true td buffer chunks))
      chunks (then_ (scan_lines lines) r).
Proof.
  intros Hk lines.
  induction lines as [|line rest IH]; intros st n Hp Hn.
  - unfold run_for. simpl for_of.
    destruct r as [evs o]. apply Hk; assumption.
  - unfold run_for. rewrite for_of_cons.
    destruct (is_frame line) eqn:Hf.
    + rewrite scan_lines_frame in * by assumption.
      destruct (JSON.parse (payload line)) as [data|].
      * set (st1 := set_gen (SuspendedYield data rest buffer td) st).
        assert (Hnext : next st1 =
                  match is_terminal data with
                  | None => (finally st1, Raised TypeError)
                  | Some true => (finally st1, Done)
                  | Some false =>
                      run_for rest buffer td st1 (while_true td buffer chunks)
                  end).
        { unfold next. simpl gen. simpl pending. rewrite Hp. reflexivity. }
        destruct (is_terminal data) as [[|]|] eqn:Ht.
        -- simpl in Hn. destruct n as [|n]; [lia|].
           cbn [collect_after]. rewrite collect_S, Hnext. simpl.
           eexists. repeat split.
        -- destruct (scan_lines rest) as [evs o] eqn:Hs.
           assert (Hlen : S (length (fst (then_ (evs, o) r))) <= n).
           { destruct o; simpl in *; lia. }
           destruct n as [|n]; [lia|].
           destruct (IH st1 n Hp ltac:(lia)) as (st' & Hc & Hg & Hr & Ha).
           cbn [collect_after]. rewrite collect_S, Hnext, Hc.
           exists st'. split; [|auto].
           destruct o; reflexivity.
        -- simpl in Hn. destruct n as [|n]; [lia|].
           cbn [collect_after]. rewrite collect_S, Hnext. simpl.
           eexists. repeat split.
      * simpl. eexists. repeat split.
    + rewrite scan_lines_skip in * by assumption.
      apply (IH st n Hp Hn).
Qed.

Lemma while_true_ends (chunks : list read_result) :
  forall (td : TextDecoder.t) (buffer : jsstring),
    ends_with (while_true td buffer chunks) chunks
      (loop_meaning td buffer chunks).
Proof.
  induction chunks as [|[value|] rest IH]; intros td buffer st n Hp Hn.
  - simpl. eexists. repeat split.
  - simpl while_true. simpl loop_meaning in *.
    destruct (TextDecoder.decode_stream td value) as [td' text].
    apply (run_for_ends rest td' (partial_line (buffer ++ text)) _
             (IH td' (partial_line (buffer ++ text)))
             (complete_lines (buffer ++ text)) (did_read rest st) n);
      [reflexivity|assumption].
  - simpl. eexists. repeat split.
Qed.


(** ** The loop as a function of the text *)

Lemma then_returned (a : list value * option ending) :
  then_ a ([], Returned) =
  (fst a, match snd a with Some e => e | None => Returned end).
Proof.
  destruct a as [evs [o|]]; simpl; [reflexivity|].
  rewrite app_nil_r. reflexivity.
Qed.

Lemma loop_meaning_chunks (cs : list bytes) :
  forall (td : TextDecoder.t) (buffer : jsstring),
    has_LF buffer = false ->
    loop_meaning td buffer (map Chunk cs) =
    then_ (scan_lines (complete_lines
             (buffer ++ snd (TextDecoder.decode_stream td (concat cs)))))
      ([], Returned).
Proof.
  induction cs as [|c cs IH]; intros td buffer Hb.
  - simpl. rewrite app_nil_r.
    destruct (no_LF_lines buffer Hb) as [-> _]. reflexivity.
  - simpl map. simpl concat. simpl loop_meaning.
    rewrite decode_stream_app.
    destruct (TextDecoder.decode_stream td c) as [td1 t1].
    rewrite (IH td1 (partial_line (buffer ++ t1)) (partial_line_no_LF _)).
    destruct (TextDecoder.decode_stream td1 (concat cs)) as [td2 t2].
    simpl snd.
    rewrite app_assoc, (complete_lines_app (buffer ++ t1) t2).
    rewrite scan_lines_app. reflexivity.
Qed.

Lemma loop_meaning_stream (cs : list bytes) :
  loop_meaning TextDecoder.create [] (map Chunk cs) =
  classify (frames (text_of (concat cs))).
Proof.
  rewrite loop_meaning_chunks by reflexivity.
  rewrite then_returned. unfold classify, frames, text_of, scan_lines.
  simpl app.
  destruct (scan _) as [evs o]. reflexivity.
Qed.

(** ** Whole runs *)

Lemma collect_mono (n : nat) :
  forall st r m, collect n st = Some r -> n <= m -> collect m st = Some r.
Proof.
  induction n as [|n IH]; intros st r m H Hm; [discriminate|].
  destruct m as [|m]; [lia|].
  rewrite collect_S in *.
  destruct (next st) as [st1 [v| |e]]; simpl in *; try assumption.
  destruct (collect n st1) as [[[evs o] s]|] eqn:E; [|discriminate].
  rewrite (IH st1 _ m E) by lia. assumption.
Qed.

(** A successful response with a body: the consumer collects what the
    loop means, and the reader is acquired once and released once. *)
Lemma collect_body (response : Response) (chunks : list read_result)
    (n : nat) :
  ok response = true ->
  body response = Some chunks ->
  length (fst (loop_meaning TextDecoder.create [] chunks)) <= n ->
  exists st',
    collect (S n) (queryStream (Normal response)) =
      Some (fst (loop_meaning TextDecoder.create [] chunks),
            snd (loop_meaning TextDecoder.create [] chunks), st') /\
    gen st' = Completed /\ releases st' = 1 /\ acquired st' = 1.
Proof.
  intros Hok Hbody Hn.
  rewrite collect_S. unfold next. cbn [gen queryStream].
  rewrite Hok, Hbody. cbn [negb].
  destruct (while_true_ends chunks TextDecoder.create []
              (getReader chunks (queryStream (Normal response))) n
              eq_refl Hn) as (st' & Hc & Hg & Hr & Ha).
  exists st'. repeat split; assumption.
Qed.

Lemma collect_stream (response : Response) (cs : list bytes) (n : nat) :
  ok response = true ->
  body response = Some (map Chunk cs) ->
  length (fst (classify (frames (text_of (concat cs))))) <= n ->
  exists st',
    collect (S n) (queryStream (Normal response)) =
      Some (fst (classify (frames (text_of (concat cs)))),
            snd (classify (frames (text_of (concat cs)))), st') /\
    gen st' = Completed /\ releases st' = 1 /\ acquired st' = 1.
Proof.
  intros Hok Hbody Hn.
  rewrite <- loop_meaning_stream in *.
  apply collect_body; assumption.
Qed.

(** ** The shape of the state after a pull *)

Lemma run_for_shape (a rl : nat) (k : state -> state * iter_result)
    (buffer : jsstring) (td : TextDecoder.t) :
  (forall st, acquired st = a -> releases st = rl -> shape a rl (k st)) ->
  forall lines st,
    acquired st = a -> releases st = rl ->
    shape a rl (run_for lines buffer td st k).
Proof.
  intros Hk lines.
  induction lines as [|line rest IH]; intros st Ha Hr.
  - apply Hk; assumption.
  - unfold run_for in *. rewrite for_of_cons.
    destruct (is_frame line).
    + destruct (JSON.parse (payload line)) as [data|].
      * split; [assumption|]. simpl. split; [|assumption].
        do 3 eexists. reflexivity.
      * split; [assumption|]. simpl. split; [reflexivity|].
        f_equal. assumption.
    + apply IH; assumption.
Qed.

Lemma while_true_shape (a rl : nat) (chunks : list read_result) :
  forall td buffer st,
    acquired st = a -> releases st = rl ->
    shape a rl (while_true td buffer chunks st).
Proof.
  induction chunks as [|[value|] rest IH]; intros td buffer st Ha Hr.
  - split; [assumption|]. simpl. split; [reflexivity|]. f_equal. assumption.
  - simpl while_true.
    destruct (TextDecoder.decode_stream td value) as [td' text].
    apply run_for_shape; [|assumption|assumption].
    intros st0 Ha0 Hr0. apply IH; assumption.
  - split; [assumption|]. simpl. split; [reflexivity|]. f_equal. assumption.
Qed.

(** The reads made by a pull never go back. *)
Lemma next_yield_suspended (st st1 : state) (v : value) :
  next st = (st1, Yielded v) ->
  exists lines buffer td, gen st1 = SuspendedYield v lines buffer td.
Proof.
  unfold next. intros H.
  destruct (gen st) as [[response|e]|data lines buffer td|] eqn:Hg;
    try discriminate.
  - destruct (negb (ok response)).
    + destruct (get _ _); discriminate.
    + destruct (body response) as [chunks|]; [|discriminate].
      pose proof (while_true_shape (acquired (getReader chunks st))
                    (releases (getReader chunks st)) chunks
                    TextDecoder.create [] (getReader chunks st)
                    eq_refl eq_refl) as [_ Hs].
      rewrite H in Hs. simpl in Hs. apply Hs.
  - destruct (is_terminal data) as [[|]|]; try discriminate.
    pose proof (run_for_shape (acquired st) (releases st)
                  (while_true td buffer (pending st)) buffer td
                  (fun s Ha Hr => while_true_shape _ _ (pending st) td buffer s Ha Hr)
                  lines st eq_refl eq_refl) as [_ Hs].
    rewrite H in Hs. simpl in Hs. apply Hs.
Qed.


(** ** Frames *)

Lemma startsWith_app (p s : jsstring) : startsWith (p ++ s) p = true.
Proof.
  induction p as [|c p IH]; [reflexivity|].
  simpl. rewrite N.eqb_refl. exact IH.
Qed.

Lemma slice_from_app (a b : jsstring) :
  slice_from (a ++ b) (Z.of_nat (length a)) = b.
Proof.
  unfold slice_from, slice, rel_index.
  rewrite length_app.
  destruct (Z.ltb_spec (Z.of_nat (length a)) 0) as [H|_]; [lia|].
  destruct (Z.ltb_spec (Z.of_nat (length a + length b)) 0) as [H|_]; [lia|].
  rewrite !Z.min_l by lia.
  rewrite Nat2Z.id.
  rewrite skipn_app, skipn_all, Nat.sub_diag. simpl.
  replace (Z.to_nat _) with (length b) by lia.
  apply firstn_all.
Qed.

Lemma is_frame_prefix (p : jsstring) : is_frame (prefix ++ p) = true.
Proof. apply startsWith_app. Qed.

Lemma payload_prefix (p : jsstring) : payload (prefix ++ p) = p.
Proof. exact (slice_from_app prefix p). Qed.

Lemma classify_frames (text : jsstring) :
  classify (frames text) =
  then_ (scan_lines (complete_lines text)) ([], Returned).
Proof.
  rewrite then_returned. unfold classify, frames, scan_lines.
  destruct (scan _) as [evs o]. reflexivity.
Qed.

(** Frames that parse and do not end the stream are all yielded, and the
    scan goes on behind them. *)
Lemma scan_nonterminal (ps : list jsstring) :
  forall evs,
    classify_each ps = map Some evs ->
    Forall (fun v => is_terminal v = Some false) evs ->
    scan ps = (evs, None).
Proof.
  unfold classify_each.
  induction ps as [|p ps IH]; intros evs Hm Hnt.
  - destruct evs; [reflexivity|discriminate].
  - destruct evs as [|v evs]; [discriminate|].
    simpl in Hm. inversion Hm as [[Hp Hrest]].
    inversion Hnt as [|? ? Hv Hnt']; subst.
    simpl. rewrite Hp, Hv, (IH evs Hrest Hnt'). reflexivity.
Qed.

Lemma classify_then (ps : list jsstring) :
  classify ps = then_ (scan ps) ([], Returned).
Proof.
  rewrite then_returned. unfold classify.
  destruct (scan ps) as [evs o]. reflexivity.
Qed.

Lemma classify_app (before rest : list jsstring) (evs : list value) :
  scan before = (evs, None) ->
  classify (before ++ rest) =
  (evs ++ fst (classify rest), snd (classify rest)).
Proof.
  intros Hb.
  rewrite (classify_then (before ++ rest)), scan_app, Hb.
  rewrite <- classify_then. reflexivity.
Qed.

(** The frame that ends a stream, behind frames that do not. *)
Lemma classify_at_ending (before after : list jsstring) (p : jsstring)
    (evs : list value) :
  classify_each before = map Some evs ->
  Forall (fun v => is_terminal v = Some false) evs ->
  classify (before ++ p :: after) =
  match JSON.parse p with
  | None => (evs, Threw SyntaxError)
  | Some v =>
      match is_terminal v with
      | None => (evs ++ [v], Threw TypeError)
      | Some true => (evs ++ [v], Returned)
      | Some false =>
          (evs ++ v :: fst (classify after), snd (classify after))
      end
  end.
Proof.
  intros Hm Hnt.
  rewrite (classify_app _ _ _ (scan_nonterminal _ _ Hm Hnt)).
  unfold classify at 1 2. cbn [scan].
  destruct (JSON.parse p) as [v|]; [|cbn; rewrite app_nil_r; reflexivity].
  destruct (is_terminal v) as [[|]|]; try reflexivity.
  unfold classify. destruct (scan after) as [e o]. reflexivity.
Qed.

(** ** After a terminal event *)

Lemma next_after_terminal (st st1 : state) (v : value) :
  next st = (st1, Yielded v) ->
  is_terminal v = Some true ->
  next st1 = (finally st1, Done).
Proof.
  intros H Ht.
  destruct (next_yield_suspended st st1 v H) as (lines & buffer & td & Hg).
  unfold next. rewrite Hg, Ht. reflexivity.
Qed.

Lemma next_completed (st : state) :
  gen st = Completed -> next st = (st, Done).
Proof. intros H. unfold next. rewrite H. reflexivity. Qed.


Lemma eqb_eq (a b : jsstring) : JS.eqb a b = true <-> a = b.
Proof.
  revert b. induction a as [|x a IH]; intros [|y b]; simpl;
    try (split; [discriminate|discriminate]); [split; reflexivity|].
  rewrite andb_true_iff, N.eqb_eq, IH.
  split; [intros [-> ->]; reflexivity|intros H; inversion H; split; reflexivity].
Qed.

Lemma eqb_neq (a b : jsstring) : a <> b -> JS.eqb a b = false.
Proof.
  intros H. destruct (JS.eqb a b) eqn:E; [|reflexivity].
  apply eqb_eq in E. contradiction.
Qed.

(** The frames before a line, when none of them ends the stream, are
    yielded; what follows is the scan from that line on. *)
Lemma classify_cut (text : jsstring) (before rest : list jsstring)
    (evs : list value) :
  complete_lines text = before ++ rest ->
  scan_lines before = (evs, None) ->
  classify (frames text) =
  (evs ++ fst (then_ (scan_lines rest) ([], Returned)),
   snd (then_ (scan_lines rest) ([], Returned))).
Proof.
  intros Hl Hb.
  rewrite classify_frames, Hl, scan_lines_app, Hb. reflexivity.
Qed.

(** ** The reader invariant *)

Lemma shape_inv (p : state * iter_result) :
  shape 1 0 p ->
  reader_inv (fst p) /\
  (match snd p with Yielded _ => True | _ => gen (fst p) = Completed end).
Proof.
  intros [Ha Hs]. unfold reader_inv.
  destruct (snd p) as [v| |e].
  - destruct Hs as [(l & b & d & Hg) Hr]. rewrite Hg. auto.
  - destruct Hs as [Hg Hr]. rewrite Hg. repeat split; lia.
  - destruct Hs as [Hg Hr]. rewrite Hg. repeat split; lia.
Qed.

Lemma next_inv (st : state) :
  reader_inv st ->
  reader_inv (fst (next st)) /\
  (match snd (next st) with
   | Yielded _ => True
   | _ => gen (fst (next st)) = Completed
   end).
Proof.
  unfold reader_inv at 1, next. intros H.
  destruct (gen st) as [[response|e]|data lines buffer td|] eqn:Hg.
  - destruct H as [Ha Hr].
    assert (Hclose : forall r : iter_result,
               reader_inv (fst (close st, r)) /\ gen (fst (close st, r)) = Completed).
    { intros r. unfold reader_inv. simpl. rewrite Ha, Hr. auto. }
    destruct (negb (ok response)).
    + destruct (get _ _); apply Hclose.
    + destruct (body response) as [chunks|]; [|apply Hclose].
      apply shape_inv, while_true_shape; simpl; congruence.
  - destruct H as [Ha Hr]. unfold reader_inv. simpl. rewrite Ha, Hr. auto.
  - destruct H as [Ha Hr].
    assert (Hfin : forall r : iter_result,
               reader_inv (fst (finally st, r)) /\ gen (fst (finally st, r)) = Completed).
    { intros r. unfold reader_inv. simpl. rewrite Ha, Hr. auto. }
    destruct (is_terminal data) as [[|]|]; try apply Hfin.
    apply shape_inv, run_for_shape; try assumption.
    intros st0 Ha0 Hr0. apply while_true_shape; assumption.
  - simpl. unfold reader_inv. rewrite Hg. auto.
Qed.

Lemma return_inv (st : state) :
  reader_inv st ->
  reader_inv (return_ st) /\ gen (return_ st) = Completed.
Proof.
  unfold reader_inv at 1, return_. intros H.
  destruct (gen st) eqn:Hg; unfold reader_inv; simpl; try rewrite Hg;
    destruct H as [Ha Hr]; rewrite ?Ha, ?Hr; auto.
Qed.

Lemma calls_inv (cs : list call) :
  forall st, reader_inv st -> reader_inv (calls cs st).
Proof.
  unfold calls.
  induction cs as [|c cs IH]; intros st H; [assumption|].
  simpl. apply IH. destruct c; simpl.
  - apply next_inv; assumption.
  - apply return_inv; assumption.
Qed.

(** ** The reader stays acquired *)

Lemma next_acquired (st : state) :
  reader_inv st -> acquired st <= acquired (fst (next st)).
Proof.
  unfold reader_inv, next. intros H.
  destruct (gen st) as [[response|e]|data lines buffer td|] eqn:Hg.
  - lia.
  - lia.
  - destruct (is_terminal data) as [[|]|]; simpl; try lia.
    pose proof (run_for_shape (acquired st) (releases st)
                  (while_true td buffer (pending st)) buffer td
                  (fun s Ha Hr => while_true_shape _ _ (pending st) td buffer s Ha Hr)
                  lines st eq_refl eq_refl) as [Ha _].
    lia.
  - simpl. lia.
Qed.

Lemma return_acquired (st : state) : acquired (return_ st) = acquired st.
Proof. unfold return_. destruct (gen st); reflexivity. Qed.

Lemma calls_acquired (cs : list call) :
  forall st, reader_inv st -> acquired st <= acquired (calls cs st).
Proof.
  unfold calls.
  induction cs as [|c cs IH]; intros st H; [simpl; lia|].
  simpl. destruct c; simpl.
  - etransitivity; [apply next_acquired; assumption|].
    apply IH. apply next_inv. assumption.
  - rewrite <- (return_acquired st) at 1.
    apply IH. apply return_inv. assumption.
Qed.

Lemma first_pull_acquires (response : Response)
    (chunks : list read_result) :
  ok response = true ->
  body response = Some chunks ->
  acquired (fst (next (queryStream (Normal response)))) = 1.
Proof.
  intros Hok Hbody. unfold next. cbn [gen queryStream].
  rewrite Hok, Hbody. cbn [negb].
  apply (while_true_shape 1 0 chunks TextDecoder.create []
           (getReader chunks (queryStream (Normal response))));
    reflexivity.
Qed.

End StreamFacts.

(* ================================================================== *)
(** * Facts on the heading pattern and on [parseSections] *)
(* ================================================================== *)

Module HeadingsFacts.
Import JS.
Import QueryInterface.
Import Headings.

(** ** [trim] *)

Lemma trimStart_nil_iff (s : jsstring) :
  trimStart s = [] <-> forallb is_whitespace s = true.
Proof.
  induction s as [|c r IH]; simpl; [tauto|].
  destruct (is_whitespace c); simpl; [exact IH|].
  split; discriminate.
Qed.

Lemma trimStart_snoc_not_nil (s : jsstring) (c : code_unit) :
  is_whitespace c = false -> trimStart (s ++ [c]) <> [].
Proof.
  intros Hc H. apply trimStart_nil_iff in H.
  rewrite forallb_app in H. simpl in H. rewrite Hc in H.
  rewrite andb_false_r in H. discriminate.
Qed.

Lemma trim_nil_iff (s : jsstring) :
  trim s = [] <-> forallb is_whitespace s = true.
Proof.
  rewrite <- trimStart_nil_iff. unfold trim, trimEnd.
  split.
  - intros H. destruct (trimStart s) as [|c r] eqn:E; [reflexivity|].
    exfalso.
    assert (Hc : is_whitespace c = false).
    { destruct s as [|x s']; [discriminate|].
      clear H. revert x E. induction s' as [|y s' IH]; intros x E.
      - simpl in E. destruct (is_whitespace x) eqn:Hx; [discriminate|].
        inversion E; subst. assumption.
      - simpl in E. destruct (is_whitespace x) eqn:Hx.
        + apply (IH y). exact E.
        + inversion E; subst. assumption. }
    apply (f_equal (@rev code_unit)) in H. rewrite rev_involutive in H.
    simpl in H. apply (trimStart_snoc_not_nil (rev r) c Hc). exact H.
  - intros ->. reflexivity.
Qed.

Lemma eqb_nil (s : jsstring) : JS.eqb s [] = true <-> s = [].
Proof. destruct s; simpl; split; congruence. Qed.

(** ** The greedy repetition *)

Section Greedy.
Context {A : Type} (p : code_unit -> bool) (k : jsstring -> option A).

Lemma greedy_plus_sound (s : jsstring) :
  forall taken a,
    greedy_plus p k s = Some (taken, a) ->
    exists r,
      s = taken ++ r /\ taken <> [] /\ forallb p taken = true /\
      k r = Some a.
Proof.
  induction s as [|c r0 IH]; intros taken a H; [discriminate|].
  simpl in H. destruct (p c) eqn:Hp; [|discriminate].
  destruct (greedy_plus p k r0) as [[t0 a0]|] eqn:Hg.
  - inversion H; subst. destruct (IH t0 a eq_refl) as (r & Hs & _ & Hall & Hk).
    exists r. subst r0. simpl. rewrite Hp, Hall.
    repeat split; [discriminate|assumption].
  - destruct (k r0) as [a0|] eqn:Hk; [|discriminate].
    inversion H; subst. exists r0. simpl. rewrite Hp.
    repeat split; [discriminate|assumption].
Qed.

Lemma greedy_plus_none (s : jsstring) :
  greedy_plus p k s = None ->
  forall taken r,
    s = taken ++ r -> taken <> [] -> forallb p taken = true -> k r = None.
Proof.
  induction s as [|c r0 IH]; intros H taken r Hs Hne Hall.
  - destruct taken; [contradiction|discriminate].
  - destruct taken as [|x t']; [contradiction|].
    simpl in Hs. inversion Hs; subst. clear Hs.
    simpl in Hall. apply andb_true_iff in Hall as [Hx Ht].
    simpl in H. rewrite Hx in H.
    destruct (greedy_plus p k (t' ++ r)) as [[t0 a0]|] eqn:Hg; [discriminate|].
    destruct t' as [|y t''].
    + simpl in *. destruct (k r); [discriminate|reflexivity].
    + apply (IH eq_refl (y :: t'') r eq_refl); [discriminate|assumption].
Qed.

Lemma greedy_plus_longest (s : jsstring) :
  forall taken a,
    greedy_plus p k s = Some (taken, a) ->
    forall taken' r',
      s = taken' ++ r' -> taken' <> [] -> forallb p taken' = true ->
      k r' <> None ->
      length taken' <= length taken.
Proof.
  induction s as [|c r0 IH]; intros taken a H taken' r' Hs Hne Hall Hk;
    [discriminate|].
  destruct taken' as [|x t']; [contradiction|].
  simpl in Hs. inversion Hs; subst. clear Hs.
  simpl in Hall. apply andb_true_iff in Hall as [Hx Ht].
  simpl in H. rewrite Hx in H.
  destruct (greedy_plus p k (t' ++ r')) as [[t0 a0]|] eqn:Hg.
  - inversion H; subst. simpl.
    destruct t' as [|y t'']; [simpl; lia|].
    apply le_n_S.
    apply (IH t0 a eq_refl (y :: t'') r' eq_refl);
      [discriminate|assumption|assumption].
  - destruct t' as [|y t''];
      [simpl in *; destruct (k r'); inversion H; simpl; lia|].
    exfalso. apply Hk.
    apply (greedy_plus_none _ Hg (y :: t'') r' eq_refl);
      [discriminate|assumption].
Qed.

End Greedy.

(** ** The pattern at one position *)

Lemma match_at_unfold (prev : option code_unit) (s : jsstring) :
  match_at prev s =
  if line_start prev then
    match s with
    | c1 :: c2 :: r =>
        if N.eqb c1 35 && N.eqb c2 35 then
          match greedy_plus is_whitespace (greedy_plus dot eol) r with
          | Some (ws, (group, rest)) => Some (ws, group, rest)
          | None => None
          end
        else None
    | _ => None
    end
  else None.
Proof. reflexivity. Qed.

Lemma match_at_sound (prev : option code_unit) (s ws title rest : jsstring) :
  match_at prev s = Some (ws, title, rest) ->
  heading_at prev s ws title rest.
Proof.
  rewrite match_at_unfold. intros H.
  destruct (line_start prev) eqn:Hl; [|discriminate].
  destruct s as [|c1 [|c2 r]]; try discriminate.
  destruct (N.eqb c1 35 && N.eqb c2 35) eqn:Hc; [|discriminate].
  apply andb_true_iff in Hc as [Hc1 Hc2].
  apply N.eqb_eq in Hc1, Hc2. subst c1 c2.
  destruct (greedy_plus is_whitespace (greedy_plus dot eol) r)
    as [[ws0 [g0 rest0]]|] eqn:Hg; [|discriminate].
  inversion H; subst. clear H.
  destruct (greedy_plus_sound _ _ _ _ _ Hg) as (r1 & Hs1 & Hne1 & Hall1 & Hk1).
  destruct (greedy_plus_sound _ _ _ _ _ Hk1) as (r2 & Hs2 & Hne2 & Hall2 & Hk2).
  unfold eol in Hk2. destruct (line_end r2) eqn:He; [|discriminate].
  inversion Hk2; subst.
  repeat split; assumption.
Qed.

Lemma match_at_complete (prev : option code_unit) (s : jsstring) :
  match_at prev s = None ->
  forall ws title rest, ~ heading_at prev s ws title rest.
Proof.
  rewrite match_at_unfold.
  intros H ws title rest (Hl & Hs & Hne1 & Hall1 & Hne2 & Hall2 & He).
  rewrite Hl in H. subst s. cbn [N.eqb Pos.eqb andb] in H.
  destruct (greedy_plus is_whitespace (greedy_plus dot eol)
              (ws ++ title ++ rest)) as [[ws0 [g0 rest0]]|] eqn:Hg;
    [discriminate|].
  pose proof (greedy_plus_none _ _ _ Hg ws (title ++ rest) eq_refl Hne1 Hall1) as H1.
  pose proof (greedy_plus_none _ _ _ H1 title rest eq_refl Hne2 Hall2) as H2.
  unfold eol in H2. rewrite He in H2. discriminate.
Qed.

Lemma match_at_longest (prev : option code_unit) (s ws title rest : jsstring) :
  match_at prev s = Some (ws, title, rest) ->
  forall ws' title' rest',
    heading_at prev s ws' title' rest' -> length ws' <= length ws.
Proof.
  rewrite match_at_unfold.
  intros H ws' title' rest' (Hl & Hs & Hne1 & Hall1 & Hne2 & Hall2 & He).
  rewrite Hl in H. subst s. cbn [N.eqb Pos.eqb andb] in H.
  destruct (greedy_plus is_whitespace (greedy_plus dot eol)
              (ws' ++ title' ++ rest')) as [[ws0 [g0 rest0]]|] eqn:Hg;
    [|discriminate].
  inversion H; subst. clear H.
  apply (greedy_plus_longest _ _ _ _ _ Hg ws' (title' ++ rest') eq_refl Hne1 Hall1).
  intros H1.
  pose proof (greedy_plus_none _ _ _ H1 title' rest' eq_refl Hne2 Hall2) as H2.
  unfold eol in H2. rewrite He in H2. discriminate.
Qed.


(** ** [exec]: the leftmost match *)

Lemma prev_of_cons (prev : option code_unit) (c : code_unit)
    (skip : jsstring) :
  prev_of prev (c :: skip) = prev_of (Some c) skip.
Proof.
  unfold prev_of. simpl.
  destruct (rev skip) as [|x r]; reflexivity.
Qed.

Lemma exec_unfold (prev : option code_unit) (s : jsstring) (pos : Z) :
  exec prev s pos =
  match match_at prev s with
  | Some (ws, group, rest) =>
      Some {| index := pos;
              group1 := group;
              lastIndex := pos + 2 + Z.of_nat (length ws)
                           + Z.of_nat (length group);
              remaining := rest;
              before_remaining := Some (last group 0%N) |}
  | None =>
      match s with
      | [] => None
      | c :: r => exec (Some c) r (pos + 1)
      end
  end.
Proof. destruct s; reflexivity. Qed.

Lemma exec_some (s : jsstring) :
  forall prev pos m,
    exec prev s pos = Some m ->
    exists skip ws rest,
      s = skip ++ 35%N :: 35%N :: ws ++ group1 m ++ rest /\
      index m = (pos + Z.of_nat (length skip))%Z /\
      lastIndex m = (pos + Z.of_nat (length skip) + 2
                     + Z.of_nat (length ws)
                     + Z.of_nat (length (group1 m)))%Z /\
      remaining m = rest /\
      before_remaining m = Some (last (group1 m) 0%N) /\
      match_at (prev_of prev skip)
        (35%N :: 35%N :: ws ++ group1 m ++ rest) = Some (ws, group1 m, rest) /\
      (forall skip1 skip2 ws' title' rest',
         skip = skip1 ++ skip2 -> skip2 <> [] ->
         ~ heading_at (prev_of prev skip1)
             (skip2 ++ 35%N :: 35%N :: ws ++ group1 m ++ rest)
             ws' title' rest').
Proof.
  induction s as [|c r IH]; intros prev pos m H; rewrite exec_unfold in H.
  - destruct (match_at prev []) as [[[ws g] rest]|] eqn:Hm; [|discriminate].
    apply match_at_sound in Hm. destruct Hm as (_ & Hs & _). discriminate.
  - destruct (match_at prev (c :: r)) as [[[ws g] rest]|] eqn:Hm.
    + inversion H; subst. clear H. simpl.
      pose proof (match_at_sound _ _ _ _ _ Hm) as (_ & Hs & _).
      exists [], ws, rest. simpl. rewrite <- Hs.
      repeat split; try lia; try assumption.
      intros skip1 skip2 ws' t' r' He Hne.
      destruct skip1; destruct skip2; try discriminate. contradiction.
    + destruct (IH (Some c) (pos + 1)%Z m H)
        as (skip & ws & rest & Hs & Hi & Hl & Hr & Hb & Hmatch & Hno).
      exists (c :: skip), ws, rest.
      rewrite prev_of_cons. simpl length. rewrite Hs.
      repeat split; try lia; try assumption.
      intros skip1 skip2 ws' t' r' He Hne.
      destruct skip1 as [|x skip1].
      * simpl in He. subst skip2. simpl.
        rewrite <- Hs. apply (match_at_complete _ _ Hm).
      * simpl in He. inversion He; subst. rewrite prev_of_cons.
        apply Hno; [reflexivity|assumption].
Qed.

Lemma exec_none (s : jsstring) :
  forall prev pos,
    exec prev s pos = None ->
    forall skip s' ws title rest,
      s = skip ++ s' -> ~ heading_at (prev_of prev skip) s' ws title rest.
Proof.
  induction s as [|c r IH]; intros prev pos H skip s' ws title rest Hs;
    rewrite exec_unfold in H.
  - destruct skip; [|discriminate]. simpl in Hs. subst s'.
    intros (_ & Hs' & _). discriminate.
  - destruct (match_at prev (c :: r)) as [[[ws0 g0] rest0]|] eqn:Hm;
      [discriminate|].
    destruct skip as [|x skip].
    + simpl in Hs. subst s'. apply (match_at_complete _ _ Hm).
    + simpl in Hs. inversion Hs; subst. rewrite prev_of_cons.
      apply (IH (Some x) (pos + 1)%Z H skip s' ws title rest eq_refl).
Qed.

(** ** The loop of [exec] calls ends and lists the successive matches *)

Lemma exec_loop_spec (fuel : nat) :
  forall prev s pos,
    length s < fuel ->
    exists hs,
      exec_loop fuel prev s (Z.of_nat pos) = Some (pushed hs) /\
      successive prev s pos hs.
Proof.
  induction fuel as [|fuel IH]; intros prev s pos Hf; [lia|].
  simpl exec_loop.
  destruct (exec prev s (Z.of_nat pos)) as [m|] eqn:He.
  - destruct (exec_some _ _ _ _ He)
      as (skip & ws & rest & Hs & Hi & Hl & Hr & Hb & Hmatch & Hno).
    assert (Hlen : length rest < fuel).
    { rewrite Hs in Hf. rewrite length_app in Hf. simpl in Hf.
      rewrite !length_app in Hf. lia. }
    destruct (IH (Some (last (group1 m) 0%N)) rest
                (pos + length skip + 2 + length ws + length (group1 m)) Hlen)
      as (hs & Hloop & Hsucc).
    exists ((pos + length skip, group1 m) :: hs).
    rewrite Hb, Hr.
    replace (lastIndex m)
      with (Z.of_nat (pos + length skip + 2 + length ws + length (group1 m)))
      by lia.
    rewrite Hloop. split.
    + simpl. rewrite Hi. do 3 f_equal. lia.
    + apply (successive_match prev s pos skip ws (group1 m) rest hs Hs Hno).
      * apply match_at_sound. exact Hmatch.
      * apply (match_at_longest _ _ _ _ _ Hmatch).
      * exact Hsucc.
  - exists []. split; [reflexivity|].
    apply successive_none. apply (exec_none _ _ _ He).
Qed.

Lemma successive_bounds (prev : option code_unit) (s : jsstring)
    (pos : nat) (hs : list (nat * jsstring)) :
  successive prev s pos hs ->
  Forall (fun h => fst h <= pos + length s) hs.
Proof.
  induction 1 as [|prev s pos skip ws title rest hs Hs Hno Hh Hl Hsucc IH];
    [constructor|].
  assert (Hlen : length s =
                 length skip + 2 + length ws + length title + length rest).
  { rewrite Hs. rewrite length_app. simpl. rewrite !length_app. lia. }
  unfold jsstring, code_unit in *.
  constructor; [simpl; lia|].
  eapply Forall_impl; [|exact IH]. simpl. intros h Hb. lia.
Qed.

(** ** [indexOf] and [slice] on positions of the input *)

Lemma index_from_spec (s : jsstring) :
  forall pos,
    (0 <= pos)%Z ->
    (index_from LF s pos = (-1)%Z /\ existsb (N.eqb LF) s = false) \/
    (exists k,
       index_from LF s pos = (pos + Z.of_nat k)%Z /\ k < length s /\
       nth_error s k = Some LF /\
       existsb (N.eqb LF) (firstn k s) = false).
Proof.
  induction s as [|c r IH]; intros pos Hpos.
  - left. split; reflexivity.
  - cbn [index_from existsb]. rewrite (N.eqb_sym LF c).
    destruct (N.eqb c LF) eqn:Hc.
    + right. exists 0. apply N.eqb_eq in Hc. subst c.
      simpl. repeat split; [lia|lia].
    + destruct (IH (pos + 1)%Z ltac:(lia)) as [[Hi Hn]|(k & Hi & Hk & Hn & Hf)].
      * left. split; assumption.
      * right. exists (S k). cbn [firstn existsb nth_error length].
        rewrite (N.eqb_sym LF c), Hc.
        repeat split; [lia|lia|assumption|assumption].
Qed.

Lemma slice_between (s : jsstring) (a b : nat) :
  a <= length s -> b <= length s ->
  slice s (Z.of_nat a) (Z.of_nat b) = between s a b.
Proof.
  intros Ha Hb. unfold slice, between, rel_index.
  destruct (Z.ltb_spec (Z.of_nat a) 0) as [H|_]; [lia|].
  destruct (Z.ltb_spec (Z.of_nat b) 0) as [H|_]; [lia|].
  rewrite !Z.min_l by lia.
  rewrite Nat2Z.id. f_equal. lia.
Qed.

Lemma sections_describes (markdown : jsstring) (hs : list (nat * jsstring)) :
  Forall (fun h => fst h <= length markdown) hs ->
  describes markdown hs (sections markdown (pushed hs)).
Proof.
  induction hs as [|[i title] hs IH]; intros Hb; [constructor|].
  inversion Hb as [|? ? Hi Hb']; subst. simpl in Hi.
  assert (Hnext : match hs with
                  | (j, _) :: _ => j
                  | [] => length markdown
                  end <= length markdown).
  { destruct hs as [|[j t] hs']; [lia|].
    inversion Hb'; subst. assumption. }
  cbn [pushed map sections fst snd].
  fold (pushed hs).
  assert (Hend : match pushed hs with
                 | next :: _ => snd next
                 | [] => Z.of_nat (length markdown)
                 end =
                 Z.of_nat (match hs with
                           | (j, _) :: _ => j
                           | [] => length markdown
                           end)).
  { destruct hs as [|[j t] hs']; reflexivity. }
  rewrite Hend. clear Hend.
  unfold indexOf. rewrite Nat2Z.id.
  destruct (index_from_spec (skipn i markdown) (Z.of_nat i) ltac:(lia))
    as [[Hx Hn]|(k & Hx & Hk & Hn & Hf)]; rewrite Hx.
  - (* no line feed after the heading *)
    apply (describes_cons markdown i title hs _ _ (length markdown)).
    + split; [lia|]. split; [|left; reflexivity].
      unfold between. rewrite firstn_all2; [assumption|].
      rewrite length_skipn. lia.
    + reflexivity.
    + cbn [content]. rewrite Z.eqb_refl.
      rewrite slice_between by lia.
      f_equal. f_equal. lia.
    + apply IH. assumption.
  - rewrite length_skipn in Hk.
    apply (describes_cons markdown i title hs _ _ (i + k)).
    + split; [lia|]. split.
      * unfold between. replace (i + k - i) with k by lia. assumption.
      * right. rewrite nth_error_skipn in Hn. assumption.
    + reflexivity.
    + cbn [content].
      destruct (Z.eqb_spec (Z.of_nat i + Z.of_nat k) (-1)) as [H|_]; [lia|].
      replace (Z.of_nat i + Z.of_nat k + 1)%Z with (Z.of_nat (S (i + k)))
        by lia.
      rewrite slice_between by lia.
      f_equal. f_equal. lia.
    + apply IH. assumption.
Qed.

End HeadingsFacts.

(* ================================================================== *)
(** * Facts on binary64 rounding *)
(* ================================================================== *)

Module FloatFacts.
Import JSON.
Import Similarity.
Local Open Scope Z_scope.

(** ** Shifts *)

Lemma iter_pos_nat {A : Type} (f : A -> A) (p : positive) :
  forall x, iter_pos f p x = Nat.iter (Pos.to_nat p) f x.
Proof.
  induction p as [p IH|p IH|]; intros x; simpl iter_pos.
  - rewrite !IH, Pos2Nat.inj_xI.
    rewrite <- Nat.iter_add, <- Nat.iter_succ_r.
    f_equal. lia.
  - rewrite !IH, Pos2Nat.inj_xO.
    rewrite <- Nat.iter_add. f_equal. lia.
  - reflexivity.
Qed.

Lemma shr_1_spec (m : Z) (r s : bool) :
  0 <= m ->
  shr_1 (Build_shr_record m r s) =
  Build_shr_record (m / 2) (Z.odd m) (r || s).
Proof.
  intros Hm. rewrite <- Z.div2_div.
  destruct m as [|[p|p|]|p]; try reflexivity. lia.
Qed.

(** [k] shifts of a mantissa: the quotient by [2^k], and whether
    something was lost. *)
Lemma shifts_spec (k : nat) (m0 : Z) :
  0 <= m0 ->
  exists r s,
    Nat.iter k shr_1 (Build_shr_record m0 false false) =
      Build_shr_record (m0 / 2 ^ Z.of_nat k) r s /\
    (r || s = negb (m0 mod 2 ^ Z.of_nat k =? 0)).
Proof.
  intros Hm. induction k as [|k IH].
  - exists false, false. simpl. rewrite Z.div_1_r, Z.mod_1_r. split; reflexivity.
  - destruct IH as (r & s & Hit & Hrs).
    simpl Nat.iter. rewrite Hit.
    assert (Hpow : 0 < 2 ^ Z.of_nat k) by (apply Z.pow_pos_nonneg; lia).
    rewrite shr_1_spec by (apply Z.div_pos; lia).
    exists (Z.odd (m0 / 2 ^ Z.of_nat k)), (r || s).
    replace (Z.of_nat (S k)) with (Z.of_nat k + 1) by lia.
    rewrite Z.pow_add_r by lia. change (2 ^ 1) with 2.
    split.
    + rewrite Z.div_div by lia. reflexivity.
    + rewrite Hrs.
      rewrite Z.rem_mul_r by lia.
      pose proof (Z.mod_pos_bound m0 (2 ^ Z.of_nat k) Hpow) as Hb1.
      pose proof (Z.mod_pos_bound (m0 / 2 ^ Z.of_nat k) 2 ltac:(lia)) as Hb2.
      rewrite Zodd_mod.
      destruct (Z.eqb_spec (m0 mod 2 ^ Z.of_nat k) 0) as [E1|E1];
        destruct (Z.eqb_spec ((m0 / 2 ^ Z.of_nat k) mod 2) 1) as [E2|E2];
        simpl;
        match goal with
        | |- _ = negb (?a =? 0) => destruct (Z.eqb_spec a 0) as [E3|E3]
        end; simpl; try reflexivity; exfalso; nia.
Qed.


Lemma shr_exact_spec (m e n : Z) :
  0 <= m ->
  exists r s,
    shr (Build_shr_record m false false) e n =
      (Build_shr_record (m / 2 ^ Z.max 0 n) r s, e + Z.max 0 n) /\
    (r || s = negb (m mod 2 ^ Z.max 0 n =? 0)).
Proof.
  intros Hm. destruct n as [|p|p].
  - exists false, false. simpl. rewrite Z.div_1_r, Z.mod_1_r, Z.add_0_r.
    split; reflexivity.
  - destruct (shifts_spec (Pos.to_nat p) m Hm) as (r & s & Hit & Hrs).
    exists r, s. unfold shr. rewrite iter_pos_nat, Hit.
    rewrite positive_nat_Z in *.
    rewrite Z.max_r by lia. split; [reflexivity|assumption].
  - exists false, false. simpl. rewrite Z.div_1_r, Z.mod_1_r, Z.add_0_r.
    split; reflexivity.
Qed.

Lemma round_nearest_even_bound (m : Z) (r s : bool) :
  m <= round_nearest_even m (loc_of_shr_record (Build_shr_record m r s)) /\
  round_nearest_even m (loc_of_shr_record (Build_shr_record m r s))
    <= m + (if r || s then 1 else 0).
Proof.
  destruct r, s; simpl; try destruct (Z.even m); lia.
Qed.

Lemma digits2_bounds (p : positive) :
  2 ^ (Z.pos (digits2_pos p) - 1) <= Z.pos p < 2 ^ Z.pos (digits2_pos p).
Proof.
  induction p as [p IH|p IH|]; simpl digits2_pos;
    try rewrite Pos2Z.inj_succ.
  - replace (Z.succ (Z.pos (digits2_pos p)) - 1)
      with (Z.pos (digits2_pos p) - 1 + 1) by lia.
    unfold Z.succ. rewrite !Z.pow_add_r by lia. change (2 ^ 1) with 2. lia.
  - replace (Z.succ (Z.pos (digits2_pos p)) - 1)
      with (Z.pos (digits2_pos p) - 1 + 1) by lia.
    unfold Z.succ. rewrite !Z.pow_add_r by lia. change (2 ^ 1) with 2. lia.
  - simpl. lia.
Qed.

(** A mantissa [m] at exponent [e] that stands for at most one hundred has
    at most [7 - e] digits. *)
Lemma digits_le_7 (m e : Z) :
  0 <= m -> e <= 0 -> m <= 100 * 2 ^ (- e) -> Zdigits2 m + e <= 7.
Proof.
  intros Hm He Hb.
  destruct m as [|p|p]; [simpl; lia| |lia].
  simpl Zdigits2.
  pose proof (digits2_bounds p) as [Hlo _].
  assert (H : 2 ^ (Z.pos (digits2_pos p) - 1) < 2 ^ (7 - e)).
  { replace (7 - e) with (7 + - e) by lia.
    rewrite Z.pow_add_r by lia. change (2 ^ 7) with 128.
    assert (0 < 2 ^ (- e)) by (apply Z.pow_pos_nonneg; lia). lia. }
  apply Z.pow_lt_mono_r_iff in H; lia.
Qed.

(** One normalising shift keeps a value that is at most one hundred at
    most one hundred, and leaves room for the rounding when it drops
    bits. *)
Lemma shr_fexp_step (m e : Z) :
  0 <= m -> e <= -46 -> m <= 100 * 2 ^ (- e) ->
  exists q r s e',
    shr_fexp prec emax m e loc_Exact = (Build_shr_record q r s, e') /\
    e' <= -46 /\ 0 <= q /\
    q + (if r || s then 1 else 0) <= 100 * 2 ^ (- e').
Proof.
  intros Hm He Hb.
  unfold shr_fexp. cbn [shr_record_of_loc].
  set (n := fexp prec emax (Zdigits2 m + e) - e).
  destruct (shr_exact_spec m e n Hm) as (r & s & Hshr & Hrs).
  exists (m / 2 ^ Z.max 0 n), r, s, (e + Z.max 0 n).
  split; [exact Hshr|].
  assert (Hd : Zdigits2 m + e <= 7) by (apply digits_le_7; lia).
  assert (He' : e + Z.max 0 n <= -46).
  { unfold n, fexp, emin, prec, emax. lia. }
  assert (Hk : 0 <= Z.max 0 n) by lia.
  assert (Hpow : 0 < 2 ^ Z.max 0 n) by (apply Z.pow_pos_nonneg; lia).
  split; [assumption|].
  split; [apply Z.div_pos; lia|].
  assert (Hsplit : 2 ^ (- e) = 2 ^ Z.max 0 n * 2 ^ (- (e + Z.max 0 n))).
  { rewrite <- Z.pow_add_r by lia. f_equal. lia. }
  set (K := 100 * 2 ^ (- (e + Z.max 0 n))).
  assert (HmK : m <= 2 ^ Z.max 0 n * K) by (unfold K; lia).
  pose proof (Z.div_mod m (2 ^ Z.max 0 n) ltac:(lia)) as Hdm.
  pose proof (Z.mod_pos_bound m (2 ^ Z.max 0 n) Hpow) as Hmod.
  rewrite Hrs.
  destruct (Z.eqb_spec (m mod 2 ^ Z.max 0 n) 0) as [E|E]; simpl.
  - rewrite Z.add_0_r. apply Z.div_le_upper_bound; assumption.
  - nia.
Qed.

Lemma binary_round_aux_le_100 (mx ex : Z) :
  0 <= mx -> ex <= -46 -> mx <= 100 * 2 ^ (- ex) ->
  binary_round_aux prec emax false mx ex loc_Exact = S754_zero false \/
  exists m2 e2,
    binary_round_aux prec emax false mx ex loc_Exact = S754_finite false m2 e2 /\
    e2 <= -46 /\ Z.pos m2 <= 100 * 2 ^ (- e2).
Proof.
  intros Hm He Hb. unfold binary_round_aux.
  destruct (shr_fexp_step mx ex Hm He Hb) as (q & r & s & e1 & H1 & He1 & Hq & Hq1).
  rewrite H1. cbn [shr_m].
  pose proof (round_nearest_even_bound q r s) as [Hlo Hhi].
  set (m1 := round_nearest_even q (loc_of_shr_record (Build_shr_record q r s))) in *.
  destruct (shr_fexp_step m1 e1 ltac:(lia) He1 ltac:(lia))
    as (q2 & r2 & s2 & e2 & H2 & He2 & Hq2 & Hq2').
  rewrite H2. cbn [shr_m].
  destruct q2 as [|p|p]; [left; reflexivity| |lia].
  right. exists p, e2.
  destruct (Z.leb_spec e2 (emax - prec)) as [_|H]; [|unfold emax, prec in H; lia].
  split; [reflexivity|]. split; [assumption|].
  destruct (r2 || s2); lia.
Qed.


(** ** Small integers are numbers *)

Lemma small_integers (n : Z) :
  1 <= n <= 100 ->
  integer_value (binary_normalize prec emax n 0 false) = Some n.
Proof.
  intros Hn.
  assert (Hall : forallb
            (fun k => match integer_value
                              (binary_normalize prec emax (Z.of_nat k) 0 false)
                      with
                      | Some z => z =? Z.of_nat k
                      | None => false
                      end) (seq 1 100) = true) by (vm_compute; reflexivity).
  rewrite forallb_forall in Hall.
  specialize (Hall (Z.to_nat n)).
  rewrite Z2Nat.id in Hall by lia.
  assert (Hin : In (Z.to_nat n) (seq 1 100)) by (apply in_seq; lia).
  specialize (Hall Hin).
  destruct (integer_value (binary_normalize prec emax n 0 false)) as [z|];
    [|discriminate].
  apply Z.eqb_eq in Hall. congruence.
Qed.

(** ** [Math.round] of a number that is at most one hundred *)

Lemma Math_round_le_100 (m : positive) (e : Z) :
  e <= -46 -> Z.pos m <= 100 * 2 ^ (- e) ->
  exists z,
    integer_value (Math_round (S754_finite false m e)) = Some z /\
    0 <= z <= 100.
Proof.
  intros He Hb. unfold Math_round.
  destruct (Z.leb_spec 0 e) as [H|_]; [lia|].
  cbn [cond_Zopp].
  set (n := (2 * Z.pos m + 2 ^ (- e)) / 2 ^ (1 - e)).
  assert (Hp : 0 < 2 ^ (- e)) by (apply Z.pow_pos_nonneg; lia).
  assert (Hp1 : 2 ^ (1 - e) = 2 * 2 ^ (- e)).
  { replace (1 - e) with (1 + - e) by lia.
    rewrite Z.pow_add_r by lia. reflexivity. }
  assert (Hn : 0 <= n <= 100).
  { unfold n. rewrite Hp1. split.
    - apply Z.div_pos; lia.
    - assert ((2 * Z.pos m + 2 ^ (- e)) / (2 * 2 ^ (- e)) < 101);
        [apply Z.div_lt_upper_bound; lia|lia]. }
  destruct (Z.eqb_spec n 0) as [E|E].
  - exists 0. split; [reflexivity|lia].
  - exists n. split; [apply small_integers; lia|assumption].
Qed.

(** ** The clamp *)

Lemma ltb_finite (m p : positive) (e e0 : Z) :
  SFltb (S754_finite false m e) (S754_finite false p e0) = true ->
  e < e0 \/ (e = e0 /\ Z.pos m < Z.pos p).
Proof.
  unfold SFltb, SFcompare.
  destruct (Z.compare_spec e e0) as [E|E|E]; intros H;
    try discriminate; [right|left; assumption].
  split; [assumption|].
  fold (Pos.compare m p) in H.
  destruct (Pos.compare_spec m p) as [C|C|C]; try discriminate. lia.
Qed.

Lemma ltb_one (m : positive) (e : Z) :
  SFltb (S754_finite false m e) one = true ->
  e < -52 \/ (e = -52 /\ Z.pos m < 4503599627370496).
Proof. apply ltb_finite. Qed.

Lemma valid_digits (s : bool) (m : positive) (e : Z) :
  valid_binary prec emax (S754_finite s m e) = true ->
  Z.pos m < 2 ^ 53.
Proof.
  unfold valid_binary, bounded, canonical_mantissa, fexp, emin, prec, emax.
  intros H. apply andb_true_iff in H as [H _].
  apply Z.eqb_eq in H.
  pose proof (digits2_bounds m) as [_ Hhi].
  eapply Z.lt_le_trans; [exact Hhi|].
  apply Z.pow_le_mono_r; lia.
Qed.

Lemma similarity_cases (x : number) :
  is_number x = true ->
  similarity (Some x) = zero \/
  exists m e,
    similarity (Some x) = S754_finite false m e /\
    e <= -52 /\ Z.pos m <= 2 ^ (- e).
Proof.
  unfold is_number. intros H. apply andb_true_iff in H as [Hv Hn].
  assert (Hone : exists m e,
             one = S754_finite false m e /\ e <= -52 /\ Z.pos m <= 2 ^ (- e)).
  { exists 4503599627370496%positive, (-52). repeat split; [lia|].
    vm_compute. discriminate. }
  unfold similarity, nullish.
  destruct x as [s|s| |s m e]; try discriminate.
  - left. destruct s; reflexivity.
  - destruct s; [left; reflexivity|right; exact Hone].
  - destruct s; [left; reflexivity|].
    unfold Math_min. cbn [is_nan is_zero orb andb].
    destruct (SFltb (S754_finite false m e) one) eqn:Hlt.
    + right. exists m, e. split; [reflexivity|].
      pose proof (valid_digits _ _ _ Hv) as Hd.
      destruct (ltb_one m e Hlt) as [He|[He Hm]].
      * split; [lia|].
        apply Z.lt_le_incl. eapply Z.lt_le_trans; [exact Hd|].
        apply Z.pow_le_mono_r; lia.
      * subst e. split; [lia|]. change (2 ^ (- -52)) with 4503599627370496. lia.
    + right. exact Hone.
Qed.

Lemma mul_hundred (m : positive) (e : Z) :
  e <= -52 -> Z.pos m <= 2 ^ (- e) ->
  mul (S754_finite false m e) hundred = S754_zero false \/
  exists m2 e2,
    mul (S754_finite false m e) hundred = S754_finite false m2 e2 /\
    e2 <= -46 /\ Z.pos m2 <= 100 * 2 ^ (- e2).
Proof.
  intros He Hm.
  unfold mul, hundred, SFmul. cbn [xorb].
  apply binary_round_aux_le_100; [lia|lia|].
  rewrite Pos2Z.inj_mul.
  replace (- (e + -46)) with (46 + - e) by lia.
  rewrite Z.pow_add_r by lia.
  change (2 ^ 46) with 70368744177664.
  assert (0 < 2 ^ (- e)) by (apply Z.pow_pos_nonneg; lia).
  nia.
Qed.

Lemma percent_in_range (score : option number) :
  (forall x, score = Some x -> is_number x = true) ->
  exists z, integer_value (percent score) = Some z /\ 0 <= z <= 100.
Proof.
  intros Hs.
  assert (Hsim : similarity score = zero \/
                 exists m e,
                   similarity score = S754_finite false m e /\
                   e <= -52 /\ Z.pos m <= 2 ^ (- e)).
  { destruct score as [x|]; [apply similarity_cases, Hs; reflexivity|].
    left. reflexivity. }
  unfold percent.
  destruct Hsim as [->|(m & e & -> & He & Hm)].
  - exists 0. split; [reflexivity|lia].
  - destruct (mul_hundred m e He Hm) as [->|(m2 & e2 & -> & He2 & Hm2)].
    + exists 0. split; [reflexivity|lia].
    + apply Math_round_le_100; assumption.
Qed.

(** ** The clamp of the source and the clamp of the specification *)

Lemma leb_finite (m p : positive) (e e0 : Z) :
  SFleb (S754_finite false p e0) (S754_finite false m e) =
  negb (SFltb (S754_finite false m e) (S754_finite false p e0)).
Proof.
  unfold SFleb, SFltb, SFcompare.
  rewrite (Z.compare_antisym e e0).
  destruct (e ?= e0); cbn [CompOpp negb]; try reflexivity.
  fold (Pos.compare p m). fold (Pos.compare m p).
  rewrite (Pos.compare_antisym m p).
  destruct (Pos.compare m p); reflexivity.
Qed.

Lemma leb_one_finite (m : positive) (e : Z) :
  SFleb one (S754_finite false m e) =
  negb (SFltb (S754_finite false m e) one).
Proof. exact (leb_finite m 4503599627370496 e (-52)). Qed.

(** [Math.max(0, Math.min(1, x))] is the clamp of [x]. *)
Lemma similarity_clamp (x : number) :
  is_number x = true -> similarity (Some x) = clamp x.
Proof.
  unfold is_number. intros H. apply andb_true_iff in H as [_ Hn].
  destruct x as [s|s| |s m e]; try discriminate;
    try (destruct s; reflexivity).
  destruct s; [reflexivity|].
  unfold similarity, clamp, nullish, Math_min.
  cbn [is_nan is_zero orb andb].
  change (SFleb (S754_finite false m e) zero) with false. cbv iota.
  rewrite leb_one_finite.
  destruct (SFltb (S754_finite false m e) one); reflexivity.
Qed.

Lemma clamp_high (x : number) :
  SFleb one x = true -> clamp x = one.
Proof.
  intros H. unfold clamp. rewrite H.
  destruct x as [s|s| |s m e]; try discriminate H;
    destruct s; try discriminate H; reflexivity.
Qed.

Lemma clamp_low (x : number) :
  SFleb x zero = true -> clamp x = zero.
Proof. intros H. unfold clamp. rewrite H. reflexivity. Qed.

Lemma clamp_between (x : number) :
  SFleb x zero = false -> SFleb one x = false -> clamp x = x.
Proof. intros H0 H1. unfold clamp. rewrite H0, H1. reflexivity. Qed.

End FloatFacts.

(* ================================================================== *)
(** * Theorems on [queryStream] and [handleResponse] *)
(* ================================================================== *)

Module ApiTheorems.
Import JS.
Import JSON.
Import Api.
Import Lines.
Import LinesFacts.
Import Stream.
Import StreamFacts.

(** ** Order and chunking *)

(** When every payload parses and no frame but the last ends the stream,
    the scan yields every frame. *)
Lemma scan_every_frame (ps : list jsstring) :
  forall evs,
    classify_each ps = map Some evs ->
    Forall (fun v => is_terminal v = Some false) (removelast evs) ->
    fst (scan ps) = evs.
Proof.
  unfold classify_each.
  induction ps as [|p ps IH]; intros evs Hm Hnt.
  - destruct evs; [reflexivity|discriminate].
  - destruct evs as [|v evs]; [discriminate|].
    simpl in Hm. inversion Hm as [[Hp Hrest]].
    simpl. rewrite Hp.
    destruct evs as [|v' evs].
    + destruct ps; [|discriminate].
      destruct (is_terminal v) as [[|]|]; reflexivity.
    + inversion Hnt as [|? ? Hv' Hnt']; subst.
      rewrite Hv'.
      specialize (IH (v' :: evs) Hrest Hnt').
      destruct (scan ps) as [e o]. simpl in *. congruence.
Qed.

(** C1, as stated, fails: a frame that follows a [done] frame on the wire
    is carried by the stream and is not yielded.  The stream below carries
    two frames, each of which parses; one event is yielded. *)
Lemma frame_after_done_is_not_yielded :
  let cs := [wire "data: {'type':'done'}|data: {'type':'answer','data':'late'}|"] in
  exists evs o st',
    collect 5 (queryStream (streaming cs)) = Some (evs, o, st') /\
    evs = [JObject [(js "type", JString (js "done"))]] /\
    classify_each (frames (text_of (concat cs))) =
      [Some (JObject [(js "type", JString (js "done"))]);
       Some (JObject [(js "type", JString (js "answer"));
                      (js "data", JString (js "late"))])] /\
    map Some evs <> classify_each (frames (text_of (concat cs))).
Proof.
  eexists _, _, _. split; [vm_compute; reflexivity|].
  split; [reflexivity|]. split; [vm_compute; reflexivity|].
  vm_compute. discriminate.
Qed.

(** C1 (amended): chunking-invariance with order preservation.  For every
    byte stream and every way [cs] of cutting it into transport chunks, a
    consumer that pulls to the end collects exactly the classification of
    the frames of the stream, in their order, up to the frame that ends
    the stream.  Events and ending are a function of the stream alone, not
    of the cuts.  Behind frames that parse and do not end the stream, the
    frame that ends it is the first [done] or [error] frame, yielded last
    before the stream returns; or the first frame whose payload is the
    text [null], yielded last before the stream throws a [TypeError]; or
    the first frame whose payload is no JSON text, not yielded, where the
    stream throws a [SyntaxError].  When no frame ends the stream, every
    frame is yielded and the stream returns; and when no frame but
    possibly the last ends the stream, every frame is yielded. *)
Theorem chunking_invariance (stream : bytes) (cs : list bytes)
    (response : Response) :
  ok response = true ->
  body response = Some (map Chunk cs) ->
  concat cs = stream ->
  (exists st',
     collect (S (length (fst (classify (frames (text_of stream))))))
       (queryStream (Normal response)) =
     Some (fst (classify (frames (text_of stream))),
           snd (classify (frames (text_of stream))), st')) /\
  (forall evs,
     classify_each (frames (text_of stream)) = map Some evs ->
     Forall (fun v => is_terminal v = Some false) (removelast evs) ->
     fst (classify (frames (text_of stream))) = evs) /\
  (forall before p after evs,
     frames (text_of stream) = before ++ p :: after ->
     classify_each before = map Some evs ->
     Forall (fun v => is_terminal v = Some false) evs ->
     (forall v,
        JSON.parse p = Some v -> is_terminal v = Some true ->
        classify (frames (text_of stream)) = (evs ++ [v], Returned)) /\
     (JSON.parse p = Some JNull ->
      classify (frames (text_of stream)) =
      (evs ++ [JNull], Threw TypeError)) /\
     (JSON.parse p = None ->
      classify (frames (text_of stream)) = (evs, Threw SyntaxError))) /\
  (forall evs,
     classify_each (frames (text_of stream)) = map Some evs ->
     Forall (fun v => is_terminal v = Some false) evs ->
     classify (frames (text_of stream)) = (evs, Returned)).
Proof.
  intros Hok Hbody <-. split; [|split; [|split]].
  - destruct (collect_stream response cs _ Hok Hbody (le_n _))
      as (st' & Hc & _).
    exists st'. exact Hc.
  - intros evs Hm Hnt. unfold classify.
    pose proof (scan_every_frame _ evs Hm Hnt) as H.
    destruct (scan _) as [e o]. exact H.
  - intros before p after evs Hf Hm Hnt.
    rewrite Hf, (classify_at_ending before after p evs Hm Hnt).
    split; [|split].
    + intros v Hp Ht. rewrite Hp, Ht. reflexivity.
    + intros Hp. rewrite Hp. reflexivity.
    + intros Hp. rewrite Hp. reflexivity.
  - intros evs Hm Hnt. unfold classify.
    rewrite (scan_nonterminal _ _ Hm Hnt). reflexivity.
Qed.

(** The stream of the witness is cut inside its second frame, whose
    payload is the text [null]: the frame is yielded, the stream throws,
    and the [done] frame behind it is not reached. *)
Lemma chunking_invariance_witness :
  exists st',
    collect 3
      (queryStream
         (streaming [wire "data: {'type':'answer','data':'a'}|data: nu";
                     wire "ll|data: {'type':'done'}|"])) =
    Some ([JObject [(js "type", JString (js "answer"));
                    (js "data", JString (js "a"))];
           JNull], Threw TypeError, st').
Proof.
  exact (proj1 (chunking_invariance
                  (wire "data: {'type':'answer','data':'a'}|data: null|data: {'type':'done'}|")
                  [wire "data: {'type':'answer','data':'a'}|data: nu";
                   wire "ll|data: {'type':'done'}|"]
                  {| status := 200; statusText := js "OK";
                     body := Some (map Chunk
                                     [wire "data: {'type':'answer','data':'a'}|data: nu";
                                      wire "ll|data: {'type':'done'}|"]) |}
                  eq_refl eq_refl eq_refl)).
Defined.

(** Two ways of cutting the same stream give the same events and the same
    ending. *)
Lemma same_stream_same_events (r1 r2 : Response) (cs1 cs2 : list bytes) :
  ok r1 = true -> body r1 = Some (map Chunk cs1) ->
  ok r2 = true -> body r2 = Some (map Chunk cs2) ->
  concat cs1 = concat cs2 ->
  exists evs o st1 st2,
    collect (S (length evs)) (queryStream (Normal r1)) = Some (evs, o, st1) /\
    collect (S (length evs)) (queryStream (Normal r2)) = Some (evs, o, st2).
Proof.
  intros Hok1 Hb1 Hok2 Hb2 Hcat.
  destruct (collect_stream r1 cs1 _ Hok1 Hb1 (le_n _)) as (st1 & H1 & _).
  destruct (collect_stream r2 cs2 _ Hok2 Hb2 (le_n _)) as (st2 & H2 & _).
  rewrite <- Hcat in H2.
  exists (fst (classify (frames (text_of (concat cs1))))),
         (snd (classify (frames (text_of (concat cs1))))), st1, st2.
  split; assumption.
Qed.

(** ** Terminal events *)

(** C2: terminal short-circuit.  Once a pull has yielded a [done] or
    [error] event, the next pull ends the generator without any read of
    the transport, whatever the buffer and the transport still hold, and
    every later pull finds it ended; so a terminal event is the last event
    of a stream, the stream then returns normally, and a stream yields at
    most one terminal event. *)
Theorem terminal_short_circuit :
  (forall st st1 v,
     next st = (st1, Yielded v) ->
     is_terminal v = Some true ->
     exists st2,
       next st1 = (st2, Done) /\
       reads st2 = reads st1 /\
       pending st2 = pending st1 /\
       gen st2 = Completed /\
       next st2 = (st2, Done)) /\
  (forall n st evs o st',
     collect n st = Some (evs, o, st') ->
     forall pre v post,
       evs = pre ++ v :: post ->
       is_terminal v = Some true ->
       post = [] /\ o = Returned) /\
  (forall n st evs o st',
     collect n st = Some (evs, o, st') ->
     length (filter terminal evs) <= 1).
Proof.
  split; [|split].
  - intros st st1 v H Ht.
    exists (finally st1). rewrite (next_after_terminal st st1 v H Ht).
    repeat split.
  - induction n as [|n IH]; intros st evs o st' H pre v post He Ht;
      [discriminate|].
    rewrite collect_S in H.
    destruct (next st) as [st1 [v0| |e]] eqn:Hn; simpl in H.
    + destruct (collect n st1) as [[[evs1 o1] s1]|] eqn:Hc; [|discriminate].
      injection H as Hevs Ho Hs. subst o1 s1.
      rewrite He in Hevs.
      destruct pre as [|p pre]; simpl in Hevs; injection Hevs as Hv Hpost.
      * subst v0 evs1.
        destruct n as [|n]; [discriminate|].
        rewrite collect_S, (next_after_terminal st st1 v Hn Ht) in Hc.
        simpl in Hc. injection Hc as Hp Ho _. split; congruence.
      * apply (IH st1 _ _ _ Hc pre v post Hpost Ht).
    + injection H as Hevs _ _. rewrite He in Hevs.
      destruct pre; discriminate.
    + injection H as Hevs _ _. rewrite He in Hevs.
      destruct pre; discriminate.
  - induction n as [|n IH]; intros st evs o st' H; [discriminate|].
    rewrite collect_S in H.
    destruct (next st) as [st1 [v0| |e]] eqn:Hn; simpl in H;
      try (inversion H; subst; simpl; lia).
    destruct (collect n st1) as [[[evs1 o1] s1]|] eqn:Hc; [|discriminate].
    inversion H; subst. clear H.
    simpl. unfold terminal at 1.
    destruct (is_terminal v0) as [[|]|] eqn:Ht;
      try (apply (IH st1 _ _ _ Hc)).
    destruct n as [|n]; [discriminate|].
    rewrite collect_S, (next_after_terminal st st1 v0 Hn Ht) in Hc.
    simpl in Hc. inversion Hc. simpl. lia.
Qed.

(** The stream of the witness: a [done] frame, with an [answer] frame after
    it in the same chunk and one more in a later chunk. *)
Lemma terminal_short_circuit_witness :
  let st := queryStream (streaming
              [wire "data: {'type':'done'}|data: {'type':'answer'}|";
               wire "data: {'type':'answer'}|"]) in
  exists st2,
    next (fst (next st)) = (st2, Done) /\
    reads st2 = reads (fst (next st)) /\
    pending st2 = pending (fst (next st)) /\
    gen st2 = Completed /\
    next st2 = (st2, Done).
Proof.
  exact (proj1 terminal_short_circuit
           (queryStream (streaming
              [wire "data: {'type':'done'}|data: {'type':'answer'}|";
               wire "data: {'type':'answer'}|"]))
           _ (JObject [(js "type", JString (js "done"))])
           eq_refl eq_refl).
Defined.


(** ** Malformed frames *)

(** C3: malformed-frame fatality.  When the stream holds a frame whose
    payload [JSON.parse] rejects, and no frame before it has ended the
    stream, the consumer collects the events of the frames before it and
    then the [SyntaxError] of the parse: no event stands for the failure,
    the frames after it yield nothing, the reader is released, and every
    later pull finds the generator ended. *)
Theorem malformed_frame_is_fatal (response : Response) (cs : list bytes)
    (before after : list jsstring) (bad : jsstring) (evs : list value) :
  ok response = true ->
  body response = Some (map Chunk cs) ->
  complete_lines (text_of (concat cs)) = before ++ (prefix ++ bad) :: after ->
  JSON.parse bad = None ->
  scan_lines before = (evs, None) ->
  exists st',
    collect (S (length evs)) (queryStream (Normal response)) =
      Some (evs, Threw SyntaxError, st') /\
    gen st' = Completed /\
    releases st' = 1 /\
    next st' = (st', Done).
Proof.
  intros Hok Hbody Hlines Hbad Hbefore.
  assert (Hc : classify (frames (text_of (concat cs))) =
               (evs, Threw SyntaxError)).
  { rewrite (classify_cut _ before _ evs Hlines Hbefore).
    rewrite scan_lines_frame by apply is_frame_prefix.
    rewrite payload_prefix, Hbad. simpl. rewrite app_nil_r. reflexivity. }
  destruct (collect_stream response cs (length evs) Hok Hbody)
    as (st' & Hcol & Hg & Hr & _).
  { rewrite Hc. apply le_n. }
  rewrite Hc in Hcol. exists st'.
  repeat split; try assumption. apply next_completed. assumption.
Qed.

Lemma malformed_frame_is_fatal_witness :
  exists st',
    collect 2
      (queryStream (streaming
         [wire "data: {'type':'answer','data':'a'}|data: {'type':|";
          wire "data: {'type':'done'}|"])) =
      Some ([JObject [(js "type", JString (js "answer"));
                      (js "data", JString (js "a"))]],
            Threw SyntaxError, st') /\
    gen st' = Completed /\
    releases st' = 1 /\
    next st' = (st', Done).
Proof.
  exact (malformed_frame_is_fatal
           {| status := 200; statusText := js "OK";
              body := Some (map Chunk
                [wire "data: {'type':'answer','data':'a'}|data: {'type':|";
                 wire "data: {'type':'done'}|"]) |}
           [wire "data: {'type':'answer','data':'a'}|data: {'type':|";
            wire "data: {'type':'done'}|"]
           [jsq "data: {'type':'answer','data':'a'}"]
           [jsq "data: {'type':'done'}"]
           (jsq "{'type':")
           [JObject [(js "type", JString (js "answer"));
                     (js "data", JString (js "a"))]]
           eq_refl eq_refl eq_refl eq_refl eq_refl).
Defined.

(** ** Unknown kinds *)

(** C7: forward-compatible unknown kinds.  A frame whose payload parses
    to a value with a string [type] other than ["sources"], ["answer"],
    ["done"] and ["error"], met before any frame has ended the stream, is
    yielded as it was parsed, its [type] being that string, after the
    events of the frames before it; it does not end the stream, and the
    frames after it are classified as if it had been any other event. *)
Theorem unknown_kind_is_forwarded (response : Response) (cs : list bytes)
    (before after : list jsstring) (text : jsstring) (data : value)
    (kind : jsstring) (evs : list value) :
  ok response = true ->
  body response = Some (map Chunk cs) ->
  complete_lines (text_of (concat cs)) = before ++ (prefix ++ text) :: after ->
  JSON.parse text = Some data ->
  get data (js "type") = Some (Some (JString kind)) ->
  ~ In kind [js "sources"; js "answer"; js "done"; js "error"] ->
  scan_lines before = (evs, None) ->
  is_terminal data = Some false /\
  exists st',
    collect (S (length (evs ++ data ::
                          fst (then_ (scan_lines after) ([], Returned)))))
      (queryStream (Normal response)) =
    Some (evs ++ data :: fst (then_ (scan_lines after) ([], Returned)),
          snd (then_ (scan_lines after) ([], Returned)), st').
Proof.
  intros Hok Hbody Hlines Hparse Htype Hkind Hbefore.
  assert (Ht : is_terminal data = Some false).
  { unfold is_terminal. rewrite Htype. simpl is_string.
    rewrite !eqb_neq; [reflexivity| |];
      intros ->; apply Hkind; simpl; auto. }
  split; [assumption|].
  assert (Hc : classify (frames (text_of (concat cs))) =
               (evs ++ data :: fst (then_ (scan_lines after) ([], Returned)),
                snd (then_ (scan_lines after) ([], Returned)))).
  { rewrite (classify_cut _ before _ evs Hlines Hbefore).
    rewrite scan_lines_frame by apply is_frame_prefix.
    rewrite payload_prefix, Hparse, Ht.
    destruct (scan_lines after) as [e [o|]]; reflexivity. }
  destruct (collect_stream response cs _ Hok Hbody (le_n _))
    as (st' & Hcol & _).
  rewrite Hc in Hcol. exists st'. exact Hcol.
Qed.

Lemma unknown_kind_is_forwarded_witness :
  is_terminal (JObject [(js "type", JString (js "progress"));
                        (js "data", JNumber (S754_finite false 4503599627370496 (-52)))])
    = Some false /\
  exists st',
    collect 4
      (queryStream (streaming
         [wire "data: {'type':'answer','data':'a'}|data: {'type':'progress','data':1}|";
          wire "data: {'type':'done'}|"])) =
      Some ([JObject [(js "type", JString (js "answer"));
                      (js "data", JString (js "a"))];
             JObject [(js "type", JString (js "progress"));
                      (js "data", JNumber (S754_finite false 4503599627370496 (-52)))];
             JObject [(js "type", JString (js "done"))]],
            Returned, st').
Proof.
  refine (unknown_kind_is_forwarded
           {| status := 200; statusText := js "OK";
              body := Some (map Chunk
                [wire "data: {'type':'answer','data':'a'}|data: {'type':'progress','data':1}|";
                 wire "data: {'type':'done'}|"]) |}
           [wire "data: {'type':'answer','data':'a'}|data: {'type':'progress','data':1}|";
            wire "data: {'type':'done'}|"]
           [jsq "data: {'type':'answer','data':'a'}"]
           [jsq "data: {'type':'done'}"]
           (jsq "{'type':'progress','data':1}")
           (JObject [(js "type", JString (js "progress"));
                     (js "data", JNumber (S754_finite false 4503599627370496 (-52)))])
           (js "progress")
           [JObject [(js "type", JString (js "answer"));
                     (js "data", JString (js "a"))]]
           eq_refl eq_refl eq_refl eq_refl eq_refl _ eq_refl).
  simpl. intros [H|[H|[H|[H|[]]]]]; discriminate H.
Defined.

(** ** Partial lines *)

(** C8: partial-line buffering and trailing-fragment drop.  One turn of the
    loop cuts the buffer followed by the decoded chunk at its line feeds:
    the [for] loop gets the lines a line feed ends and nothing else, and
    what follows the last line feed, which holds none, is the buffer the
    next turn puts before its chunk.  And when the transport ends, the
    text after the last line feed of the stream is dropped: the consumer
    collects what the complete lines give, whatever the fragment is. *)
Theorem partial_line_buffering :
  (forall td buffer value rest st,
     exists lines fragment,
       buffer ++ snd (TextDecoder.decode_stream td value) =
         flat_map (fun l => l ++ [LF]) lines ++ fragment /\
       Forall (fun l => has_LF l = false) lines /\
       has_LF fragment = false /\
       while_true td buffer (Chunk value :: rest) st =
         run_for lines fragment (fst (TextDecoder.decode_stream td value))
           (did_read rest st)
           (while_true (fst (TextDecoder.decode_stream td value))
              fragment rest)) /\
  (forall response cs lines fragment,
     ok response = true ->
     body response = Some (map Chunk cs) ->
     text_of (concat cs) = flat_map (fun l => l ++ [LF]) lines ++ fragment ->
     Forall (fun l => has_LF l = false) lines ->
     has_LF fragment = false ->
     exists st',
       collect (S (length (fst (then_ (scan_lines lines) ([], Returned)))))
         (queryStream (Normal response)) =
       Some (fst (then_ (scan_lines lines) ([], Returned)),
             snd (then_ (scan_lines lines) ([], Returned)), st')).
Proof.
  split.
  - intros td buffer value rest st.
    exists (complete_lines (buffer ++ snd (TextDecoder.decode_stream td value))),
           (partial_line (buffer ++ snd (TextDecoder.decode_stream td value))).
    split; [apply lines_join|].
    split; [apply complete_lines_no_LF|].
    split; [apply partial_line_no_LF|].
    simpl while_true.
    destruct (TextDecoder.decode_stream td value) as [td' text].
    reflexivity.
  - intros response cs lines fragment Hok Hbody Htext Hlines Hfrag.
    assert (Hc : classify (frames (text_of (concat cs))) =
                 then_ (scan_lines lines) ([], Returned)).
    { rewrite classify_frames, Htext.
      rewrite complete_lines_terminated by assumption.
      destruct (no_LF_lines fragment Hfrag) as [-> _].
      rewrite app_nil_r. reflexivity. }
    destruct (collect_stream response cs _ Hok Hbody (le_n _))
      as (st' & Hcol & _).
    rewrite Hc in Hcol. exists st'. exact Hcol.
Qed.

(** The stream of the witness ends with a well-formed [done] frame that no
    line feed follows: it is never parsed. *)
Lemma partial_line_buffering_witness :
  exists st',
    collect 2
      (queryStream (streaming
         [wire "data: {'type':'answer','data':'a'}|data: {'type':'done'}"])) =
      Some ([JObject [(js "type", JString (js "answer"));
                      (js "data", JString (js "a"))]],
            Returned, st').
Proof.
  exact (proj2 partial_line_buffering
           {| status := 200; statusText := js "OK";
              body := Some (map Chunk
                [wire "data: {'type':'answer','data':'a'}|data: {'type':'done'}"]) |}
           [wire "data: {'type':'answer','data':'a'}|data: {'type':'done'}"]
           [jsq "data: {'type':'answer','data':'a'}"]
           (jsq "data: {'type':'done'}")
           eq_refl eq_refl eq_refl
           (@Forall_cons jsstring (fun l => has_LF l = false)
              (jsq "data: {'type':'answer','data':'a'}") [] eq_refl
              (Forall_nil _))
           eq_refl).
Defined.


(** ** The reader *)

(** C4: resource release on every exit path.  Whatever the request
    brings and whatever the caller does with the generator, pulls and
    abandonments in any order: the reader is acquired at most once and
    never released more often than acquired; it is held, unreleased, while
    the generator is suspended at its [yield]; once the generator is
    completed the reader has been released as often as it was acquired;
    every pull that does not yield (a terminal event seen, the transport
    exhausted, a parse or read error) and every abandonment leaves the
    generator completed; abandoning twice is abandoning once; and the
    first pull on a successful response with a body acquires the reader,
    so that every exit after it has released the reader exactly once.
    Abandonment is the call of [return()], which [for await] makes when
    its body breaks or throws. *)
Theorem reader_released_exactly_once (fetch : completion Response)
    (cs : list call) :
  let st := calls cs (queryStream fetch) in
  acquired st <= 1 /\
  releases st <= acquired st /\
  (gen st = Completed -> releases st = acquired st) /\
  (forall v l b d,
     gen st = SuspendedYield v l b d -> acquired st = 1 /\ releases st = 0) /\
  (forall st' r,
     next st = (st', r) -> (forall v, r <> Yielded v) ->
     gen st' = Completed /\ releases st' = acquired st' /\
     acquired st <= acquired st' <= 1) /\
  (gen (return_ st) = Completed /\
   releases (return_ st) = acquired (return_ st) /\
   acquired (return_ st) = acquired st) /\
  return_ (return_ st) = return_ st /\
  (forall response chunks cs',
     fetch = Normal response ->
     ok response = true ->
     body response = Some chunks ->
     cs = Next :: cs' ->
     acquired st = 1).
Proof.
  intros st.
  assert (Hinv : reader_inv st).
  { apply calls_inv. unfold reader_inv. simpl. auto. }
  assert (Hle : acquired st <= 1 /\ releases st <= acquired st).
  { unfold reader_inv in Hinv. destruct (gen st); lia. }
  split; [apply Hle|]. split; [apply Hle|].
  split; [|split; [|split; [|split; [|split]]]].
  - intros Hg. unfold reader_inv in Hinv. rewrite Hg in Hinv. apply Hinv.
  - intros v l b d Hg. unfold reader_inv in Hinv. rewrite Hg in Hinv.
    exact Hinv.
  - intros st' r Hn Hr.
    destruct (next_inv st Hinv) as [Hi Hc].
    pose proof (next_acquired st Hinv) as Hacq.
    rewrite Hn in Hi, Hc, Hacq. simpl in Hi, Hc, Hacq.
    assert (Hg : gen st' = Completed).
    { destruct r; [exfalso; apply (Hr v); reflexivity| |]; assumption. }
    unfold reader_inv in Hi. rewrite Hg in Hi.
    split; [assumption|]. split; [apply Hi|]. lia.
  - destruct (return_inv st Hinv) as [Hi Hg].
    unfold reader_inv in Hi. rewrite Hg in Hi.
    split; [assumption|]. split; [apply Hi|].
    apply return_acquired.
  - unfold return_ at 1.
    destruct (return_inv st Hinv) as [_ Hg]. rewrite Hg. reflexivity.
  - intros response chunks cs' Hf Hok Hbody Hcs.
    subst st. subst cs fetch. unfold calls. simpl fold_left.
    fold (calls cs' (fst (next (queryStream (Normal response))))).
    pose proof (first_pull_acquires response chunks Hok Hbody) as H1.
    assert (Hi1 : reader_inv (fst (next (queryStream (Normal response))))).
    { apply next_inv. unfold reader_inv. simpl. auto. }
    pose proof (calls_acquired cs' _ Hi1) as Hge.
    pose proof (calls_inv cs' _ Hi1) as Hi2.
    unfold reader_inv in Hi2.
    destruct (gen (calls cs' (fst (next (queryStream (Normal response))))));
      lia.
Qed.

(** The caller of the witness stops after the [sources] event, before the
    [done] frame is reached. *)
Lemma reader_released_exactly_once_witness :
  releases (calls [Next; Return]
              (queryStream (streaming
                 [wire "data: {'type':'sources','data':[]}|data: {'type':'done'}|"])))
  = 1.
Proof.
  exact (proj1 (proj2 (proj2
           (reader_released_exactly_once
              (streaming
                 [wire "data: {'type':'sources','data':[]}|data: {'type':'done'}|"])
              [Next; Return]))) eq_refl).
Defined.

(** ** Error responses *)

(** What [handleResponse] does with an error response whose body is a JSON
    object: the error is made of the status, the [error] member when it is
    truthy, and the [detail] member. *)
Lemma handleResponse_object (response : Response)
    (ms : list (jsstring * value)) :
  ok response = false ->
  json response = Normal (JObject ms) ->
  handleResponse response =
  Throw (new_APIError
           (or_else (lookup (js "error") ms) (JString (js "API Error")))
           (status response) (lookup (js "detail") ms)).
Proof.
  intros Hok Hj. unfold handleResponse. rewrite Hok, Hj. reflexivity.
Qed.

(** And with a body that cannot be read as JSON: the fallback message. *)
Lemma handleResponse_unparsable (response : Response) (e : exn) :
  ok response = false ->
  json response = Throw e ->
  handleResponse response =
  Throw (APIError (JString (js "Unknown error")) (status response)
           (Some (JString (statusText response)))).
Proof.
  intros Hok Hj. unfold handleResponse. rewrite Hok, Hj. reflexivity.
Qed.

(** The same two cases in [queryStream]: the status and the message, and
    no detail. *)
Lemma queryStream_object (response : Response)
    (ms : list (jsstring * value)) :
  ok response = false ->
  json response = Normal (JObject ms) ->
  next (queryStream (Normal response)) =
  (close (queryStream (Normal response)),
   Raised (new_APIError
             (or_else (lookup (js "error") ms) (JString (js "API Error")))
             (status response) None)).
Proof.
  intros Hok Hj. unfold next. cbn [gen queryStream]. rewrite Hok, Hj.
  reflexivity.
Qed.

Lemma queryStream_unparsable (response : Response) (e : exn) :
  ok response = false ->
  json response = Throw e ->
  next (queryStream (Normal response)) =
  (close (queryStream (Normal response)),
   Raised (APIError (JString (js "Unknown error")) (status response) None)).
Proof.
  intros Hok Hj. unfold next. cbn [gen queryStream]. rewrite Hok, Hj.
  reflexivity.
Qed.

(** C5, at the failing input: an error response with an [error] and a
    [detail] member.  [handleResponse], behind the four plain endpoints,
    surfaces both; the copy of that code in [queryStream] surfaces the
    message and the status and leaves the detail [undefined]. *)
Theorem queryStream_drops_detail :
  let response :=
    failing 500 "Internal Server Error"
      (wire "{'error':'Index offline','detail':'chromadb unreachable'}") in
  query (Normal response) =
    Throw (APIError (JString (js "Index offline")) 500
             (Some (JString (js "chromadb unreachable")))) /\
  collect 1 (queryStream (Normal response)) =
    Some ([], Threw (APIError (JString (js "Index offline")) 500 None),
          close (queryStream (Normal response))).
Proof.
  split; vm_compute; reflexivity.
Qed.

(** A request that fails, by its status or by its missing body, yields no
    event: the first pull throws and the generator is completed, no reader
    acquired.  The error is the one [new APIError] makes of the status
    unless the error body is the JSON text [null]: an [APIError], or the
    [TypeError] of a message that cannot be converted to a string. *)
Lemma failed_request_yields_nothing (response : Response) :
  ok response = false \/ body response = None ->
  exists e,
    (forall n,
       collect (S n) (queryStream (Normal response)) =
       Some ([], Threw e, close (queryStream (Normal response)))) /\
    (ok response = true -> e = Error (js "No response body")) /\
    (ok response = false ->
     json response <> Normal JNull ->
     exists m, e = new_APIError m (status response) None).
Proof.
  intros H.
  destruct (ok response) eqn:Hok.
  - destruct H as [H|H]; [discriminate|].
    exists (Error (js "No response body")).
    split; [|split; [reflexivity|discriminate]].
    intros n. rewrite collect_S. unfold next. cbn [gen queryStream].
    rewrite Hok, H. reflexivity.
  - assert (Hn : exists e,
               next (queryStream (Normal response)) =
                 (close (queryStream (Normal response)), Raised e) /\
               (json response <> Normal JNull ->
                exists m, e = new_APIError m (status response) None)).
    { unfold next. cbn [gen queryStream]. rewrite Hok. cbn [negb].
      destruct (json response) as [[ | | | | | ]|]; simpl;
        eexists; (split; [reflexivity|]); intros Hj;
        try (eexists; reflexivity).
      exfalso. apply Hj. reflexivity. }
    destruct Hn as (e & Hn & He). exists e.
    split; [|split; [discriminate|intros _; exact He]].
    intros n. rewrite collect_S, Hn. reflexivity.
Qed.

(** C6, at the failing input: an error response whose body is the JSON
    text [null].  No event is yielded, but the error that reaches the
    caller is the [TypeError] of reading [error] on [null], not an
    [APIError] with the status. *)
Theorem null_error_body_raises_TypeError :
  let response := failing 500 "Internal Server Error" (wire "null") in
  ok response = false /\
  collect 1 (queryStream (Normal response)) =
    Some ([], Threw TypeError, close (queryStream (Normal response))).
Proof.
  split; vm_compute; reflexivity.
Qed.

End ApiTheorems.

(* ================================================================== *)
(** * Theorems on [QueryInterface.tsx] *)
(* ================================================================== *)

Module QueryInterfaceTheorems.
Import JS.
Import QueryInterface.
Import Headings.
Import HeadingsFacts.
Import JSON.
Import Api.
Import Stream.
Import StreamFacts.
Import Similarity.
Import FloatFacts.

Lemma successive_nil_no_heading (s : jsstring) :
  successive None s 0 [] -> ~ has_heading s.
Proof.
  intros H (skip & s' & ws & title & rest & Hs & Hh).
  inversion H as [? ? ? Hno|]; subst.
  apply (Hno skip s' ws title rest eq_refl Hh).
Qed.

Lemma successive_cons_heading (s : jsstring) (h : nat * jsstring)
    (hs : list (nat * jsstring)) :
  successive None s 0 (h :: hs) -> has_heading s.
Proof.
  intros H.
  inversion H as [|? ? ? skip ws title rest ? Hs Hno Hh Hl Hsucc]; subst.
  exists skip, (35%N :: 35%N :: ws ++ title ++ rest), ws, title, rest.
  split; [reflexivity|assumption].
Qed.

(** The shape of [parseSections] on the matches of its pattern.  On every
    input the function returns.  For an input of white space only it
    returns the empty list.  For any other input in which the pattern
    [^##\s+(.+)$] matches nowhere, the white space after the hash signs
    being allowed to run over line terminators, it returns the single
    section "Answer" with the whole input as content.  Otherwise it
    returns one section per successive match of the pattern, in order:
    the heading is the trimmed group of the match, and the content is the
    trimmed text from after the first line feed at or after the start of
    the match up to the start of the next match, or to the end of the
    input. *)
Lemma parseSections_shape (markdown : jsstring) :
  exists secs,
    parseSections markdown = Some secs /\
    (forallb is_whitespace markdown = true -> secs = []) /\
    (forallb is_whitespace markdown = false ->
     ~ has_heading markdown ->
     secs = [{| heading := js "Answer"; content := markdown |}]) /\
    (forallb is_whitespace markdown = false ->
     has_heading markdown ->
     exists hs,
       hs <> [] /\
       successive None markdown 0 hs /\
       describes markdown hs secs).
Proof.
  destruct (exec_loop_spec (S (length markdown)) None markdown 0 (le_n _))
    as (hs & Hloop & Hsucc).
  simpl Z.of_nat in Hloop.
  unfold parseSections. rewrite Hloop.
  destruct (JS.eqb (trim markdown) []) eqn:Ht.
  - apply eqb_nil, trim_nil_iff in Ht.
    exists []. split; [reflexivity|].
    split; [reflexivity|]. split; intros Hw; congruence.
  - assert (Hw : forallb is_whitespace markdown = false).
    { destruct (forallb is_whitespace markdown) eqn:E; [|reflexivity].
      apply trim_nil_iff, eqb_nil in E. congruence. }
    destruct hs as [|h hs].
    + simpl. eexists. split; [reflexivity|].
      split; [congruence|]. split; [reflexivity|].
      intros _ Hh. exfalso.
      exact (successive_nil_no_heading _ Hsucc Hh).
    + exists (sections markdown (pushed (h :: hs))).
      split; [reflexivity|].
      split; [congruence|]. split.
      * intros _ Hn. exfalso. apply Hn.
        exact (successive_cons_heading _ _ _ Hsucc).
      * intros _ _. exists (h :: hs).
        split; [discriminate|]. split; [assumption|].
        apply sections_describes.
        exact (successive_bounds _ _ _ _ Hsucc).
Qed.

(** C10, at its failing inputs.  The white space that the pattern asks
    for after the two hash signs may be a line feed, so a match can run
    over two lines, while the content of a section is taken from the
    first line feed after the start of the match, as if the match were
    one line.  In the first text no line is a heading on its own, yet the
    result is not the single section "Answer": the bare line of hash
    signs and the line after it make a heading, and the content of the
    section begins with the text of its own heading.  In the second text
    the second line is a heading on its own, with the text "B": the
    section has the whole line as its heading, hash signs included, and
    the same line as its content, which should be empty. *)
Theorem bare_hashes_line_makes_a_heading :
  (let markdown := md "##|Title|body" in
   forallb is_whitespace markdown = false /\
   Forall (fun l => ~ heading_line l) (split LF markdown) /\
   parseSections markdown =
     Some [{| heading := js "Title"; content := md "Title|body" |}] /\
   parseSections markdown <>
     Some [{| heading := js "Answer"; content := markdown |}]) /\
  (let markdown := md "## |## B" in
   split LF markdown = [js "## "; js "## B"] /\
   ~ heading_line (js "## ") /\
   heading_at None (js "## B") (js " ") (js "B") [] /\
   parseSections markdown =
     Some [{| heading := js "## B"; content := js "## B" |}] /\
   parseSections markdown <>
     Some [{| heading := js "B"; content := [] |}]).
Proof.
  assert (Hline : forall l, match_at None l = None -> ~ heading_line l).
  { intros l H (ws & title & Hh).
    exact (match_at_complete _ _ H ws title [] Hh). }
  split.
  - split; [reflexivity|]. split; [|split].
    + repeat constructor; apply Hline; reflexivity.
    + vm_compute. reflexivity.
    + vm_compute. discriminate.
  - split; [reflexivity|]. split; [apply Hline; reflexivity|].
    split; [|split].
    + unfold heading_at. repeat split; try reflexivity; discriminate.
    + vm_compute. reflexivity.
    + vm_compute. discriminate.
Qed.


(** ** The similarity score *)

(** Every event of a scan is what [JSON.parse] returned for a frame. *)
Lemma scan_events_parsed (ps : list jsstring) :
  Forall (fun v => exists p, In p ps /\ JSON.parse p = Some v) (fst (scan ps)).
Proof.
  induction ps as [|p ps IH]; [constructor|].
  simpl. destruct (JSON.parse p) as [data|] eqn:Hp; [|constructor].
  assert (Hd : exists q, In q (p :: ps) /\ JSON.parse q = Some data).
  { exists p. split; [left; reflexivity|assumption]. }
  destruct (is_terminal data) as [[|]|];
    try (constructor; [exact Hd|constructor]).
  destruct (scan ps) as [evs o]. simpl in *.
  constructor; [exact Hd|].
  eapply Forall_impl; [|exact IH].
  intros v (q & Hq & Hv). exists q. split; [right; assumption|assumption].
Qed.

(** C9: consumer-side similarity clamping, core pass-through.  The
    streaming core yields the value [JSON.parse] returned for the payload
    of a frame and nothing else: every event is such a value, and every
    frame the stream reaches, behind frames that parse and do not end it,
    is yielded as it was parsed, whatever it holds, so a
    [similarity_score] out of range reaches the caller as it is.  The
    caller clamps: for a source whose [similarity_score] is a number (a
    JSON text denotes no [NaN]), or is missing or [null] and then counts
    as zero, [Math.max(0, Math.min(1, score))] is the clamp of the score
    to the interval from zero to one, and the percentage shown,
    [Math.round] of a hundred times that, is 0 for a score that is at
    most zero or missing, 100 for a score that is at least one, and in
    every case an integer from 0 to 100. *)
Theorem similarity_clamped_by_the_consumer :
  (forall response cs,
     ok response = true ->
     body response = Some (map Chunk cs) ->
     exists evs o st',
       collect (S (length evs)) (queryStream (Normal response)) =
         Some (evs, o, st') /\
       Forall (fun v => exists p,
                 In p (frames (text_of (concat cs))) /\
                 JSON.parse p = Some v) evs) /\
  (forall response cs before p after evs v,
     ok response = true ->
     body response = Some (map Chunk cs) ->
     frames (text_of (concat cs)) = before ++ p :: after ->
     classify_each before = map Some evs ->
     Forall (fun v => is_terminal v = Some false) evs ->
     JSON.parse p = Some v ->
     exists later o st',
       collect (S (length (evs ++ v :: later)))
         (queryStream (Normal response)) =
       Some (evs ++ v :: later, o, st')) /\
  (forall source score,
     similarity_score source = Some score ->
     (forall x, score = Some x -> is_number x = true) ->
     similarity score = clamp (nullish score zero) /\
     percent score = Math_round (mul (clamp (nullish score zero)) hundred) /\
     (score = None -> percent score = zero) /\
     (forall x,
        score = Some x -> SFleb x zero = true ->
        integer_value (percent score) = Some 0%Z) /\
     (forall x,
        score = Some x -> SFleb one x = true ->
        integer_value (percent score) = Some 100%Z) /\
     (forall x,
        score = Some x -> SFleb x zero = false -> SFleb one x = false ->
        percent score = Math_round (mul x hundred)) /\
     exists z, integer_value (percent score) = Some z /\ (0 <= z <= 100)%Z).
Proof.
  split; [|split].
  - intros response cs Hok Hbody.
    destruct (collect_stream response cs _ Hok Hbody (le_n _))
      as (st' & Hc & _).
    exists (fst (classify (frames (text_of (concat cs))))),
           (snd (classify (frames (text_of (concat cs))))), st'.
    split; [exact Hc|].
    unfold classify.
    pose proof (scan_events_parsed (frames (text_of (concat cs)))) as H.
    destruct (scan _) as [evs o]. exact H.
  - intros response cs before p after evs v Hok Hbody Hf Hm Hnt Hp.
    destruct (collect_stream response cs _ Hok Hbody (le_n _))
      as (st' & Hc & _).
    rewrite Hf, (classify_at_ending before after p evs Hm Hnt), Hp in Hc.
    destruct (is_terminal v) as [[|]|]; cbn [fst snd] in Hc.
    + exists [], Returned, st'. exact Hc.
    + exists (fst (classify after)), (snd (classify after)), st'. exact Hc.
    + exists [], (Threw TypeError), st'. exact Hc.
  - intros source score _ Hnum.
    assert (Hsim : similarity score = clamp (nullish score zero)).
    { destruct score as [x|]; [|reflexivity].
      apply similarity_clamp, Hnum. reflexivity. }
    split; [exact Hsim|].
    split; [unfold percent; rewrite Hsim; reflexivity|].
    split; [intros ->; reflexivity|].
    split; [|split; [|split]].
    + intros x -> Hx. unfold percent. rewrite Hsim. cbn [nullish].
      rewrite (clamp_low x Hx). reflexivity.
    + intros x -> Hx. unfold percent. rewrite Hsim. cbn [nullish].
      rewrite (clamp_high x Hx). vm_compute. reflexivity.
    + intros x -> H0 H1. unfold percent. rewrite Hsim. cbn [nullish].
      rewrite (clamp_between x H0 H1). reflexivity.
    + apply percent_in_range. exact Hnum.
Qed.

(** The source of the witness is parsed from a JSON text with the score
    1.5, out of range: the percentage shown is 100. *)
Lemma similarity_clamped_by_the_consumer_witness :
  exists source score,
    JSON.parse (jsq "{'content':'x','metadata':{},'similarity_score':1.5}")
      = Some source /\
    similarity_score source = Some (Some score) /\
    is_number score = true /\
    SFleb one score = true /\
    integer_value (percent (Some score)) = Some 100%Z.
Proof.
  exists (JObject [(js "content", JString (js "x"));
                   (js "metadata", JObject []);
                   (js "similarity_score",
                    JNumber (S754_finite false 6755399441055744 (-52)))]),
         (S754_finite false 6755399441055744 (-52)).
  assert (Hnum : forall x,
             Some (S754_finite false 6755399441055744 (-52)) = Some x ->
             is_number x = true).
  { intros x H. injection H as <-. reflexivity. }
  destruct (proj2 (proj2 similarity_clamped_by_the_consumer)
              (JObject [(js "content", JString (js "x"));
                        (js "metadata", JObject []);
                        (js "similarity_score",
                         JNumber (S754_finite false 6755399441055744 (-52)))])
              (Some (S754_finite false 6755399441055744 (-52)))
              eq_refl Hnum) as (_ & _ & _ & _ & Hhigh & _).
  split; [reflexivity|]. split; [reflexivity|]. split; [reflexivity|].
  split; [reflexivity|]. exact (Hhigh _ eq_refl eq_refl).
Defined.

End QueryInterfaceTheorems.

(* ================================================================== *)
(** * [JSON.parse] and trailing white space *)
(* ================================================================== *)

Module JSONWhitespace.
Import JS.
Import JSON.
Import JSONFacts.
Import JSONStages.

Lemma parse_number_stages (s : jsstring) :
  parse_number s = number_stages s.
Proof. reflexivity. Qed.

Lemma is_ws_cases (c : code_unit) :
  is_ws c = true -> c = 32%N \/ c = 9%N \/ c = 10%N \/ c = 13%N.
Proof.
  unfold is_ws. intros H.
  repeat (apply orb_true_iff in H; destruct H as [H|H]);
    apply N.eqb_eq in H; auto.
Qed.

Section Tail.

(** [w]: white space that follows the input. *)
Variable w : jsstring.
Hypothesis Hw : forallb is_ws w = true.

Lemma tail_head :
  w = [] \/ exists c r, w = c :: r /\ is_ws c = true.
Proof.
  destruct w as [|c r]; [left; reflexivity|right].
  simpl in Hw. apply andb_true_iff in Hw. destruct Hw as [Hc _].
  exists c, r. split; [reflexivity|assumption].
Qed.

Lemma skip_ws_tail : skip_ws w = [].
Proof.
  clear - Hw. induction w as [|c r IH]; [reflexivity|].
  simpl in Hw. apply andb_true_iff in Hw. destruct Hw as [Hc Hr].
  simpl. rewrite Hc. apply IH, Hr.
Qed.

Lemma skip_ws_app (s : jsstring) :
  skip_ws (s ++ w) = with_tail w (skip_ws s).
Proof.
  induction s as [|c s IH]; [apply skip_ws_tail|].
  simpl. destruct (is_ws c); [exact IH|reflexivity].
Qed.

Lemma startsWith_tail (p : jsstring) :
  forallb (fun a => negb (is_ws a)) p = true ->
  forall x, startsWith (x ++ w) p = startsWith x p.
Proof.
  induction p as [|a p IH]; intros Hp x; [reflexivity|].
  simpl in Hp. apply andb_true_iff in Hp. destruct Hp as [Ha Hp].
  destruct x as [|y x].
  - simpl. destruct tail_head as [->|(c & r & -> & Hc)]; [reflexivity|].
    destruct (N.eqb_spec a c) as [->|_]; [|reflexivity].
    rewrite Hc in Ha. discriminate.
  - simpl. rewrite (IH Hp). reflexivity.
Qed.

Lemma skipn_tail (p x : jsstring) :
  startsWith x p = true ->
  skipn (length p) (x ++ w) = skipn (length p) x ++ w.
Proof.
  intros H. pose proof (startsWith_skipn _ _ H) as Hl.
  rewrite skipn_app.
  replace (length p - length x) with 0 by lia. reflexivity.
Qed.

Lemma take_digits_tail (s : jsstring) :
  take_digits (s ++ w) = (fst (take_digits s), snd (take_digits s) ++ w).
Proof.
  induction s as [|c s IH].
  - simpl. destruct tail_head as [->|(c & r & -> & Hc)]; [reflexivity|].
    simpl. destruct (is_ws_cases _ Hc) as [->|[->|[->| ->]]]; reflexivity.
  - simpl. destruct (is_digit c); [|reflexivity].
    rewrite IH. destruct (take_digits s) as [ds rest]. reflexivity.
Qed.

Lemma int_part_tail (s : jsstring) :
  int_part (s ++ w) = followed_by w (int_part s).
Proof.
  destruct s as [|c r].
  - simpl. destruct tail_head as [->|(c & r & -> & Hc)]; [reflexivity|].
    simpl. destruct (is_ws_cases _ Hc) as [->|[->|[->| ->]]]; reflexivity.
  - cbn [app int_part]. destruct (N.eqb c 48); [reflexivity|].
    destruct (is_digit c); [|reflexivity].
    change (c :: r ++ w) with ((c :: r) ++ w).
    rewrite take_digits_tail.
    destruct (take_digits (c :: r)) as [ds rest]. reflexivity.
Qed.

Lemma frac_part_tail (s : jsstring) :
  frac_part (s ++ w) = followed_by w (frac_part s).
Proof.
  destruct s as [|c r].
  - simpl. destruct tail_head as [->|(c & r & -> & Hc)]; [reflexivity|].
    simpl. destruct (is_ws_cases _ Hc) as [->|[->|[->| ->]]]; reflexivity.
  - cbn [app frac_part]. destruct (N.eqb c 46); [|reflexivity].
    rewrite take_digits_tail.
    destruct (take_digits r) as [[|d ds] rest]; reflexivity.
Qed.

Lemma exp_sign_tail (r : jsstring) :
  r <> [] ->
  exp_sign (r ++ w) = (fst (exp_sign r), snd (exp_sign r) ++ w).
Proof.
  destruct r as [|c r]; [congruence|intros _].
  cbn [app exp_sign].
  destruct (N.eqb c 45); [reflexivity|].
  destruct (N.eqb c 43); reflexivity.
Qed.

Lemma exp_part_tail (s : jsstring) :
  exp_part (s ++ w) = followed_by w (exp_part s).
Proof.
  destruct s as [|c r].
  - simpl. destruct tail_head as [->|(c & r & -> & Hc)]; [reflexivity|].
    simpl. destruct (is_ws_cases _ Hc) as [->|[->|[->| ->]]]; reflexivity.
  - cbn [app exp_part]. destruct (N.eqb c 101 || N.eqb c 69); [|reflexivity].
    destruct r as [|c' r'].
    + simpl. destruct tail_head as [->|(c0 & r0 & -> & Hc)]; [reflexivity|].
      simpl.
      destruct (is_ws_cases _ Hc) as [->|[->|[->| ->]]]; reflexivity.
    + rewrite exp_sign_tail by discriminate.
      destruct (exp_sign (c' :: r')) as [eneg r1]. cbn [fst snd].
      rewrite take_digits_tail.
      destruct (take_digits r1) as [[|d ds] rest]; reflexivity.
Qed.

Lemma parse_number_tail (s : jsstring) :
  s <> [] ->
  parse_number (s ++ w) = followed_by w (parse_number s).
Proof.
  intros Hs. rewrite (parse_number_stages (s ++ w)), (parse_number_stages s).
  unfold number_stages.
  assert (Hsign : sign_part (s ++ w) =
                  (fst (sign_part s), snd (sign_part s) ++ w)).
  { destruct s as [|c r]; [congruence|].
    cbn [app sign_part]. destruct (N.eqb c 45); reflexivity. }
  rewrite Hsign. destruct (sign_part s) as [neg s1]. cbn [fst snd].
  rewrite int_part_tail.
  destruct (int_part s1) as [[ints s2]|]; [|reflexivity]. cbn [followed_by].
  rewrite frac_part_tail.
  destruct (frac_part s2) as [[fracs s3]|]; [|reflexivity]. cbn [followed_by].
  rewrite exp_part_tail.
  destruct (exp_part s3) as [[e s4]|]; reflexivity.
Qed.

Lemma hex_value_ws (c : code_unit) : is_ws c = true -> hex_value c = None.
Proof.
  intros Hc. destruct (is_ws_cases _ Hc) as [->|[->|[->| ->]]]; reflexivity.
Qed.

Lemma escape_value_ws (c : code_unit) :
  is_ws c = true -> escape_value c = None.
Proof.
  intros Hc. destruct (is_ws_cases _ Hc) as [->|[->|[->| ->]]]; reflexivity.
Qed.

(** Inside a string, white space alone never closes it. *)
Lemma parse_string_body_ws : parse_string_body w = None.
Proof.
  clear - Hw. induction w as [|c r IH]; [reflexivity|].
  simpl in Hw. apply andb_true_iff in Hw. destruct Hw as [Hc Hr].
  specialize (IH Hr).
  destruct (is_ws_cases _ Hc) as [->|[->|[->| ->]]];
    cbn [parse_string_body N.eqb N.ltb N.compare Pos.eqb Pos.compare
         Pos.compare_cont]; try reflexivity.
  rewrite IH. reflexivity.
Qed.

(** Four hexadecimal digits are not found where the tail begins before
    the fourth. *)
Lemma unicode_escape_tail (r : jsstring) :
  length r < 4 ->
  match r ++ w with
  | h1 :: h2 :: h3 :: h4 :: r'' =>
      match hex_value h1, hex_value h2, hex_value h3, hex_value h4 with
      | Some a, Some b, Some c', Some d =>
          match parse_string_body r'' with
          | Some (str, rest) =>
              Some ((((a * 16 + b) * 16 + c') * 16 + d)%N :: str, rest)
          | None => None
          end
      | _, _, _, _ => None
      end
  | _ => @None (jsstring * jsstring)
  end = None.
Proof.
  intros Hl.
  assert (Hhex : forall l, forallb is_ws l = true ->
            match l with
            | [] => True
            | c :: _ => hex_value c = None
            end).
  { intros [|c l] H; [exact I|].
    simpl in H. apply andb_true_iff in H. apply hex_value_ws, H. }
  destruct r as [|h1 [|h2 [|h3 [|h4 r]]]]; [| | | |simpl in Hl; lia];
    cbn [app].
  - destruct w as [|x1 [|x2 [|x3 [|x4 t]]]]; try reflexivity.
    pose proof (Hhex _ Hw) as Hx. cbn beta iota in Hx.
    rewrite Hx. reflexivity.
  - destruct w as [|x1 [|x2 [|x3 t]]]; try reflexivity.
    pose proof (Hhex _ Hw) as Hx. cbn beta iota in Hx.
    rewrite Hx. destruct (hex_value h1); reflexivity.
  - destruct w as [|x1 [|x2 t]]; try reflexivity.
    pose proof (Hhex _ Hw) as Hx. cbn beta iota in Hx.
    rewrite Hx.
    destruct (hex_value h1); [|reflexivity].
    destruct (hex_value h2); reflexivity.
  - destruct w as [|x1 t]; try reflexivity.
    pose proof (Hhex _ Hw) as Hx. cbn beta iota in Hx.
    rewrite Hx.
    destruct (hex_value h1); [|reflexivity].
    destruct (hex_value h2); [|reflexivity].
    destruct (hex_value h3); reflexivity.
Qed.

Lemma parse_string_body_tail_upto (n : nat) :
  forall s,
    length s <= n ->
    parse_string_body (s ++ w) = followed_by w (parse_string_body s).
Proof.
  induction n as [|n IH]; intros s Hn.
  - destruct s; [|simpl in Hn; lia]. apply parse_string_body_ws.
  - destruct s as [|c r]; [apply parse_string_body_ws|].
    simpl in Hn. cbn [app parse_string_body].
    destruct (N.eqb c 34); [reflexivity|].
    destruct (N.eqb c 92).
    + destruct r as [|e r'].
      * cbn [app].
        destruct tail_head as [->|(c0 & r0 & -> & Hc)]; [reflexivity|].
        rewrite (escape_value_ws _ Hc).
        destruct (is_ws_cases _ Hc) as [->|[->|[->| ->]]]; reflexivity.
      * cbn [app]. simpl in Hn.
        destruct (N.eqb e 117).
        -- destruct (Nat.ltb_spec (length r') 4) as [Hlt|Hge].
           ++ rewrite (unicode_escape_tail r' Hlt).
              destruct r' as [|h1 [|h2 [|h3 [|h4 r'']]]];
                try reflexivity.
              simpl in Hlt. lia.
           ++ destruct r' as [|h1 [|h2 [|h3 [|h4 r'']]]];
                try (simpl in Hge; lia).
              cbn [app].
              destruct (hex_value h1); [|reflexivity].
              destruct (hex_value h2); [|reflexivity].
              destruct (hex_value h3); [|reflexivity].
              destruct (hex_value h4); [|reflexivity].
              rewrite (IH r'') by (simpl in Hn; lia).
              destruct (parse_string_body r'') as [[str rest]|]; reflexivity.
        -- destruct (escape_value e); [|reflexivity].
           rewrite (IH r') by lia.
           destruct (parse_string_body r') as [[str rest]|]; reflexivity.
    + destruct (N.ltb c 32); [reflexivity|].
      rewrite (IH r) by lia.
      destruct (parse_string_body r) as [[str rest]|]; reflexivity.
Qed.

Lemma parse_string_body_tail (s : jsstring) :
  parse_string_body (s ++ w) = followed_by w (parse_string_body s).
Proof. apply (parse_string_body_tail_upto (length s)), le_n. Qed.

Lemma literal_tail {A : Type} (p : jsstring) (x : jsstring) (a : A) :
  startsWith x p = true ->
  Some (a, skipn (length p) (x ++ w)) =
  followed_by w (Some (a, skipn (length p) x)).
Proof. intros H. cbn [followed_by]. rewrite (skipn_tail _ _ H). reflexivity. Qed.

(** The three parsers read the same value when white space follows the
    input, and leave that white space after what they left. *)
Lemma parse_tail (f : nat) :
  (forall s, parse_value f (s ++ w) = followed_by w (parse_value f s)) /\
  (forall s, parse_elements f (s ++ w) = followed_by w (parse_elements f s)) /\
  (forall s, parse_members f (s ++ w) = followed_by w (parse_members f s)).
Proof.
  induction f as [|f (IHv & IHe & IHm)]; [repeat split|].
  split; [|split]; intros s.
  - rewrite !parse_value_S, skip_ws_app.
    destruct (skip_ws s) as [|c r] eqn:Esk; [reflexivity|].
    cbn [with_tail].
    rewrite !startsWith_tail by reflexivity.
    destruct (startsWith (c :: r) (js "null")) eqn:E1;
      [exact (literal_tail (js "null") _ JNull E1)|].
    destruct (startsWith (c :: r) (js "true")) eqn:E2;
      [exact (literal_tail (js "true") _ (JBool true) E2)|].
    destruct (startsWith (c :: r) (js "false")) eqn:E3;
      [exact (literal_tail (js "false") _ (JBool false) E3)|].
    cbn [app].
    destruct (N.eqb c 34).
    { rewrite parse_string_body_tail.
      destruct (parse_string_body r) as [[str rest]|]; reflexivity. }
    destruct (N.eqb c 91).
    { rewrite skip_ws_app.
      destruct (skip_ws r) as [|c' r']; [reflexivity|].
      cbn [with_tail app].
      destruct (N.eqb c' 93); [reflexivity|].
      rewrite IHe.
      destruct (parse_elements f r) as [[vs rest]|]; reflexivity. }
    destruct (N.eqb c 123).
    { rewrite skip_ws_app.
      destruct (skip_ws r) as [|c' r']; [reflexivity|].
      cbn [with_tail app].
      destruct (N.eqb c' 125); [reflexivity|].
      rewrite IHm.
      destruct (parse_members f r) as [[ms rest]|]; reflexivity. }
    change (c :: r ++ w) with ((c :: r) ++ w).
    rewrite parse_number_tail by discriminate.
    destruct (parse_number (c :: r)) as [[n rest]|]; reflexivity.
  - rewrite !parse_elements_S, IHv.
    destruct (parse_value f s) as [[v r]|]; [|reflexivity].
    cbn [followed_by]. rewrite skip_ws_app.
    destruct (skip_ws r) as [|c r']; [reflexivity|].
    cbn [with_tail app].
    destruct (N.eqb c 44).
    { rewrite IHe.
      destruct (parse_elements f r') as [[vs rest]|]; reflexivity. }
    destruct (N.eqb c 93); reflexivity.
  - rewrite !parse_members_S, skip_ws_app.
    destruct (skip_ws s) as [|q r]; [reflexivity|].
    cbn [with_tail app].
    destruct (N.eqb q 34); [|reflexivity].
    rewrite parse_string_body_tail.
    destruct (parse_string_body r) as [[key r1]|]; [|reflexivity].
    cbn [followed_by]. rewrite skip_ws_app.
    destruct (skip_ws r1) as [|colon r2]; [reflexivity|].
    cbn [with_tail app].
    destruct (N.eqb colon 58); [|reflexivity].
    rewrite IHv.
    destruct (parse_value f r2) as [[v r3]|]; [|reflexivity].
    cbn [followed_by]. rewrite skip_ws_app.
    destruct (skip_ws r3) as [|c r4]; [reflexivity|].
    cbn [with_tail app].
    destruct (N.eqb c 44).
    { rewrite IHm.
      destruct (parse_members f r4) as [[ms rest]|]; reflexivity. }
    destruct (N.eqb c 125); reflexivity.
Qed.

Lemma parse_some_tail (s : jsstring) (v : value) :
  JSON.parse (s ++ w) = Some v <-> JSON.parse s = Some v.
Proof.
  rewrite !parse_spec. split.
  - intros (f & rest & Hp & Hr).
    rewrite (proj1 (parse_tail f)) in Hp.
    destruct (parse_value f s) as [[v' r]|] eqn:E; [|discriminate].
    cbn [followed_by] in Hp. injection Hp as -> <-.
    exists f, r. split; [exact E|].
    rewrite skip_ws_app in Hr.
    destruct (skip_ws r); [reflexivity|discriminate].
  - intros (f & rest & Hp & Hr).
    exists f, (rest ++ w). split.
    + rewrite (proj1 (parse_tail f)), Hp. reflexivity.
    + rewrite skip_ws_app, Hr. reflexivity.
Qed.

Lemma parse_tail_ws (s : jsstring) : JSON.parse (s ++ w) = JSON.parse s.
Proof.
  destruct (JSON.parse s) as [v|] eqn:E.
  - apply (proj2 (parse_some_tail s v)), E.
  - destruct (JSON.parse (s ++ w)) as [v|] eqn:E'; [|reflexivity].
    apply (proj1 (parse_some_tail s v)) in E'. congruence.
Qed.

End Tail.

End JSONWhitespace.

(* ================================================================== *)
(** * Facts about the conversion to a string *)
(* ================================================================== *)

Module ConversionFacts.
Import JS.
Import JSON.
Import Api.

(** Induction on a value through the elements of arrays. *)
Lemma array_induction (P : value -> Prop) :
  (forall v,
     match v with
     | JArray vs => Forall P vs
     | _ => True
     end -> P v) ->
  forall v, P v.
Proof.
  intros H.
  exact (fix IH (v : value) : P v :=
           H v (match v as v0
                      return match v0 with
                             | JArray vs => Forall P vs
                             | _ => True
                             end
                with
                | JArray vs =>
                    (fix go (l : list value) : Forall P l :=
                       match l with
                       | [] => Forall_nil P
                       | x :: r => Forall_cons x (IH x) (go r)
                       end) vs
                | _ => I
                end)).
Qed.

Lemma stringable_cons (v : value) (rest : list value) :
  stringable (JArray (v :: rest)) = stringable v && stringable (JArray rest).
Proof. reflexivity. Qed.

Section Facts.

Variable Number_toString : number -> jsstring.

Local Abbreviation ToString := (HandleSubmit.ToString Number_toString).

(** An element of an array as [join] converts it. *)
Local Abbreviation element v :=
  (match v with
   | JNull => Normal []
   | _ => ToString v
   end).

Lemma ToString_cons (v : value) (rest : list value) :
  ToString (JArray (v :: rest)) =
  match element v with
  | Throw e => Throw e
  | Normal s =>
      match rest with
      | [] => Normal s
      | _ :: _ =>
          match ToString (JArray rest) with
          | Throw e => Throw e
          | Normal t => Normal (s ++ 44%N :: t)
          end
      end
  end.
Proof. reflexivity. Qed.

(** [stringable] says when [ToString] completes, whatever the text of
    numbers is. *)
Lemma ToString_stringable (v : value) :
  forall text, ToString v = Normal text -> stringable v = true.
Proof.
  induction v as [v IH] using array_induction.
  destruct v as [|b|n|s|vs|ms]; intros text H; try reflexivity.
  - revert text H.
    induction vs as [|v rest IHrest]; intros text H; [reflexivity|].
    inversion IH as [|? ? Pv Prest]; subst.
    rewrite stringable_cons. rewrite ToString_cons in H.
    destruct (element v) as [s|e] eqn:Ev; [|discriminate H].
    assert (Hv : stringable v = true).
    { destruct v as [|b|n|s0|ws|ms]; try reflexivity;
        exact (Pv _ Ev). }
    rewrite Hv. cbn [andb].
    destruct rest as [|w rest']; [reflexivity|].
    destruct (ToString (JArray (w :: rest'))) as [t|e] eqn:E;
      [|discriminate H].
    exact (IHrest Prest _ eq_refl).
  - cbn [stringable]. cbn [HandleSubmit.ToString] in H.
    destruct (lookup (js "toString") ms); [discriminate H|reflexivity].
Qed.

Lemma stringable_ToString (v : value) :
  stringable v = true -> exists text, ToString v = Normal text.
Proof.
  induction v as [v IH] using array_induction.
  destruct v as [|b|n|s|vs|ms]; intros H;
    try (eexists; reflexivity).
  - destruct b; eexists; reflexivity.
  - induction vs as [|v rest IHrest]; [eexists; reflexivity|].
    inversion IH as [|? ? Pv Prest]; subst.
    rewrite stringable_cons in H. apply andb_true_iff in H.
    destruct H as [Hv Hr].
    rewrite ToString_cons.
    assert (Ev : exists s, element v = Normal s).
    { destruct v as [|b|n|s0|ws|ms];
        try (eexists; reflexivity); exact (Pv Hv). }
    destruct Ev as [s ->].
    destruct rest as [|w rest']; [eexists; reflexivity|].
    destruct (IHrest Prest Hr) as [t ->]. eexists. reflexivity.
  - cbn [stringable] in H. cbn [HandleSubmit.ToString].
    destruct (lookup (js "toString") ms); [discriminate H|].
    eexists. reflexivity.
Qed.

(** A message that converts is the message of the [APIError]. *)
Lemma new_APIError_converted (message : value) (status : Z)
    (detail : option value) (text : jsstring) :
  ToString message = Normal text ->
  new_APIError message status detail = APIError message status detail.
Proof.
  intros H. unfold new_APIError.
  rewrite (ToString_stringable _ _ H). reflexivity.
Qed.

End Facts.

End ConversionFacts.

(* ================================================================== *)
(** * Further properties of [services/api.ts] *)
(* ================================================================== *)

Module ApiProperties.
Import JS.
Import JSON.
Import Api.
Import Lines.
Import LinesFacts.
Import Stream.
Import StreamFacts.
Import LineEndings.

(** ** [handleResponse] *)

Lemma handleResponse_ok (response : Response) :
  ok response = true -> handleResponse response = json response.
Proof. intros Hok. unfold handleResponse. rewrite Hok. reflexivity. Qed.

Lemma handleResponse_throws (response : Response) :
  ok response = false -> exists e, handleResponse response = Throw e.
Proof.
  intros Hok. unfold handleResponse. rewrite Hok. cbn [negb]. cbv zeta.
  destruct (get _ (js "error")); [|eexists; reflexivity].
  destruct (get _ (js "detail")); eexists; reflexivity.
Qed.

(** A value that is falsy converts to a string. *)
Lemma falsy_stringable (v : value) :
  truthy (Some v) = false -> stringable v = true.
Proof. destruct v; try reflexivity; discriminate. Qed.

(** The message [error.error || "API Error"] cannot be converted exactly
    when the [error] member is there and cannot be. *)
Lemma or_else_stringable (a : option value) :
  stringable (or_else a (JString (js "API Error"))) = false <->
  exists m, a = Some m /\ stringable m = false.
Proof.
  unfold or_else. destruct a as [m|].
  - destruct (truthy (Some m)) eqn:Et.
    + split; [intros H; exists m; split; [reflexivity|exact H]|].
      intros (m' & Hm & Hs). injection Hm as <-. exact Hs.
    + split; [discriminate|].
      intros (m' & Hm & Hs). injection Hm as <-.
      rewrite (falsy_stringable _ Et) in Hs. discriminate.
  - split; [discriminate|]. intros (m & Hm & _). discriminate.
Qed.

(** X2.  On a response that is not a success [handleResponse] never
    returns a value.  What it throws is an [APIError] with the status of
    the response, except in two cases, where it is a [TypeError]: the
    body is the JSON text [null], on which the read of [error.error]
    throws; or the body is a JSON object whose [error] member cannot be
    converted to a string (an object with a member named [toString], or
    an array that holds one), on which the constructor of the error
    throws. *)
Theorem failure_never_returns (response : Response) :
  ok response = false ->
  exists e,
    handleResponse response = Throw e /\
    (e = TypeError \/
     exists message detail,
       e = APIError message (status response) detail /\
       stringable message = true) /\
    (e = TypeError <->
     json response = Normal JNull \/
     exists ms m,
       json response = Normal (JObject ms) /\
       lookup (js "error") ms = Some m /\ stringable m = false).
Proof.
  intros Hok. unfold handleResponse. rewrite Hok. cbn [negb].
  assert (Hplain : forall detail,
            json response <> Normal JNull ->
            (forall ms, json response <> Normal (JObject ms)) ->
            exists e,
              Throw (A := value)
                (new_APIError (JString (js "API Error")) (status response)
                   detail) = Throw e /\
              (e = TypeError \/
               exists message detail0,
                 e = APIError message (status response) detail0 /\
                 stringable message = true) /\
              (e = TypeError <->
               json response = Normal JNull \/
               exists ms m,
                 json response = Normal (JObject ms) /\
                 lookup (js "error") ms = Some m /\ stringable m = false)).
  { intros detail Hnull Hobj. eexists. split; [reflexivity|]. split.
    - right. eexists. eexists. split; reflexivity.
    - split; [discriminate|].
      intros [H|(ms & m & H & _)]; [contradiction|].
      destruct (Hobj ms H). }
  destruct (json response) as [v|e0] eqn:Ej.
  - destruct v as [|b|n|s|vs|ms];
      try (apply Hplain; [discriminate|intros ms0; discriminate]).
    + exists TypeError. split; [reflexivity|]. split; [left; reflexivity|].
      split; [intros _; left; reflexivity|reflexivity].
    + cbn [get]. unfold new_APIError.
      destruct (stringable (or_else (lookup (js "error") ms)
                              (JString (js "API Error")))) eqn:Es.
      * eexists. split; [reflexivity|]. split.
        -- right. eexists. eexists. split; [reflexivity|exact Es].
        -- split; [discriminate|].
           intros [H|(ms' & m & H & Hl & Hs)]; [discriminate H|].
           injection H as <-.
           assert (Hf : stringable (or_else (lookup (js "error") ms)
                                      (JString (js "API Error"))) = false).
           { apply or_else_stringable. exists m. split; assumption. }
           rewrite Hf in Es. discriminate Es.
      * exists TypeError. split; [reflexivity|]. split; [left; reflexivity|].
        split; [|reflexivity].
        intros _. right.
        apply or_else_stringable in Es. destruct Es as (m & Hl & Hs).
        exists ms, m. repeat split; assumption.
  - cbn [get lookup]. eexists. split; [reflexivity|]. split.
    + right. eexists. eexists. split; reflexivity.
    + split; [discriminate|].
      intros [H|(ms & m & H & _)]; discriminate H.
Qed.

(** The body of the witness is an object whose [error] member hides
    [toString]: no [APIError] is made of it. *)
Lemma failure_never_returns_witness :
  handleResponse
    (failing 404 "Not Found" (wire "{'error':{'toString':1}}")) =
  Throw TypeError.
Proof.
  destruct (failure_never_returns
              (failing 404 "Not Found" (wire "{'error':{'toString':1}}"))
              eq_refl) as (e & He & _ & Hiff).
  rewrite He. f_equal. apply (proj2 Hiff). right.
  exists [(js "error",
           JObject [(js "toString", JNumber (S754_finite false 4503599627370496 (-52)))])],
         (JObject [(js "toString", JNumber (S754_finite false 4503599627370496 (-52)))]).
  repeat split.
Defined.

(** ** [queryStream]: requests that fail before the stream *)

(** X4.  A streaming request that fails before the body is read (a
    rejected [fetch], a response that is not a success, a success without
    a body) yields no event, acquires no reader and reads nothing: the
    first pull throws and completes the generator.  The error of a
    rejected [fetch] is passed on as it is; a missing body is the [Error]
    ["No response body"]. *)
Theorem no_stream_no_reader (fetch : completion Response) :
  (match fetch with
   | Throw _ => True
   | Normal response => ok response = false \/ body response = None
   end) ->
  exists e,
    (forall n,
       collect (S n) (queryStream fetch) =
       Some ([], Threw e, close (queryStream fetch))) /\
    acquired (close (queryStream fetch)) = 0 /\
    reads (close (queryStream fetch)) = 0 /\
    releases (close (queryStream fetch)) = 0 /\
    next (close (queryStream fetch)) = (close (queryStream fetch), Done) /\
    (forall e0, fetch = Throw e0 -> e = e0) /\
    (forall response,
       fetch = Normal response -> ok response = true ->
       e = Error (js "No response body")).
Proof.
  intros H.
  destruct fetch as [response|e0].
  - destruct (ok response) eqn:Hok.
    + destruct H as [H|Hb]; [discriminate|].
      exists (Error (js "No response body")). repeat split.
      * intros n. rewrite collect_S. unfold next. cbn [gen queryStream].
        rewrite Hok, Hb. reflexivity.
      * intros e0 He. discriminate He.
    + assert (Hn : exists e,
                 next (queryStream (Normal response)) =
                 (close (queryStream (Normal response)), Raised e)).
      { unfold next. cbn [gen queryStream]. rewrite Hok. cbn [negb].
        destruct (get _ _); eexists; reflexivity. }
      destruct Hn as [e He]. exists e. repeat split.
      * intros n. rewrite collect_S, He. reflexivity.
      * intros e0 H0. discriminate H0.
      * intros r Hr Hok'. injection Hr as <-. congruence.
  - exists e0. repeat split.
    + intros e1 He. congruence.
    + intros r Hr. discriminate Hr.
Qed.

Lemma no_stream_no_reader_witness :
  exists e,
    (forall n,
       collect (S n)
         (queryStream (Normal {| status := 204; statusText := js "No Content";
                                 body := None |})) =
       Some ([], Threw e,
             close (queryStream
                      (Normal {| status := 204; statusText := js "No Content";
                                 body := None |})))) /\
    e = Error (js "No response body").
Proof.
  destruct (no_stream_no_reader
              (Normal {| status := 204; statusText := js "No Content";
                         body := None |}) (or_intror eq_refl))
    as (e & Hc & _ & _ & _ & _ & _ & He).
  exists e. split; [exact Hc|exact (He _ eq_refl eq_refl)].
Defined.

(** ** [queryStream]: a read that fails *)

(** The loop over chunks that all arrive, followed by more reads. *)
Lemma loop_meaning_then (cs : list bytes) (tail : list read_result) :
  forall (td : TextDecoder.t) (buffer : jsstring),
    has_LF buffer = false ->
    loop_meaning td buffer (map Chunk cs ++ tail) =
    then_ (scan_lines (complete_lines
             (buffer ++ snd (TextDecoder.decode_stream td (concat cs)))))
      (loop_meaning (fst (TextDecoder.decode_stream td (concat cs)))
         (partial_line
            (buffer ++ snd (TextDecoder.decode_stream td (concat cs))))
         tail).
Proof.
  induction cs as [|c cs IH]; intros td buffer Hb.
  - simpl. rewrite app_nil_r.
    destruct (no_LF_lines buffer Hb) as [-> ->].
    destruct (loop_meaning td buffer tail). reflexivity.
  - simpl map. simpl concat. rewrite <- app_comm_cons.
    cbn [loop_meaning].
    rewrite decode_stream_app.
    destruct (TextDecoder.decode_stream td c) as [td1 t1].
    rewrite (IH td1 (partial_line (buffer ++ t1)) (partial_line_no_LF _)).
    destruct (TextDecoder.decode_stream td1 (concat cs)) as [td2 t2].
    cbn [fst snd].
    rewrite app_assoc, (complete_lines_app (buffer ++ t1) t2).
    rewrite (partial_line_app (buffer ++ t1) t2).
    rewrite scan_lines_app. reflexivity.
Qed.

(** A scan that goes through two lists of frames goes through each. *)
Lemma scan_app_none (a b : list jsstring) :
  snd (scan (a ++ b)) = None ->
  snd (scan a) = None /\ snd (scan b) = None.
Proof.
  induction a as [|p a IH]; simpl; intros H.
  - split; [reflexivity|exact H].
  - destruct (JSON.parse p) as [data|]; [|discriminate H].
    destruct (is_terminal data) as [[|]|]; try discriminate H.
    destruct (scan (a ++ b)) as [e1 o1]. destruct (scan a) as [e2 o2].
    cbn [snd] in *. exact (IH H).
Qed.

Lemma scan_lines_app_none (a b : list jsstring) :
  snd (scan_lines (a ++ b)) = None ->
  snd (scan_lines a) = None /\ snd (scan_lines b) = None.
Proof.
  unfold scan_lines. rewrite filter_app, map_app. apply scan_app_none.
Qed.

(** The reads of the [for] loop and of the [while] loop behind it: none
    when a frame of the lines ends the stream. *)
Lemma run_for_reads (chunks : list read_result) (td : TextDecoder.t)
    (buffer : jsstring) (n : nat) (unread : list read_result) :
  (forall st fuel r st',
     pending st = chunks ->
     collect_after fuel (while_true td buffer chunks st) = Some (r, st') ->
     reads st' = reads st + n /\ pending st' = unread) ->
  forall lines st fuel r st',
    pending st = chunks ->
    collect_after fuel
      (run_for lines buffer td st (while_true td buffer chunks)) =
      Some (r, st') ->
    match snd (scan_lines lines) with
    | Some _ => reads st' = reads st /\ pending st' = chunks
    | None => reads st' = reads st + n /\ pending st' = unread
    end.
Proof.
  intros Hk lines.
  induction lines as [|line rest IH]; intros st fuel r st' Hp Hc.
  - unfold run_for in Hc. simpl for_of in Hc.
    exact (Hk st fuel r st' Hp Hc).
  - unfold run_for in Hc. rewrite for_of_cons in Hc.
    destruct (is_frame line) eqn:Hf.
    + rewrite (scan_lines_frame _ _ Hf).
      destruct (JSON.parse (payload line)) as [data|].
      * set (st1 := set_gen (SuspendedYield data rest buffer td) st) in *.
        assert (Hnext : next st1 =
                  match is_terminal data with
                  | None => (finally st1, Raised TypeError)
                  | Some true => (finally st1, Done)
                  | Some false =>
                      run_for rest buffer td st1 (while_true td buffer chunks)
                  end).
        { unfold next. simpl gen. simpl pending. rewrite Hp. reflexivity. }
        cbn [collect_after] in Hc.
        destruct fuel as [|fuel]; [discriminate Hc|].
        rewrite collect_S, Hnext in Hc.
        destruct (is_terminal data) as [[|]|] eqn:Ht.
        -- cbn [collect_after] in Hc. injection Hc as _ <-.
           split; [reflexivity|exact Hp].
        -- destruct (collect_after fuel
                       (run_for rest buffer td st1
                          (while_true td buffer chunks)))
             as [[[evs o] s]|] eqn:E; [|discriminate Hc].
           injection Hc as _ <-.
           pose proof (IH st1 fuel _ s Hp E) as H.
           destruct (scan_lines rest) as [evs' o']. exact H.
        -- cbn [collect_after] in Hc. injection Hc as _ <-.
           split; [reflexivity|exact Hp].
      * cbn [collect_after] in Hc. injection Hc as _ <-.
        split; [reflexivity|exact Hp].
    + rewrite (scan_lines_skip _ _ Hf).
      exact (IH st fuel r st' Hp Hc).
Qed.

Lemma while_true_reads (chunks : list read_result) :
  forall (td : TextDecoder.t) (buffer : jsstring) st fuel r st',
    pending st = chunks ->
    collect_after fuel (while_true td buffer chunks st) = Some (r, st') ->
    reads st' = reads st + fst (loop_reads td buffer chunks) /\
    pending st' = snd (loop_reads td buffer chunks).
Proof.
  induction chunks as [|[value|] rest IH];
    intros td buffer st fuel r st' Hp Hc.
  - cbn [while_true collect_after] in Hc. injection Hc as _ <-.
    cbn. split; [lia|reflexivity].
  - cbn [while_true loop_reads] in *.
    destruct (TextDecoder.decode_stream td value) as [td' text].
    pose proof (run_for_reads rest td' (partial_line (buffer ++ text))
                  _ _ (IH td' (partial_line (buffer ++ text)))
                  (complete_lines (buffer ++ text)) (did_read rest st)
                  fuel r st' eq_refl Hc) as H.
    destruct (snd (scan_lines (complete_lines (buffer ++ text)))).
    + cbn in H |- *. destruct H as [Hr Hq]. split; [lia|exact Hq].
    + destruct (loop_reads td' (partial_line (buffer ++ text)) rest)
        as [n unread].
      cbn in H |- *. destruct H as [Hr Hq]. split; [lia|exact Hq].
  - cbn [while_true collect_after] in Hc. injection Hc as _ <-.
    cbn. split; [lia|reflexivity].
Qed.

(** The reads of a body whose read fails behind the chunks [cs]: what
    comes behind the failure is never read, and every chunk is read when
    no frame ends the stream. *)
Lemma loop_reads_failure (cs : list bytes) (rest : list read_result) :
  forall (td : TextDecoder.t) (buffer : jsstring),
    exists unread,
      snd (loop_reads td buffer (map Chunk cs ++ ReadError :: rest)) =
        unread ++ rest /\
      fst (loop_reads td buffer (map Chunk cs ++ ReadError :: rest)) +
        length unread = S (length cs).
Proof.
  induction cs as [|c cs IH]; intros td buffer.
  - exists []. split; reflexivity.
  - simpl map. rewrite <- app_comm_cons. cbn [loop_reads].
    destruct (TextDecoder.decode_stream td c) as [td1 t1].
    destruct (snd (scan_lines (complete_lines (buffer ++ t1)))).
    + exists (map Chunk cs ++ [ReadError]). cbn [fst snd]. split.
      * rewrite <- app_assoc. reflexivity.
      * rewrite length_app, length_map. simpl. lia.
    + destruct (IH td1 (partial_line (buffer ++ t1))) as (unread & Hs & Hn).
      destruct (loop_reads td1 (partial_line (buffer ++ t1))
                  (map Chunk cs ++ ReadError :: rest)) as [n u].
      simpl in Hs, Hn |- *. exists unread. split; [exact Hs|lia].
Qed.

Lemma loop_reads_all (cs : list bytes) (rest : list read_result) :
  forall (td : TextDecoder.t) (buffer : jsstring),
    has_LF buffer = false ->
    snd (scan_lines (complete_lines
           (buffer ++ snd (TextDecoder.decode_stream td (concat cs))))) =
      None ->
    loop_reads td buffer (map Chunk cs ++ ReadError :: rest) =
    (S (length cs), rest).
Proof.
  induction cs as [|c cs IH]; intros td buffer Hb Hs; [reflexivity|].
  simpl map. rewrite <- app_comm_cons. cbn [loop_reads].
  simpl concat in Hs. rewrite decode_stream_app in Hs.
  destruct (TextDecoder.decode_stream td c) as [td1 t1].
  destruct (TextDecoder.decode_stream td1 (concat cs)) as [td2 t2] eqn:E2.
  cbn [fst snd] in Hs.
  rewrite app_assoc, (complete_lines_app (buffer ++ t1) t2) in Hs.
  apply scan_lines_app_none in Hs. destruct Hs as [H1 H2].
  rewrite H1.
  rewrite (IH td1 (partial_line (buffer ++ t1)) (partial_line_no_LF _)).
  - reflexivity.
  - rewrite E2. exact H2.
Qed.

(** X5.  When a [reader.read()] rejects after the chunks [cs], the events
    are those of the complete lines of [cs], in order, and the run ends
    with the rejection, unless a frame of [cs] has ended the stream
    before; the line left unfinished is dropped and the reader is
    released once.  What the body holds behind the failure is never read:
    it is still with the reader at the end, behind what a frame that
    ended the stream left unread, and the reads made and the reads left
    unmade are together the chunks [cs] and the read that fails.  When no
    frame ends the stream the reads are exactly those. *)
Theorem read_failure_ends_the_stream (response : Response)
    (cs : list bytes) (rest : list read_result) :
  ok response = true ->
  body response = Some (map Chunk cs ++ ReadError :: rest) ->
  exists st',
    collect
      (S (length (fst (then_ (scan_lines (complete_lines
                                (text_of (concat cs))))
                         ([], Threw NetworkError)))))
      (queryStream (Normal response)) =
    Some (fst (then_ (scan_lines (complete_lines (text_of (concat cs))))
                 ([], Threw NetworkError)),
          snd (then_ (scan_lines (complete_lines (text_of (concat cs))))
                 ([], Threw NetworkError)), st') /\
    gen st' = Completed /\ releases st' = 1 /\ acquired st' = 1 /\
    (forall evs,
       scan_lines (complete_lines (text_of (concat cs))) = (evs, None) ->
       collect (S (length evs)) (queryStream (Normal response)) =
       Some (evs, Threw NetworkError, st')) /\
    (exists unread,
       pending st' = unread ++ rest /\
       reads st' + length unread = S (length cs)) /\
    (forall evs,
       scan_lines (complete_lines (text_of (concat cs))) = (evs, None) ->
       reads st' = S (length cs) /\ pending st' = rest).
Proof.
  intros Hok Hbody.
  pose proof (loop_meaning_then cs (ReadError :: rest) TextDecoder.create []
                eq_refl) as Hl.
  cbn [app] in Hl.
  assert (Ht : snd (TextDecoder.decode_stream TextDecoder.create (concat cs))
               = text_of (concat cs)) by reflexivity.
  rewrite Ht in Hl. cbn [loop_meaning] in Hl.
  destruct (collect_body response _ _ Hok Hbody (le_n _))
    as (st' & Hc & Hg & Hr & Ha).
  assert (Hreads :
            reads st' =
              fst (loop_reads TextDecoder.create []
                     (map Chunk cs ++ ReadError :: rest)) /\
            pending st' =
              snd (loop_reads TextDecoder.create []
                     (map Chunk cs ++ ReadError :: rest))).
  { rewrite collect_S in Hc. unfold next in Hc.
    cbn [gen queryStream] in Hc. rewrite Hok, Hbody in Hc. cbn [negb] in Hc.
    exact (while_true_reads _ TextDecoder.create [] _ _ _ st' eq_refl Hc). }
  destruct Hreads as [Hrd Hpd].
  rewrite Hl in Hc.
  exists st'. split; [exact Hc|]. split; [exact Hg|]. split; [exact Hr|].
  split; [exact Ha|]. split; [|split].
  - intros evs Hs. rewrite Hs in Hc. cbn [then_ fst snd] in Hc.
    rewrite app_nil_r in Hc. exact Hc.
  - destruct (loop_reads_failure cs rest TextDecoder.create [])
      as (unread & Hs & Hn).
    exists unread. rewrite Hpd, Hrd. split; assumption.
  - intros evs Hs.
    rewrite Hrd, Hpd, (loop_reads_all cs rest TextDecoder.create [] eq_refl).
    + split; reflexivity.
    + cbn [app]. rewrite Ht, Hs. reflexivity.
Qed.

(** The body of the witness fails at its second read: the chunk behind
    the failure is still with the reader at the end. *)
Lemma read_failure_ends_the_stream_witness :
  exists st',
    collect 2
      (queryStream
         (Normal {| status := 200; statusText := js "OK";
                    body := Some (map Chunk
                                    [wire "data: {'type':'answer','data':'a'}|data: {'ty"]
                                  ++ ReadError
                                  :: [Chunk (wire "pe':'done'}|")]) |})) =
    Some ([JObject [(js "type", JString (js "answer"));
                    (js "data", JString (js "a"))]],
          Threw NetworkError, st') /\
    gen st' = Completed /\ releases st' = 1 /\ acquired st' = 1 /\
    reads st' = 2 /\ pending st' = [Chunk (wire "pe':'done'}|")].
Proof.
  destruct (read_failure_ends_the_stream
              {| status := 200; statusText := js "OK";
                 body := Some (map Chunk
                                 [wire "data: {'type':'answer','data':'a'}|data: {'ty"]
                               ++ ReadError
                               :: [Chunk (wire "pe':'done'}|")]) |}
              [wire "data: {'type':'answer','data':'a'}|data: {'ty"]
              [Chunk (wire "pe':'done'}|")] eq_refl eq_refl)
    as (st' & Hc & Hg & Hr & Ha & _ & _ & Hall).
  exists st'.
  split; [exact Hc|]. split; [exact Hg|]. split; [exact Hr|].
  split; [exact Ha|]. exact (Hall _ eq_refl).
Defined.

(** ** [queryStream]: events are delivered as their chunk arrives *)

Lemma for_of_skip (skipped : list jsstring) (rest : list jsstring) :
  Forall (fun l => is_frame l = false) skipped ->
  for_of (skipped ++ rest) = for_of rest.
Proof.
  induction 1 as [|l ls Hl _ IH]; [reflexivity|].
  rewrite <- app_comm_cons, for_of_cons, Hl. exact IH.
Qed.

Lemma for_of_reaches (skipped after : list jsstring) (p : jsstring)
    (v : value) :
  Forall (fun l => is_frame l = false) skipped ->
  JSON.parse p = Some v ->
  for_of (skipped ++ (prefix ++ p) :: after) = ForYield v after.
Proof.
  intros Hs Hp. rewrite (for_of_skip _ _ Hs), for_of_cons.
  rewrite is_frame_prefix, payload_prefix, Hp. reflexivity.
Qed.

(** X6.  An event is delivered with the chunk that completes its line.
    When the first chunk holds a complete frame, the first pull yields its
    event after exactly one read, whatever the later reads would give; and
    a pull that finds another frame among the lines already split yields
    it without any read. *)
Theorem event_delivered_with_its_chunk :
  (forall response c rest skipped p after v,
     ok response = true ->
     body response = Some (Chunk c :: rest) ->
     complete_lines (text_of c) = skipped ++ (prefix ++ p) :: after ->
     Forall (fun l => is_frame l = false) skipped ->
     JSON.parse p = Some v ->
     exists st',
       next (queryStream (Normal response)) = (st', Yielded v) /\
       reads st' = 1 /\ pending st' = rest /\
       acquired st' = 1 /\ releases st' = 0) /\
  (forall st v buffer td skipped p after v',
     gen st = SuspendedYield v (skipped ++ (prefix ++ p) :: after) buffer td ->
     is_terminal v = Some false ->
     Forall (fun l => is_frame l = false) skipped ->
     JSON.parse p = Some v' ->
     exists st',
       next st = (st', Yielded v') /\
       gen st' = SuspendedYield v' after buffer td /\
       reads st' = reads st /\ pending st' = pending st /\
       acquired st' = acquired st /\ releases st' = releases st).
Proof.
  split.
  - intros response c rest skipped p after v Hok Hb Hl Hs Hp.
    unfold next. cbn [gen queryStream]. rewrite Hok, Hb. cbn [negb].
    cbn [while_true].
    unfold text_of, complete_lines in Hl.
    destruct (TextDecoder.decode_stream TextDecoder.create c) as [td1 t1].
    cbn [snd app] in *.
    unfold run_for. rewrite Hl, (for_of_reaches _ _ _ _ Hs Hp).
    eexists. split; [reflexivity|]. repeat split.
  - intros st v buffer td skipped p after v' Hg Ht Hs Hp.
    unfold next. rewrite Hg, Ht. unfold run_for.
    rewrite (for_of_reaches _ _ _ _ Hs Hp).
    eexists. split; [reflexivity|]. repeat split.
Qed.

Lemma event_delivered_with_its_chunk_witness :
  exists st',
    next (queryStream
            (Normal {| status := 200; statusText := js "OK";
                       body := Some [Chunk (wire ": ping|data: {'type':'answer','data':'a'}|da");
                                     ReadError] |})) =
      (st', Yielded (JObject [(js "type", JString (js "answer"));
                              (js "data", JString (js "a"))])) /\
    reads st' = 1 /\ pending st' = [ReadError] /\
    acquired st' = 1 /\ releases st' = 0.
Proof.
  refine (proj1 event_delivered_with_its_chunk
            {| status := 200; statusText := js "OK";
               body := Some [Chunk (wire ": ping|data: {'type':'answer','data':'a'}|da");
                             ReadError] |}
            (wire ": ping|data: {'type':'answer','data':'a'}|da")
            [ReadError] [js ": ping"] (jsq "{'type':'answer','data':'a'}") []
            _ eq_refl eq_refl eq_refl _ eq_refl).
  repeat constructor.
Defined.

(** ** [queryStream]: line endings *)

Lemma startsWith_snoc (p x : jsstring) (c : code_unit) :
  existsb (N.eqb c) p = false ->
  startsWith (x ++ [c]) p = startsWith x p.
Proof.
  revert x. induction p as [|a p IH]; intros x Hc; [reflexivity|].
  simpl in Hc. apply orb_false_iff in Hc. destruct Hc as [Ha Hp].
  destruct x as [|y x].
  - simpl. rewrite N.eqb_sym, Ha. reflexivity.
  - simpl. rewrite (IH x Hp). reflexivity.
Qed.

Lemma startsWith_split (p s : jsstring) :
  startsWith s p = true -> s = p ++ skipn (length p) s.
Proof.
  revert s. induction p as [|a p IH]; intros s H; [reflexivity|].
  destruct s as [|y s]; [discriminate|].
  simpl in H. apply andb_true_iff in H. destruct H as [Ha Hs].
  apply N.eqb_eq in Ha. subst y. simpl. f_equal. apply IH, Hs.
Qed.

Lemma has_LF_app (a b : jsstring) : has_LF (a ++ b) = has_LF a || has_LF b.
Proof. apply existsb_app. Qed.

Lemma crlf_as_lf (ls : list jsstring) :
  crlf_lines ls = lf_lines (map (fun l => l ++ [CR]) ls).
Proof.
  unfold crlf_lines, lf_lines.
  induction ls as [|l ls IH]; [reflexivity|].
  simpl. rewrite IH, <- !app_assoc. reflexivity.
Qed.

(** A carriage return at the end of a line changes neither whether the
    line is a frame nor what its payload denotes. *)
Lemma scan_lines_CR (ls : list jsstring) :
  scan_lines (map (fun l => l ++ [CR]) ls) = scan_lines ls.
Proof.
  induction ls as [|l ls IH]; [reflexivity|].
  cbn [map].
  destruct (is_frame l) eqn:Hf.
  - assert (Hf' : is_frame (l ++ [CR]) = true).
    { unfold is_frame. rewrite startsWith_snoc by reflexivity. exact Hf. }
    rewrite (scan_lines_frame _ _ Hf'), (scan_lines_frame _ _ Hf), IH.
    pose proof (startsWith_split _ _ Hf) as Hl.
    rewrite Hl at 1. rewrite <- app_assoc, payload_prefix.
    rewrite (JSONWhitespace.parse_tail_ws [CR] eq_refl).
    rewrite Hl at 2. rewrite payload_prefix. reflexivity.
  - assert (Hf' : is_frame (l ++ [CR]) = false).
    { unfold is_frame. rewrite startsWith_snoc by reflexivity. exact Hf. }
    rewrite (scan_lines_skip _ _ Hf'), (scan_lines_skip _ _ Hf). exact IH.
Qed.

Lemma lines_of_lf_text (ls : list jsstring) (fragment : jsstring) :
  Forall (fun l => has_LF l = false) ls ->
  has_LF fragment = false ->
  complete_lines (lf_lines ls ++ fragment) = ls.
Proof.
  intros Hls Hf. unfold lf_lines.
  rewrite (complete_lines_terminated _ _ Hls).
  destruct (no_LF_lines _ Hf) as [-> _]. apply app_nil_r.
Qed.

(** X7.  Lines that end in a carriage return and a line feed give the
    same events, in the same order and with the same ending, as the same
    lines ending in a line feed alone: [JSON.parse] takes the carriage
    return left at the end of a payload as white space, and lines that are
    no frames stay no frames. *)
Theorem carriage_returns_are_tolerated (r1 r2 : Response)
    (cs1 cs2 : list bytes) (ls : list jsstring) (f1 f2 : jsstring) :
  ok r1 = true -> body r1 = Some (map Chunk cs1) ->
  ok r2 = true -> body r2 = Some (map Chunk cs2) ->
  Forall (fun l => has_LF l = false) ls ->
  has_LF f1 = false -> has_LF f2 = false ->
  text_of (concat cs1) = lf_lines ls ++ f1 ->
  text_of (concat cs2) = crlf_lines ls ++ f2 ->
  exists evs o st1 st2,
    (evs, o) = then_ (scan_lines ls) ([], Returned) /\
    collect (S (length evs)) (queryStream (Normal r1)) = Some (evs, o, st1) /\
    collect (S (length evs)) (queryStream (Normal r2)) = Some (evs, o, st2).
Proof.
  intros Hok1 Hb1 Hok2 Hb2 Hls Hf1 Hf2 Ht1 Ht2.
  assert (Hls' : Forall (fun l => has_LF l = false)
                   (map (fun l => l ++ [CR]) ls)).
  { apply Forall_map. revert Hls. apply Forall_impl.
    intros l Hl. rewrite has_LF_app, Hl. reflexivity. }
  assert (H1 : classify (frames (text_of (concat cs1))) =
               then_ (scan_lines ls) ([], Returned)).
  { rewrite classify_frames, Ht1, (lines_of_lf_text _ _ Hls Hf1).
    reflexivity. }
  assert (H2 : classify (frames (text_of (concat cs2))) =
               then_ (scan_lines ls) ([], Returned)).
  { rewrite classify_frames, Ht2, crlf_as_lf,
      (lines_of_lf_text _ _ Hls' Hf2), scan_lines_CR.
    reflexivity. }
  destruct (collect_stream r1 cs1 _ Hok1 Hb1 (le_n _)) as (st1 & Hc1 & _).
  destruct (collect_stream r2 cs2 _ Hok2 Hb2 (le_n _)) as (st2 & Hc2 & _).
  rewrite H1 in Hc1. rewrite H2 in Hc2.
  destruct (then_ (scan_lines ls) ([], Returned)) as [evs o].
  exists evs, o, st1, st2. repeat split; assumption.
Qed.

Lemma carriage_returns_are_tolerated_witness :
  exists evs o st1 st2,
    (evs, o) =
      then_ (scan_lines [jsq "data: {'type':'answer','data':'a'}";
                         js "";
                         jsq "data: {'type':'done'}"]) ([], Returned) /\
    collect (S (length evs))
      (queryStream (streaming
         [wire "data: {'type':'answer','data':'a'}||data: {'type':'done'}|"]))
      = Some (evs, o, st1) /\
    collect (S (length evs))
      (queryStream (streaming
         [map (fun b => match b with x21 => x0d | _ => b end)
            (wire "data: {'type':'answer','data':'a'}!|!|data: {'type':'done'}!|")]))
      = Some (evs, o, st2).
Proof.
  refine (carriage_returns_are_tolerated
            {| status := 200; statusText := js "OK";
               body := Some (map Chunk
                 [wire "data: {'type':'answer','data':'a'}||data: {'type':'done'}|"]) |}
            {| status := 200; statusText := js "OK";
               body := Some (map Chunk
                 [map (fun b => match b with x21 => x0d | _ => b end)
                    (wire "data: {'type':'answer','data':'a'}!|!|data: {'type':'done'}!|")]) |}
            [wire "data: {'type':'answer','data':'a'}||data: {'type':'done'}|"]
            [map (fun b => match b with x21 => x0d | _ => b end)
               (wire "data: {'type':'answer','data':'a'}!|!|data: {'type':'done'}!|")]
            [jsq "data: {'type':'answer','data':'a'}";
             js "";
             jsq "data: {'type':'done'}"] [] []
            eq_refl eq_refl eq_refl eq_refl _ eq_refl eq_refl eq_refl eq_refl).
  repeat constructor.
Defined.

End ApiProperties.

(* ================================================================== *)
(** * Properties of [handleSubmit] *)
(* ================================================================== *)

Module HandleSubmitProperties.
Import JS.
Import JSON.
Import Api.
Import Lines.
Import LinesFacts.
Import Stream.
Import StreamFacts.
Import HeadingsFacts.
Import HandleSubmit.

Lemma queryStream_inv (fetch : completion Response) :
  reader_inv (queryStream fetch).
Proof. split; reflexivity. Qed.

(** Every request ends the generator within finitely many pulls. *)
Lemma collect_total (fetch : completion Response) :
  exists n evs o s,
    forall m, n <= m -> collect m (queryStream fetch) = Some (evs, o, s).
Proof.
  destruct fetch as [response|e].
  - destruct (ok response) eqn:Hok.
    + destruct (body response) as [chunks|] eqn:Hb.
      * destruct (collect_body response chunks _ Hok Hb (le_n _))
          as (st' & Hc & _).
        eexists. eexists. eexists. eexists. intros m Hm.
        exact (collect_mono _ _ _ _ Hc Hm).
      * destruct (ApiTheorems.failed_request_yields_nothing response
                    (or_intror Hb)) as (e & Hc & _).
        exists 1. eexists. eexists. eexists. intros m Hm.
        destruct m as [|m]; [lia|]. apply Hc.
    + destruct (ApiTheorems.failed_request_yields_nothing response
                  (or_introl Hok)) as (e & Hc & _).
      exists 1. eexists. eexists. eexists. intros m Hm.
      destruct m as [|m]; [lia|]. apply Hc.
  - exists 1, [], (Threw e), (close (queryStream (Throw e))).
    intros m Hm. destruct m as [|m]; [lia|]. reflexivity.
Qed.

Lemma classify_ending (ps : list jsstring) :
  snd (classify ps) = Returned \/
  snd (classify ps) = Threw SyntaxError \/
  snd (classify ps) = Threw TypeError.
Proof.
  unfold classify.
  induction ps as [|p ps IH]; [left; reflexivity|].
  simpl. destruct (JSON.parse p) as [data|]; [|right; left; reflexivity].
  destruct (is_terminal data) as [[|]|];
    [left; reflexivity| |right; right; reflexivity].
  destruct (scan ps) as [evs o]. exact IH.
Qed.

Lemma not_blank (q : jsstring) :
  forallb is_whitespace q = false -> JS.eqb (trim q) [] = false.
Proof.
  intros H. destruct (JS.eqb (trim q) []) eqn:E; [|reflexivity].
  apply eqb_nil, trim_nil_iff in E. congruence.
Qed.

Lemma blank (q : jsstring) :
  forallb is_whitespace q = true -> JS.eqb (trim q) [] = true.
Proof. intros H. apply eqb_nil, trim_nil_iff, H. Qed.

Lemma is_string_inv (ty : option value) (lit : jsstring) :
  is_string ty lit = true -> ty = Some (JString lit).
Proof.
  destruct ty as [[| | |s| |]|]; try discriminate.
  simpl. intros H. apply eqb_eq in H. subst. reflexivity.
Qed.

Section Submit.

Variable Number_toString : number -> jsstring.
Variable performance_now : nat -> number.

Local Abbreviation on_event :=
  (HandleSubmit.on_event Number_toString performance_now).
Local Abbreviation for_await :=
  (HandleSubmit.for_await Number_toString performance_now).
Local Abbreviation consume :=
  (HandleSubmit.consume Number_toString performance_now).
Local Abbreviation on_catch := (HandleSubmit.on_catch Number_toString).
Local Abbreviation settle := (HandleSubmit.settle Number_toString).
Local Abbreviation entry := (HandleSubmit.entry performance_now).
Local Abbreviation handleSubmit :=
  (HandleSubmit.handleSubmit Number_toString performance_now).

(** The loop over a generator does what [consume] does over the events
    and the ending of its run, and leaves the generator completed with
    its reader released. *)
Lemma for_await_consume (n : nat) :
  forall st evs o s0,
    reader_inv st ->
    collect n st = Some (evs, o, s0) ->
    forall s,
      exists st',
        for_await n st s = Some (consume evs o s, st') /\
        reader_inv st' /\ gen st' = Completed.
Proof.
  induction n as [|n IH]; intros st evs o s0 Hinv Hc s; [discriminate|].
  rewrite collect_S in Hc. cbn [HandleSubmit.for_await].
  destruct (next_inv st Hinv) as [Hinv1 Hdone].
  destruct (next st) as [st1 [v| |e]]; cbn [collect_after fst snd] in *.
  - destruct (collect n st1) as [[[evs' o'] s']|] eqn:E; [|discriminate].
    injection Hc as <- <- <-. cbn [HandleSubmit.consume].
    destruct (on_event s v) as [s1|e1].
    + exact (IH st1 evs' o' s' Hinv1 E s1).
    + exists (return_ st1). split; [reflexivity|].
      apply return_inv, Hinv1.
  - injection Hc as <- <- <-. exists st1. repeat split; assumption.
  - injection Hc as <- <- <-. exists st1. repeat split; assumption.
Qed.

(** What the loop body never touches. *)
Lemma on_event_frame (s s' : ui * locals) (event : value) :
  on_event s event = Normal s' ->
  query (fst s') = query (fst s) /\
  loading (fst s') = loading (fst s) /\
  shareError (fst s') = shareError (fst s).
Proof.
  destruct s as [u l]. unfold HandleSubmit.on_event.
  destruct (get event (js "type")) as [ty|]; [|discriminate].
  destruct (is_string ty (js "sources")).
  { destruct (get event (js "data")); [|discriminate].
    intros H. injection H as <-. repeat split. }
  destruct (is_string ty (js "answer")).
  { destruct (get event (js "data")) as [d|]; [|discriminate].
    destruct (add Number_toString (fullAnswer l) d); [|discriminate].
    intros H. injection H as <-. repeat split. }
  destruct (is_string ty (js "done")).
  { intros H. injection H as <-. repeat split. }
  destruct (is_string ty (js "error")).
  { destruct (get event (js "data")); [|discriminate].
    intros H. injection H as <-. repeat split. }
  intros H. injection H as <-. repeat split.
Qed.

Lemma consume_frame (evs : list value) (o : ending) :
  forall s,
    query (fst (fst (consume evs o s))) = query (fst s) /\
    loading (fst (fst (consume evs o s))) = loading (fst s) /\
    shareError (fst (fst (consume evs o s))) = shareError (fst s).
Proof.
  induction evs as [|event evs IH]; intros s; [repeat split|].
  cbn [HandleSubmit.consume].
  destruct (on_event s event) as [s'|e] eqn:E; [|repeat split].
  destruct (on_event_frame _ _ _ E) as (Hq & Hl & Hs).
  destruct (IH s') as (Hq' & Hl' & Hs').
  repeat split; congruence.
Qed.

Lemma settle_frame (r : ui * locals * ending) :
  query (settle r) = query (fst (fst r)) /\
  loading (settle r) = false /\
  shareError (settle r) = shareError (fst (fst r)).
Proof.
  destruct r as [[u l] [|e]]; [repeat split|].
  cbn [HandleSubmit.settle fst].
  destruct e as [m st d| | | |]; cbn [HandleSubmit.on_catch];
    [destruct (ToString Number_toString m)|..]; repeat split.
Qed.

(** ** The guard *)

(** X8.  A query that is empty or holds white space only is not
    submitted: [handleSubmit] makes no request and leaves the component
    as it is, an error of an earlier query included. *)
Theorem blank_query_is_not_submitted (u : ui) (fuel : nat)
    (fetch : completion Response) :
  forallb is_whitespace (query u) = true ->
  handleSubmit fuel fetch u = Some (u, None).
Proof.
  intros H. unfold HandleSubmit.handleSubmit. rewrite (blank _ H).
  reflexivity.
Qed.

(** ** Every submission settles *)

(** X9.  Whatever the outcome of the request (a rejected [fetch], an
    error response, a body whose chunks arrive or fail in any way),
    [handleSubmit] on a query that is not blank comes to its end: the
    loading flag is false again, the share error is cleared, the query is
    untouched, and the generator is completed with its reader released as
    often as it was acquired. *)
Theorem submission_always_settles (fetch : completion Response) (u : ui) :
  forallb is_whitespace (query u) = false ->
  exists n,
    forall m, n <= m ->
      exists u' st',
        handleSubmit m fetch u = Some (u', Some st') /\
        loading u' = false /\
        shareError u' = None /\
        query u' = query u /\
        gen st' = Completed /\
        releases st' = acquired st' /\
        acquired st' <= 1.
Proof.
  intros Hq.
  destruct (collect_total fetch) as (n & evs & o & s0 & Hc).
  exists n. intros m Hm.
  destruct (for_await_consume m _ _ _ _ (queryStream_inv fetch) (Hc m Hm)
              (reset u, entry)) as (st' & Hf & Hinv & Hg).
  exists (settle (consume evs o (reset u, entry))), st'.
  unfold HandleSubmit.handleSubmit. rewrite (not_blank _ Hq), Hf.
  destruct (settle_frame (consume evs o (reset u, entry))) as (H1 & H2 & H3).
  destruct (consume_frame evs o (reset u, entry)) as (H4 & _ & H6).
  unfold reader_inv in Hinv. rewrite Hg in Hinv. destruct Hinv as [Ha Hr].
  repeat split; try assumption.
  - rewrite H3, H6. reflexivity.
  - rewrite H1, H4. reflexivity.
Qed.

(** ** What the events make of the component *)

Lemma last_data_other (kind other : jsstring) (event : value)
    (evs : list value) :
  is_string (match get event (js "type") with
             | Some ty => ty
             | None => None
             end) other = true ->
  JS.eqb other kind = false ->
  last_data kind (event :: evs) = last_data kind evs.
Proof.
  intros Ht Hk. cbn [last_data].
  destruct (last_data kind evs); [reflexivity|].
  destruct (get event (js "type")) as [ty|]; [|reflexivity].
  apply is_string_inv in Ht. subst ty.
  destruct (get event (js "data")); [|reflexivity].
  cbn [is_string]. rewrite Hk. reflexivity.
Qed.

(** The loop on events that the protocol allows: it throws on none of
    them; the answer is the text of the answer events, appended in order;
    the sources and the error are the data of the last event of their
    type. *)
Lemma consume_well_formed (evs : list value) (o : ending) :
  forall u l,
    forallb well_formed evs = true ->
    answer u = fullAnswer l ->
    exists u' l',
      consume evs o (u, l) = (u', l', o) /\
      answer u' = answer u ++ answer_text evs /\
      sources u' = match last_data (js "sources") evs with
                   | Some d => d
                   | None => sources u
                   end /\
      error u' = match last_data (js "error") evs with
                 | Some d => d
                 | None => error u
                 end.
Proof.
  induction evs as [|event evs IH]; intros u l Hwf Ha.
  - exists u, l. cbn. rewrite app_nil_r. repeat split.
  - cbn [forallb] in Hwf. apply andb_true_iff in Hwf.
    destruct Hwf as [Hev Hwf].
    destruct event as [| | | | |ms]; try discriminate.
    cbn [HandleSubmit.consume HandleSubmit.on_event get].
    unfold answer_text. cbn [flat_map get]. fold (answer_text evs).
    cbn [well_formed] in Hev.
    destruct (is_string (lookup (js "type") ms) (js "sources")) eqn:Es.
    { pose proof (is_string_inv _ _ Es) as Ety.
      destruct (IH (setSources (lookup (js "data") ms) u) l Hwf Ha)
        as (u' & l' & Hc & Hans & Hsrc & Herr).
      exists u', l'. rewrite Hc, Hans, Hsrc, Herr.
      rewrite (last_data_other (js "error") (js "sources") (JObject ms) evs)
        by (cbn [get]; first [exact Es|reflexivity]).
      cbn [last_data get]. rewrite Es, Ety. cbn [is_string].
      change (JS.eqb (js "sources") (js "answer")) with false.
      cbn [setSources answer sources error].
      repeat split.
      - destruct (lookup (js "data") ms) as [[| | | | |]|]; reflexivity.
      - destruct (last_data (js "sources") evs); reflexivity. }
    destruct (is_string (lookup (js "type") ms) (js "answer")) eqn:Ea.
    { pose proof (is_string_inv _ _ Ea) as Ety.
      destruct (lookup (js "data") ms) as [[| | |text| |]|] eqn:Ed;
        try discriminate.
      cbn [add ToString].
      destruct (IH (setAnswer (fullAnswer l ++ text) u)
                  {| fullAnswer := fullAnswer l ++ text;
                     startedAt := startedAt l; ticks := ticks l |}
                  Hwf eq_refl)
        as (u' & l' & Hc & Hans & Hsrc & Herr).
      exists u', l'. rewrite Hc, Hans, Hsrc, Herr.
      rewrite (last_data_other (js "error") (js "answer") (JObject ms) evs)
        by (cbn [get]; first [exact Ea|reflexivity]).
      rewrite (last_data_other (js "sources") (js "answer") (JObject ms) evs)
        by (cbn [get]; first [exact Ea|reflexivity]).
      cbn [setAnswer answer sources error]. rewrite Ha, app_assoc.
      repeat split. }
    destruct (is_string (lookup (js "type") ms) (js "done")) eqn:Edone.
    { pose proof (is_string_inv _ _ Edone) as Ety.
      match goal with
      | |- context [HandleSubmit.consume _ _ evs o (?u1, ?l1)] =>
          destruct (IH u1 l1 Hwf Ha) as (u' & l' & Hc & Hans & Hsrc & Herr)
      end.
      exists u', l'. rewrite Hc, Hans, Hsrc, Herr.
      rewrite (last_data_other (js "error") (js "done") (JObject ms) evs)
        by (cbn [get]; first [exact Edone|reflexivity]).
      rewrite (last_data_other (js "sources") (js "done") (JObject ms) evs)
        by (cbn [get]; first [exact Edone|reflexivity]).
      cbn [setProcessingTime answer sources error].
      repeat split.
      destruct (lookup (js "data") ms) as [[| | | | |]|]; reflexivity. }
    destruct (is_string (lookup (js "type") ms) (js "error")) eqn:Ee.
    { pose proof (is_string_inv _ _ Ee) as Ety.
      destruct (IH (setError (lookup (js "data") ms) u) l Hwf Ha)
        as (u' & l' & Hc & Hans & Hsrc & Herr).
      exists u', l'. rewrite Hc, Hans, Hsrc, Herr.
      rewrite (last_data_other (js "sources") (js "error") (JObject ms) evs)
        by (cbn [get]; first [exact Ee|reflexivity]).
      cbn [last_data get]. rewrite Ee.
      cbn [setError answer sources error].
      repeat split.
      - destruct (lookup (js "data") ms) as [[| | | | |]|]; reflexivity.
      - destruct (last_data (js "error") evs); reflexivity. }
    destruct (IH u l Hwf Ha) as (u' & l' & Hc & Hans & Hsrc & Herr).
    exists u', l'. rewrite Hc, Hans, Hsrc, Herr.
    cbn [last_data get]. rewrite Es, Ee.
    repeat split.
    + destruct (lookup (js "data") ms) as [[| | | | |]|]; reflexivity.
    + destruct (last_data (js "sources") evs); [reflexivity|].
      destruct (lookup (js "data") ms); reflexivity.
    + destruct (last_data (js "error") evs); [reflexivity|].
      destruct (lookup (js "data") ms); reflexivity.
Qed.

(** X10.  On a stream of events that the protocol allows (objects, the
    data of an answer event a string), [handleSubmit] ends with the answer
    that is the text of the answer events in their order, with the sources
    of the last sources event, and with loading off.  When the stream
    ends well the error is the data of its error event, or stays [null];
    when it ends on a frame that is no JSON text the error is the fixed
    text and the answer received so far stays in place. *)
Theorem events_make_the_answer (response : Response) (cs : list bytes)
    (u : ui) :
  forallb is_whitespace (query u) = false ->
  ok response = true ->
  body response = Some (map Chunk cs) ->
  forallb well_formed (fst (classify (frames (text_of (concat cs))))) = true ->
  exists u' st',
    handleSubmit (S (length (fst (classify (frames (text_of (concat cs)))))))
      (Normal response) u = Some (u', Some st') /\
    answer u' = answer_text (fst (classify (frames (text_of (concat cs))))) /\
    sources u' =
      match last_data (js "sources")
              (fst (classify (frames (text_of (concat cs))))) with
      | Some d => d
      | None => Some (JArray [])
      end /\
    error u' =
      match snd (classify (frames (text_of (concat cs)))) with
      | Returned =>
          match last_data (js "error")
                  (fst (classify (frames (text_of (concat cs))))) with
          | Some d => d
          | None => Some JNull
          end
      | Threw _ => Some (JString (js "Failed to process query"))
      end /\
    loading u' = false.
Proof.
  intros Hq Hok Hb Hwf.
  destruct (collect_stream response cs _ Hok Hb (le_n _))
    as (st0 & Hc & _).
  pose proof (classify_ending (frames (text_of (concat cs)))) as Hend.
  destruct (classify (frames (text_of (concat cs)))) as [evs o].
  cbn [fst snd] in *.
  destruct (for_await_consume _ _ _ _ _ (queryStream_inv _) Hc
              (reset u, entry)) as (st' & Hf & _).
  destruct (consume_well_formed evs o (reset u) entry Hwf eq_refl)
    as (u1 & l1 & Hcons & Hans & Hsrc & Herr).
  rewrite Hcons in Hf.
  exists (settle (u1, l1, o)), st'.
  unfold HandleSubmit.handleSubmit. rewrite (not_blank _ Hq), Hf.
  split; [reflexivity|].
  cbn [reset setShareError setProcessingTime setSources setAnswer setError
       setLoading answer sources error app] in Hans, Hsrc, Herr.
  destruct Hend as [->|[->| ->]]; cbn [HandleSubmit.settle
    HandleSubmit.on_catch setLoading setError answer sources error loading];
    repeat split; assumption.
Qed.


End Submit.

(** A number printed as nothing and a clock that stands still: any choice
    will do for the examples. *)
Lemma blank_query_is_not_submitted_witness :
  HandleSubmit.handleSubmit (fun _ => []) (fun _ => S754_zero false) 3
    (streaming [wire "data: {'type':'done'}|"])
    {| query := js "  "; loading := false;
       error := Some (JString (js "earlier failure")); answer := js "old";
       sources := Some (JArray []); processingTime := None;
       shareError := None |} =
  Some ({| query := js "  "; loading := false;
           error := Some (JString (js "earlier failure")); answer := js "old";
           sources := Some (JArray []); processingTime := None;
           shareError := None |}, None).
Proof.
  exact (blank_query_is_not_submitted (fun _ => []) (fun _ => S754_zero false)
           {| query := js "  "; loading := false;
              error := Some (JString (js "earlier failure"));
              answer := js "old"; sources := Some (JArray []);
              processingTime := None; shareError := None |}
           3 (streaming [wire "data: {'type':'done'}|"]) eq_refl).
Defined.

Lemma submission_always_settles_witness :
  exists n,
    forall m, n <= m ->
      exists u' st',
        HandleSubmit.handleSubmit (fun _ => []) (fun _ => S754_zero false) m
          (Normal {| status := 200; statusText := js "OK";
                     body := Some [Chunk (wire "data: {'type':'answer','data':'a'}|");
                                   ReadError] |})
          (initial (js "why?")) = Some (u', Some st') /\
        loading u' = false /\
        shareError u' = None /\
        query u' = js "why?" /\
        gen st' = Completed /\
        releases st' = acquired st' /\
        acquired st' <= 1.
Proof.
  exact (submission_always_settles (fun _ => []) (fun _ => S754_zero false)
           _ (initial (js "why?")) eq_refl).
Defined.

Lemma events_make_the_answer_witness :
  exists u' st',
    HandleSubmit.handleSubmit (fun _ => []) (fun _ => S754_zero false) 5
      (streaming
         [wire "data: {'type':'sources','data':[]}|data: {'type':'answer','data':'Hel";
          wire "lo'}|data: {'type':'answer','data':' world'}|data: {'type':";
          wire "'done'}|"])
      (initial (js "greet")) = Some (u', Some st') /\
    answer u' = js "Hello world" /\
    sources u' = Some (JArray []) /\
    error u' = Some JNull /\
    loading u' = false.
Proof.
  exact (events_make_the_answer (fun _ => []) (fun _ => S754_zero false)
           {| status := 200; statusText := js "OK";
              body := Some (map Chunk
                [wire "data: {'type':'sources','data':[]}|data: {'type':'answer','data':'Hel";
                 wire "lo'}|data: {'type':'answer','data':' world'}|data: {'type':";
                 wire "'done'}|"]) |}
           _ (initial (js "greet")) eq_refl eq_refl eq_refl eq_refl).
Defined.


End HandleSubmitProperties.

(* ================================================================== *)
(** * Properties of [ThemeToggle] *)
(* ================================================================== *)

Module ThemeToggleProperties.
Import JS.
Import StreamFacts.
Import ThemeToggle.

Lemma eqb_refl (s : jsstring) : JS.eqb s s = true.
Proof. apply eqb_eq. reflexivity. Qed.

Lemma getItem_setItem (storage : Storage) (key value : jsstring) :
  getItem (setItem storage key value) key = Some value.
Proof.
  induction storage as [|[k v] rest IH]; simpl.
  - rewrite eqb_refl. reflexivity.
  - destruct (JS.eqb k key) eqn:E; simpl; rewrite E; [reflexivity|exact IH].
Qed.

Lemma contains_add (tokens : DOMTokenList) (token : jsstring) :
  contains (add tokens token) token = true.
Proof.
  unfold add. destruct (contains tokens token) eqn:E; [exact E|].
  unfold contains. rewrite existsb_app. simpl.
  rewrite eqb_refl, orb_true_r. reflexivity.
Qed.

Lemma contains_remove (tokens : DOMTokenList) (token : jsstring) :
  contains (remove tokens token) token = false.
Proof.
  unfold contains, remove.
  induction tokens as [|t tokens IH]; [reflexivity|].
  simpl. destruct (JS.eqb token t) eqn:E; simpl; [exact IH|].
  rewrite E. exact IH.
Qed.

Lemma remove_add (tokens : DOMTokenList) (token : jsstring) :
  remove (add tokens token) token = remove tokens token.
Proof.
  unfold add. destruct (contains tokens token); [reflexivity|].
  unfold remove. rewrite filter_app. simpl.
  rewrite eqb_refl. simpl. apply app_nil_r.
Qed.

Lemma remove_remove (tokens : DOMTokenList) (token : jsstring) :
  remove (remove tokens token) token = remove tokens token.
Proof.
  unfold remove. induction tokens as [|t tokens IH]; [reflexivity|].
  simpl. destruct (JS.eqb token t) eqn:E; simpl; [exact IH|].
  rewrite E. simpl. rewrite IH. reflexivity.
Qed.

Lemma mode_effect_themed (tokens : DOMTokenList) (c : component) :
  remove (classList (window c)) (js "dark") = remove tokens (js "dark") ->
  themed tokens (mode_effect c).
Proof.
  intros H. unfold themed, mode_effect. simpl.
  destruct (mode c); simpl.
  - rewrite contains_remove, remove_remove. split; [reflexivity|exact H].
  - rewrite contains_add, remove_add. split; [reflexivity|exact H].
Qed.

Lemma setMode_themed (tokens : DOMTokenList) (next : ThemeMode)
    (c : component) :
  themed tokens c -> themed tokens (setMode next c).
Proof.
  intros H. unfold setMode. destruct (same next (mode c)); [exact H|].
  apply mode_effect_themed. simpl. apply H.
Qed.

Lemma handle_themed (tokens : DOMTokenList) (c : component) (e : event) :
  themed tokens c -> themed tokens (handle c e).
Proof.
  intros H. destruct e as [|matches|]; simpl.
  - apply setMode_themed, H.
  - destruct (listening c); [|exact H].
    unfold listener. simpl.
    destruct (getItem _ _) as [[|? ?]|]; try exact H;
      apply setMode_themed; exact H.
  - exact H.
Qed.

(** X12.  The class of the root element follows the mode.  After the
    component is mounted and after every click, change of the system
    preference or loss of the stored value, the class list holds ["dark"]
    exactly when the mode is dark, and the other classes of the root
    element are as they were. *)
Theorem class_follows_the_mode (w : browser) (events : list event) :
  contains (classList (window (run w events))) (js "dark") =
    is_dark (mode (run w events)) /\
  remove (classList (window (run w events))) (js "dark") =
    remove (classList w) (js "dark").
Proof.
  unfold run.
  assert (H : themed (classList w) (mount w)).
  { unfold mount, listen_effect. apply (mode_effect_themed (classList w)).
    reflexivity. }
  revert H. generalize (mount w). 
  induction events as [|e events IH]; intros c H; [exact H|].
  simpl. apply IH, handle_themed, H.
Qed.

Lemma mode_effect_stored (c : component) : stored_mode (mode_effect c).
Proof. unfold stored_mode, mode_effect. simpl. apply getItem_setItem. Qed.

Lemma setMode_stored (next : ThemeMode) (c : component) :
  stored_mode c -> stored_mode (setMode next c).
Proof.
  intros H. unfold setMode. destruct (same next (mode c)); [exact H|].
  apply mode_effect_stored.
Qed.

Lemma listener_stored (matches : bool) (c : component) :
  stored_mode c -> listener matches c = c.
Proof.
  unfold stored_mode, listener. intros ->. destruct (mode c); reflexivity.
Qed.

Lemma mode_setMode (next : ThemeMode) (c : component) :
  mode (setMode next c) = next.
Proof.
  unfold setMode. destruct (same next (mode c)) eqn:E; [|reflexivity].
  destruct next, (mode c); try reflexivity; discriminate.
Qed.

Lemma handle_stored (c : component) (e : event) :
  storage_kept [e] = true ->
  stored_mode c ->
  stored_mode (handle c e) /\
  mode (handle c e) = match e with Click => flip (mode c) | _ => mode c end.
Proof.
  intros Hk H. destruct e as [|matches|]; [| |discriminate]; simpl.
  - split; [apply setMode_stored, H|apply mode_setMode].
  - destruct (listening c); [|split; [exact H|reflexivity]].
    rewrite listener_stored by exact H. split; [exact H|reflexivity].
Qed.

Lemma run_stored (events : list event) :
  forall c,
    storage_kept events = true ->
    stored_mode c ->
    stored_mode (fold_left handle events c) /\
    mode (fold_left handle events c) = Nat.iter (clicks events) flip (mode c).
Proof.
  induction events as [|e events IH]; intros c Hk H; [split; [exact H|reflexivity]|].
  simpl in Hk. apply andb_true_iff in Hk. destruct Hk as [He Hk].
  assert (He' : storage_kept [e] = true) by (simpl; rewrite He; reflexivity).
  destruct (handle_stored c e He' H) as [Hs Hm].
  destruct (IH (handle c e) Hk Hs) as [Hs' Hm'].
  simpl. split; [exact Hs'|]. rewrite Hm', Hm.
  destruct e as [|matches|]; try reflexivity.
  unfold clicks. simpl.
  generalize (length (filter (fun e => match e with Click => true | _ => false end) events)).
  intros n. induction n as [|n IHn]; [reflexivity|].
  simpl. rewrite IHn. reflexivity.
Qed.

Lemma getPreferredTheme_stored (c : component) :
  stored_mode c -> getPreferredTheme (Some (window c)) = mode c.
Proof.
  unfold stored_mode, getPreferredTheme. intros ->.
  destruct (mode c); reflexivity.
Qed.

(** X13.  The chosen theme survives a reload.  As long as the local
    storage is not emptied from outside, after the mount and after every
    click or change of the system preference the stored value is the
    current mode, and [getPreferredTheme] in that browser (the first
    thing a reload does) returns the current mode, whatever the system
    preference is by then. *)
Theorem theme_survives_a_reload (w : browser) (events : list event) :
  storage_kept events = true ->
  getItem (localStorage (window (run w events))) THEME_STORAGE_KEY =
    Some (text (mode (run w events))) /\
  getPreferredTheme (Some (window (run w events))) = mode (run w events) /\
  mode (mount (window (run w events))) = mode (run w events).
Proof.
  intros Hk.
  destruct (run_stored events (mount w) Hk (mode_effect_stored _)) as [Hs _].
  fold (run w events) in Hs.
  repeat split.
  - exact Hs.
  - apply getPreferredTheme_stored, Hs.
  - simpl. apply getPreferredTheme_stored, Hs.
Qed.

Lemma theme_survives_a_reload_witness :
  let w := {| localStorage := [(js "other", js "1")]; prefers_dark := false;
              classList := [js "app"] |} in
  getItem (localStorage (window (run w [Click; Change false])))
    THEME_STORAGE_KEY = Some (js "dark") /\
  getPreferredTheme (Some (window (run w [Click; Change false]))) = dark /\
  mode (mount (window (run w [Click; Change false]))) = dark.
Proof.
  exact (theme_survives_a_reload
           {| localStorage := [(js "other", js "1")]; prefers_dark := false;
              classList := [js "app"] |} [Click; Change false] eq_refl).
Defined.

(** X14.  Once the component is mounted, a change of the system
    preference never changes the mode: the mount has stored the mode, so
    the listener always finds a stored value and does nothing.  As long
    as the local storage is not emptied from outside, the mode after any
    clicks and changes of the system preference is the mode of the mount
    flipped once per click; on a first visit, with nothing stored, the
    mode of the mount is the system preference. *)
Theorem system_changes_are_ignored (w : browser) (events : list event) :
  storage_kept events = true ->
  mode (run w events) =
    Nat.iter (clicks events) flip (getPreferredTheme (Some w)) /\
  (getItem (localStorage w) THEME_STORAGE_KEY = None ->
   getPreferredTheme (Some w) = if prefers_dark w then dark else light).
Proof.
  intros Hk. split.
  - destruct (run_stored events (mount w) Hk (mode_effect_stored _))
      as [_ Hm].
    exact Hm.
  - unfold getPreferredTheme. intros ->. reflexivity.
Qed.

Lemma system_changes_are_ignored_witness :
  let w := {| localStorage := []; prefers_dark := false;
              classList := [] |} in
  mode (run w [Change true; Change false; Change true]) = light /\
  (getItem (localStorage w) THEME_STORAGE_KEY = None ->
   getPreferredTheme (Some w) = light).
Proof.
  exact (system_changes_are_ignored
           {| localStorage := []; prefers_dark := false; classList := [] |}
           [Change true; Change false; Change true] eq_refl).
Defined.

End ThemeToggleProperties.

(* ================================================================== *)
(** * Properties of [DocumentUpload] and of the health check *)
(* ================================================================== *)

Module DocumentUploadProperties.
Import JS.
Import JSON.
Import Api.
Import Stream.
Import DocumentUpload.

Section Upload.

Variable Number_toString : number -> jsstring.

Local Abbreviation on_catch := (DocumentUpload.on_catch Number_toString).
Local Abbreviation handleFileUpload :=
  (DocumentUpload.handleFileUpload Number_toString).


End Upload.


End DocumentUploadProperties.

Module AppProperties.
Import JS.
Import JSON.
Import Api.
Import Stream.
Import App.

(** X17.  The health check decides what the application shows.  Whatever
    the outcome of the request, the effect ends with loading off, so the
    page never stays on "Checking backend health"; and the studio is
    shown exactly when the request was answered by a success response
    whose body is a JSON object with the [status] member ["healthy"].
    Any other outcome (a rejected [fetch], an error response, a body that
    is no JSON text, another status) shows "Unable to reach the
    backend". *)
Theorem studio_needs_a_healthy_backend (fetch : completion Response) :
  loading (mount fetch) = false /\
  (main (mount fetch) = Some Studio \/
   main (mount fetch) = Some Unreachable) /\
  (main (mount fetch) = Some Studio <->
   exists response ms,
     fetch = Normal response /\
     ok response = true /\
     json response = Normal (JObject ms) /\
     lookup (js "status") ms = Some (JString (js "healthy"))).
Proof.
  unfold mount, checkHealth, through_handleResponse.
  assert (Hno : forall a : app,
            loading a = false -> health a = JNull ->
            loading a = false /\
            (main a = Some Studio \/ main a = Some Unreachable) /\
            main a <> Some Studio).
  { intros [h l] Hl Hh. simpl in Hl, Hh. subst.
    split; [reflexivity|]. split; [right; reflexivity|discriminate]. }
  destruct fetch as [response|e].
  - destruct (ok response) eqn:Hok.
    + rewrite (ApiProperties.handleResponse_ok _ Hok).
      destruct (json response) as [v|e] eqn:Hj.
      * split; [reflexivity|].
        unfold main. cbn [loading health].
        destruct (truthy (Some v)) eqn:Ht; cbn [negb].
        -- destruct v as [|b|n|s|vs|ms]; try discriminate;
             cbn [get is_string negb];
             try (split; [right; reflexivity|]; split; [discriminate|];
                  intros (r & ms & Hr & _ & Hj' & _); injection Hr as <-;
                  congruence).
           destruct (is_string (lookup (js "status") ms) (js "healthy"))
             eqn:Es; cbn [negb].
           ++ split; [left; reflexivity|]. split; [|reflexivity].
              intros _. exists response, ms.
              apply HandleSubmitProperties.is_string_inv in Es.
              repeat split; assumption.
           ++ split; [right; reflexivity|]. split; [discriminate|].
              intros (r & ms' & Hr & _ & Hj' & Hs). injection Hr as <-.
              rewrite Hj in Hj'. injection Hj' as <-.
              rewrite Hs in Es. discriminate.
        -- split; [right; reflexivity|]. split; [discriminate|].
           intros (r & ms & Hr & _ & Hj' & _). injection Hr as <-.
           rewrite Hj in Hj'. injection Hj' as ->. discriminate.
      * destruct (Hno {| health := JNull; loading := false |} eq_refl eq_refl)
          as (H1 & H2 & H3).
        split; [exact H1|]. split; [exact H2|]. split; [intros H; contradiction|].
        intros (r & ms & Hr & _ & Hj' & _). injection Hr as <-. congruence.
    + destruct (ApiProperties.handleResponse_throws _ Hok) as [e ->].
      destruct (Hno {| health := JNull; loading := false |} eq_refl eq_refl)
        as (H1 & H2 & H3).
      split; [exact H1|]. split; [exact H2|]. split; [intros H; contradiction|].
      intros (r & ms & Hr & Hok' & _). injection Hr as <-. congruence.
  - destruct (Hno {| health := JNull; loading := false |} eq_refl eq_refl)
      as (H1 & H2 & H3).
    split; [exact H1|]. split; [exact H2|]. split; [intros H; contradiction|].
    intros (r & ms & Hr & _). discriminate Hr.
Qed.

End AppProperties.

(* ================================================================== *)
(** * Properties of the source list *)
(* ================================================================== *)

Module SourceListProperties.
Import JS.
Import JSON.
Import Api.
Import Similarity.
Import FloatFacts.
Import SourceList.

Local Open Scope Z_scope.

(** [Math.round] of a number that is at most one hundred is zero or one
    of the integers from 1 to 100, in its binary64 form. *)
Lemma Math_round_cases (m : positive) (e : Z) :
  e <= -46 -> Z.pos m <= 100 * 2 ^ (- e) ->
  Math_round (S754_finite false m e) = S754_zero false \/
  exists n,
    1 <= n <= 100 /\
    Math_round (S754_finite false m e) = binary_normalize prec emax n 0 false.
Proof.
  intros He Hb. unfold Math_round.
  destruct (Z.leb_spec 0 e) as [H|_]; [lia|].
  cbn [cond_Zopp].
  set (n := (2 * Z.pos m + 2 ^ (- e)) / 2 ^ (1 - e)).
  assert (Hp : 0 < 2 ^ (- e)) by (apply Z.pow_pos_nonneg; lia).
  assert (Hp1 : 2 ^ (1 - e) = 2 * 2 ^ (- e)).
  { replace (1 - e) with (1 + - e) by lia.
    rewrite Z.pow_add_r by lia. reflexivity. }
  assert (Hn : 0 <= n <= 100).
  { unfold n. rewrite Hp1. split.
    - apply Z.div_pos; lia.
    - assert ((2 * Z.pos m + 2 ^ (- e)) / (2 * 2 ^ (- e)) < 101);
        [apply Z.div_lt_upper_bound; lia|lia]. }
  destruct (Z.eqb_spec n 0) as [E|E]; [left; reflexivity|right].
  exists n. split; [lia|reflexivity].
Qed.

Lemma percent_cases (score : option number) :
  (forall x, score = Some x -> is_number x = true) ->
  percent score = S754_zero false \/
  exists n,
    1 <= n <= 100 /\
    percent score = binary_normalize prec emax n 0 false.
Proof.
  intros Hs.
  assert (Hsim : similarity score = zero \/
                 exists m e,
                   similarity score = S754_finite false m e /\
                   e <= -52 /\ Z.pos m <= 2 ^ (- e)).
  { destruct score as [x|]; [apply similarity_cases, Hs; reflexivity|].
    left. reflexivity. }
  unfold percent.
  destruct Hsim as [->|(m & e & -> & He & Hm)]; [left; reflexivity|].
  destruct (mul_hundred m e He Hm) as [->|(m2 & e2 & -> & He2 & Hm2)];
    [left; reflexivity|].
  apply Math_round_cases; assumption.
Qed.

(** The bar of each of the integers from 1 to 100. *)
Lemma bar_width_small_integers (n : Z) :
  1 <= n <= 100 ->
  integer_value (bar_width (binary_normalize prec emax n 0 false)) =
  Some (Z.max n 6).
Proof.
  intros Hn.
  assert (Hall : forallb
            (fun k => match integer_value
                              (bar_width
                                 (binary_normalize prec emax (Z.of_nat k) 0
                                    false))
                      with
                      | Some z => z =? Z.max (Z.of_nat k) 6
                      | None => false
                      end) (seq 1 100) = true) by (vm_compute; reflexivity).
  rewrite forallb_forall in Hall.
  specialize (Hall (Z.to_nat n)).
  rewrite Z2Nat.id in Hall by lia.
  assert (Hin : In (Z.to_nat n) (seq 1 100)) by (apply in_seq; lia).
  specialize (Hall Hin).
  destruct (integer_value
              (bar_width (binary_normalize prec emax n 0 false))) as [z|];
    [|discriminate].
  apply Z.eqb_eq in Hall. congruence.
Qed.

(** X18.  The bar beside a source is never narrower than 6 percent and
    never wider than 100: for every score that is a number, and for a
    missing score, the width is the integer percentage itself when that
    is at least 6, and 6 otherwise. *)
Theorem bar_width_from_6_to_100 (score : option number) :
  (forall x, score = Some x -> is_number x = true) ->
  exists z,
    integer_value (percent score) = Some z /\
    integer_value (bar_width (percent score)) = Some (Z.max z 6) /\
    0 <= z <= 100 /\
    6 <= Z.max z 6 <= 100.
Proof.
  intros Hs.
  destruct (percent_cases score Hs) as [->|(n & Hn & ->)].
  - exists 0. split; [reflexivity|]. split; [vm_compute; reflexivity|lia].
  - exists n. rewrite (small_integers n Hn), (bar_width_small_integers n Hn).
    split; [reflexivity|]. split; [reflexivity|lia].
Qed.

Lemma bar_width_from_6_to_100_witness :
  exists z,
    integer_value (percent (Some (S754_finite false 5764607523034235 (-57))))
      = Some z /\
    integer_value
      (bar_width (percent (Some (S754_finite false 5764607523034235 (-57)))))
      = Some (Z.max z 6) /\
    0 <= z <= 100 /\
    6 <= Z.max z 6 <= 100.
Proof.
  refine (bar_width_from_6_to_100
            (Some (S754_finite false 5764607523034235 (-57))) _).
  intros x H. injection H as <-. reflexivity.
Defined.

Local Close Scope Z_scope.

Lemma firstn_prefix {A : Type} (n : nat) (l : list A) :
  l = firstn n l ++ skipn n l.
Proof. symmetry. apply firstn_skipn. Qed.

Lemma slice_0_8 (s : jsstring) : slice s 0 8 = firstn 8 s.
Proof.
  unfold slice, rel_index. cbn [Z.ltb Z.compare].
  rewrite (Z.min_l 0) by lia. rewrite Z.sub_0_r. cbn [Z.to_nat skipn].
  destruct (Z.le_ge_cases 8 (Z.of_nat (length s))) as [H|H].
  - rewrite Z.min_l by lia. reflexivity.
  - rewrite Z.min_r by lia. rewrite Nat2Z.id.
    rewrite firstn_all. symmetry. apply firstn_all2. lia.
Qed.

(** X19.  The document label of a source row.  When the metadata of the
    source is an object: an identifier that is a string gives its first
    eight code units, the whole string when it is shorter (an empty
    identifier gives an empty label); an identifier that is missing or
    [null] gives ["n/a"]; an identifier that is a number, a boolean or an
    object throws, as such a value has no [slice].  When the source has no
    metadata the label throws. *)
Theorem document_label_is_a_prefix (source : value)
    (ms : list (jsstring * value)) :
  get source (js "metadata") = Some (Some (JObject ms)) ->
  (forall s,
     lookup (js "document_id") ms = Some (JString s) ->
     document_id_label source = Normal (JString (firstn 8 s)) /\
     length (firstn 8 s) <= 8 /\
     s = firstn 8 s ++ skipn 8 s /\
     (length s <= 8 -> firstn 8 s = s)) /\
  (lookup (js "document_id") ms = None \/
   lookup (js "document_id") ms = Some JNull ->
   document_id_label source = Normal (JString (js "n/a"))) /\
  (forall v,
     lookup (js "document_id") ms = Some v ->
     (exists n, v = JNumber n) \/ (exists b, v = JBool b) \/
     (exists o, v = JObject o) ->
     document_id_label source = Throw TypeError).
Proof.
  intros Hm. unfold document_id_label. rewrite Hm. cbn [get].
  split; [|split].
  - intros s ->. rewrite slice_0_8. split; [reflexivity|].
    split; [apply firstn_le_length|].
    split; [apply firstn_prefix|apply firstn_all2].
  - intros [-> | ->]; reflexivity.
  - intros v -> [[n ->]|[[b ->]|[o ->]]]; reflexivity.
Qed.

Lemma document_label_is_a_prefix_witness :
  document_id_label
    (JObject [(js "content", JString (js "text"));
              (js "metadata",
               JObject [(js "document_id",
                         JString (js "3f2b8c1e-77aa-4d0e-9c55"))])]) =
  Normal (JString (js "3f2b8c1e")).
Proof.
  exact (proj1 (proj1 (document_label_is_a_prefix
                         (JObject [(js "content", JString (js "text"));
                                   (js "metadata",
                                    JObject [(js "document_id",
                                              JString (js "3f2b8c1e-77aa-4d0e-9c55"))])])
                         [(js "document_id",
                           JString (js "3f2b8c1e-77aa-4d0e-9c55"))] eq_refl)
                  (js "3f2b8c1e-77aa-4d0e-9c55") eq_refl)).
Defined.

End SourceListProperties.

(* ================================================================== *)
(** * [parseSections] reads back what was written section by section *)
(* ================================================================== *)

Module RenderingProperties.
Import JS.
Import QueryInterface.
Import Headings.
Import HeadingsFacts.
Import StreamFacts.
Import Rendering.

(** ** Trimming *)

Lemma rev_last (s : jsstring) (d : code_unit) :
  s <> [] -> rev s = last s d :: rev (removelast s).
Proof.
  intros Hs. rewrite (app_removelast_last d Hs) at 1.
  rewrite rev_app_distr. reflexivity.
Qed.

Lemma trimEnd_kept (s : jsstring) (d : code_unit) :
  s <> [] -> is_whitespace (last s d) = false -> trimEnd s = s.
Proof.
  intros Hs Hl. unfold trimEnd. rewrite (rev_last s d Hs).
  cbn [trimStart]. rewrite Hl. rewrite <- (rev_last s d Hs).
  apply rev_involutive.
Qed.

Lemma trim_trimmed (s : jsstring) : is_trimmed s = true -> trim s = s.
Proof.
  destruct s as [|c r]; [reflexivity|].
  unfold is_trimmed. intros H. apply andb_true_iff in H.
  destruct H as [Hc Hl]. apply negb_true_iff in Hc, Hl.
  unfold trim. cbn [trimStart]. rewrite Hc.
  apply (trimEnd_kept _ c); [discriminate|exact Hl].
Qed.

Lemma trim_line (s : jsstring) :
  is_trimmed s = true -> trim (s ++ [LF]) = s.
Proof.
  destruct s as [|c r]; [reflexivity|].
  intros H. pose proof (trim_trimmed _ H) as Ht.
  unfold is_trimmed in H. apply andb_true_iff in H.
  destruct H as [Hc _]. apply negb_true_iff in Hc.
  unfold trim in *. cbn [app trimStart] in *. rewrite Hc in *.
  unfold trimEnd in *.
  change (c :: r ++ [LF]) with ((c :: r) ++ [LF]).
  rewrite rev_app_distr. cbn [rev app trimStart is_whitespace].
  exact Ht.
Qed.

(** ** One heading line *)

Lemma greedy_plus_cons {A : Type} (p : code_unit -> bool)
    (k : jsstring -> option A) (c : code_unit) (r : jsstring) :
  greedy_plus p k (c :: r) =
  if p c then
    match greedy_plus p k r with
    | Some (taken, a) => Some (c :: taken, a)
    | None =>
        match k r with
        | Some a => Some ([c], a)
        | None => None
        end
    end
  else None.
Proof. reflexivity. Qed.

Lemma dot_run (h rest : jsstring) :
  h <> [] -> forallb dot h = true ->
  greedy_plus dot eol (h ++ LF :: rest) = Some (h, LF :: rest).
Proof.
  induction h as [|c h IH]; [congruence|]. intros _ Hd.
  cbn [forallb] in Hd. apply andb_true_iff in Hd. destruct Hd as [Hc Hd].
  cbn [app greedy_plus]. rewrite Hc.
  destruct h as [|c' h'].
  - reflexivity.
  - rewrite (IH ltac:(discriminate) Hd). reflexivity.
Qed.

Lemma plain_heading_inv (h : jsstring) :
  plain_heading h = true ->
  exists c r,
    h = c :: r /\ is_whitespace c = false /\ forallb dot h = true /\
    trim h = h /\ dot (last h 0%N) = true.
Proof.
  unfold plain_heading. intros H.
  apply andb_true_iff in H. destruct H as [H Ht].
  apply andb_true_iff in H. destruct H as [Hn Hd].
  destruct h as [|c r]; [discriminate|].
  exists c, r. split; [reflexivity|].
  pose proof (trim_trimmed _ Ht) as Htrim.
  unfold is_trimmed in Ht. apply andb_true_iff in Ht.
  destruct Ht as [Hc _]. apply negb_true_iff in Hc.
  repeat split; try assumption.
  rewrite forallb_forall in Hd. apply Hd.
  apply (@exists_last _ (c :: r)) in Hn as (l' & a & E) || idtac.
  destruct (@exists_last _ (c :: r) ltac:(discriminate)) as (l' & a & E).
  rewrite E, last_last. apply in_or_app. right. left. reflexivity.
Qed.

Lemma match_at_heading (prev : option code_unit) (h rest : jsstring) :
  line_start prev = true ->
  plain_heading h = true ->
  match_at prev (js "## " ++ h ++ LF :: rest) = Some ([32%N], h, LF :: rest).
Proof.
  intros Hp Hh.
  destruct (plain_heading_inv h Hh) as (c & r & -> & Hc & Hd & _ & _).
  rewrite match_at_unfold, Hp.
  change (js "## ") with [35%N; 35%N; 32%N]. cbn [app].
  change (N.eqb 35 35 && N.eqb 35 35) with true. cbn iota.
  rewrite (greedy_plus_cons is_whitespace _ 32%N).
  change (is_whitespace 32%N) with true. cbn iota.
  rewrite (greedy_plus_cons is_whitespace _ c), Hc.
  change (c :: r ++ LF :: rest) with ((c :: r) ++ LF :: rest).
  rewrite (dot_run (c :: r) rest ltac:(discriminate) Hd). reflexivity.
Qed.

(** ** The search between two headings *)

Lemma exec_content (c : jsstring) :
  forall at_start prev s pos,
    line_start prev = at_start ->
    no_heading_line at_start c = true ->
    exec prev (c ++ LF :: s) pos =
    exec (Some LF) s (pos + Z.of_nat (length c) + 1)%Z.
Proof.
  induction c as [|x c IH]; intros at_start prev s pos Hp Hc.
  - cbn [app length]. rewrite exec_unfold, match_at_unfold.
    replace (pos + Z.of_nat 0 + 1)%Z with (pos + 1)%Z by lia.
    destruct (line_start prev); [|reflexivity].
    destruct s as [|c2 r]; reflexivity.
  - cbn [no_heading_line] in Hc. apply andb_true_iff in Hc.
    destruct Hc as [Hx Hc]. apply negb_true_iff in Hx.
    cbn [app]. rewrite exec_unfold, match_at_unfold, Hp.
    assert (Hm : (if at_start
                  then match x :: c ++ LF :: s with
                       | c1 :: c2 :: r =>
                           if N.eqb c1 35 && N.eqb c2 35
                           then match greedy_plus is_whitespace
                                        (greedy_plus dot eol) r with
                                | Some (ws, (group, rest)) =>
                                    Some (ws, group, rest)
                                | None => None
                                end
                           else None
                       | _ => None
                       end
                  else None) = None).
    { destruct at_start; [|reflexivity].
      cbn [andb] in Hx.
      destruct c as [|c2 c'].
      - cbn [app]. change (N.eqb LF 35) with false.
        rewrite andb_false_r. reflexivity.
      - cbn [app].
        destruct (N.eqb x 35 && N.eqb c2 35) eqn:E; [|reflexivity].
        apply andb_true_iff in E. destruct E as [E1 E2].
        rewrite E1, E2 in Hx. cbn [andb] in Hx.
        destruct c' as [|c3 c''].
        + discriminate Hx.
        + cbn [app]. rewrite greedy_plus_cons, Hx. reflexivity. }
    rewrite Hm.
    rewrite (IH (is_line_terminator x) (Some x) s (pos + 1)%Z eq_refl Hc).
    f_equal. cbn [length]. lia.
Qed.

(** After the match of a heading, the search goes over the rest of its
    line and over its content. *)
Lemma exec_resume (x : code_unit) (c s : jsstring) (pos : Z) :
  dot x = true ->
  no_heading_line true c = true ->
  exec (Some x) (LF :: c ++ LF :: s) pos =
  exec (Some LF) s (pos + Z.of_nat (length c) + 2)%Z.
Proof.
  intros Hx Hc. rewrite exec_unfold, match_at_unfold.
  unfold dot in Hx. apply negb_true_iff in Hx.
  cbn [line_start]. rewrite Hx.
  rewrite (exec_content c true (Some LF) s (pos + 1)%Z eq_refl Hc).
  f_equal. lia.
Qed.

Lemma exec_heading (prev : option code_unit) (sec : AnswerSection)
    (rest : jsstring) (pos : Z) :
  line_start prev = true ->
  plain_heading (heading sec) = true ->
  exec prev (render_section sec ++ rest) pos =
  Some {| index := pos;
          group1 := heading sec;
          lastIndex := pos + 3 + Z.of_nat (length (heading sec));
          remaining := LF :: content sec ++ LF :: rest;
          before_remaining := Some (last (heading sec) 0%N) |}.
Proof.
  intros Hp Hh. unfold render_section.
  replace ((js "## " ++ heading sec ++ LF :: content sec ++ [LF]) ++ rest)
    with (js "## " ++ heading sec ++ LF :: (content sec ++ LF :: rest)).
  2:{ rewrite <- !app_assoc. cbn [app]. rewrite <- !app_assoc. reflexivity. }
  rewrite exec_unfold, (match_at_heading prev _ _ Hp Hh).
  f_equal. f_equal. cbn [length]. lia.
Qed.

Lemma render_section_length (sec : AnswerSection) :
  Z.of_nat (length (render_section sec)) =
  (3 + Z.of_nat (length (heading sec)) + 1
   + Z.of_nat (length (content sec)) + 1)%Z.
Proof.
  unfold render_section. rewrite !length_app. cbn [length js
    list_ascii_of_string map]. rewrite length_app. cbn [length]. lia.
Qed.

Lemma plain_inv (sec : AnswerSection) :
  plain sec = true ->
  plain_heading (heading sec) = true /\
  is_trimmed (content sec) = true /\
  no_heading_line true (content sec) = true.
Proof.
  unfold plain, plain_content. intros H.
  apply andb_true_iff in H. destruct H as [Hh Hc].
  apply andb_true_iff in Hc. destruct Hc as [Ht Hn].
  repeat split; assumption.
Qed.

(** The loop of [exec] calls, resumed after a heading. *)
Lemma exec_loop_resume (rest : list AnswerSection) :
  forall x c pos fuel,
    dot x = true ->
    no_heading_line true c = true ->
    forallb plain rest = true ->
    length rest < fuel ->
    exec_loop fuel (Some x) (LF :: c ++ LF :: render rest) pos =
    Some (positions rest (pos + Z.of_nat (length c) + 2)%Z).
Proof.
  induction rest as [|sec rest IH]; intros x c pos fuel Hx Hc Hr Hf.
  - destruct fuel as [|fuel]; [simpl in Hf; lia|].
    cbn [exec_loop render flat_map].
    rewrite (exec_resume x c [] pos Hx Hc).
    rewrite exec_unfold. reflexivity.
  - destruct fuel as [|fuel]; [simpl in Hf; lia|].
    cbn [forallb] in Hr. apply andb_true_iff in Hr. destruct Hr as [Hs Hr].
    destruct (plain_inv sec Hs) as (Hh & Ht & Hn).
    destruct (plain_heading_inv _ Hh) as (c0 & r0 & E & _ & _ & Htrim & Hlast).
    cbn [exec_loop render flat_map]. fold (render rest).
    rewrite (exec_resume x c _ pos Hx Hc).
    rewrite (exec_heading (Some LF) sec (render rest) _ eq_refl Hh).
    cbn [index group1 lastIndex remaining before_remaining].
    rewrite (IH _ (content sec) _ fuel Hlast Hn Hr) by (simpl in Hf; lia).
    rewrite Htrim. cbn [positions]. f_equal. f_equal. f_equal.
    rewrite render_section_length. lia.
Qed.

Lemma exec_loop_render (secs : list AnswerSection) (fuel : nat) :
  forallb plain secs = true ->
  length secs < fuel ->
  exec_loop fuel None (render secs) 0 = Some (positions secs 0).
Proof.
  intros Hp Hf. destruct secs as [|sec rest].
  - destruct fuel; [lia|]. reflexivity.
  - destruct fuel as [|fuel]; [simpl in Hf; lia|].
    cbn [forallb] in Hp. apply andb_true_iff in Hp. destruct Hp as [Hs Hr].
    destruct (plain_inv sec Hs) as (Hh & Ht & Hn).
    destruct (plain_heading_inv _ Hh) as (c0 & r0 & E & _ & _ & Htrim & Hlast).
    cbn [exec_loop render flat_map]. fold (render rest).
    rewrite (exec_heading None sec (render rest) 0 eq_refl Hh).
    cbn [index group1 lastIndex remaining before_remaining].
    rewrite (exec_loop_resume rest _ (content sec) _ fuel Hlast Hn Hr)
      by (simpl in Hf; lia).
    rewrite Htrim. cbn [positions]. f_equal. f_equal. f_equal.
    rewrite render_section_length. lia.
Qed.

(** ** The contents cut out *)

Lemma index_from_skip (skip : jsstring) :
  forall s pos,
    existsb (N.eqb LF) skip = false ->
    index_from LF (skip ++ LF :: s) pos = (pos + Z.of_nat (length skip))%Z.
Proof.
  induction skip as [|c skip IH]; intros s pos H.
  - cbn. lia.
  - cbn [existsb] in H. apply orb_false_iff in H. destruct H as [Hc H].
    cbn [app index_from]. rewrite N.eqb_sym, Hc, IH by exact H.
    cbn [length]. lia.
Qed.

Lemma dot_no_LF (h : jsstring) :
  forallb dot h = true -> existsb (N.eqb LF) h = false.
Proof.
  induction h as [|c h IH]; [reflexivity|].
  cbn [forallb existsb]. intros H. apply andb_true_iff in H.
  destruct H as [Hc Hh]. rewrite (IH Hh), orb_false_r.
  unfold dot, is_line_terminator in Hc. apply negb_true_iff in Hc.
  apply orb_false_iff in Hc. destruct Hc as [Hc _].
  apply orb_false_iff in Hc. destruct Hc as [Hc _].
  apply orb_false_iff in Hc. destruct Hc as [Hc _].
  rewrite N.eqb_sym. exact Hc.
Qed.

Lemma between_middle (pre mid post : jsstring) :
  between (pre ++ mid ++ post) (length pre) (length pre + length mid) = mid.
Proof.
  unfold between. rewrite skipn_app, Nat.sub_diag, skipn_all.
  cbn [app skipn].
  replace (length pre + length mid - length pre) with (length mid) by lia.
  rewrite firstn_app, Nat.sub_diag, firstn_all. cbn [firstn].
  apply app_nil_r.
Qed.

Lemma sections_render (secs : list AnswerSection) :
  forall pre,
    forallb plain secs = true ->
    sections (pre ++ render secs)
      (positions secs (Z.of_nat (length pre))) = secs.
Proof.
  induction secs as [|sec rest IH]; intros pre Hp; [reflexivity|].
  cbn [forallb] in Hp. apply andb_true_iff in Hp. destruct Hp as [Hs Hr].
  destruct (plain_inv sec Hs) as (Hh & Ht & Hn).
  destruct (plain_heading_inv _ Hh) as (c0 & r0 & _ & _ & Hd & _ & _).
  cbn [positions sections fst snd].
  set (markdown := pre ++ render (sec :: rest)).
  set (p' := (Z.of_nat (length pre)
              + Z.of_nat (length (render_section sec)))%Z).
  assert (Hmid : markdown =
                 (pre ++ js "## " ++ heading sec ++ [LF])
                 ++ (content sec ++ [LF]) ++ render rest).
  { unfold markdown, render. cbn [flat_map]. unfold render_section.
    rewrite <- !app_assoc. cbn [app]. rewrite <- !app_assoc. reflexivity. }
  assert (Hlen : length markdown =
                 length pre + length (render_section sec)
                 + length (render rest)).
  { unfold markdown, render. cbn [flat_map]. rewrite !length_app. lia. }
  assert (Hidx : indexOf markdown LF (Z.of_nat (length pre)) =
                 (Z.of_nat (length pre) + 3
                  + Z.of_nat (length (heading sec)))%Z).
  { unfold indexOf, markdown. rewrite Nat2Z.id, skipn_app, Nat.sub_diag.
    rewrite skipn_all. cbn [app skipn render flat_map].
    unfold render_section.
    rewrite <- !app_assoc. cbn [app].
    rewrite (app_assoc (js "## ") (heading sec)).
    rewrite index_from_skip.
    - rewrite length_app. cbn [length js list_ascii_of_string map]. lia.
    - rewrite existsb_app. apply orb_false_iff.
      split; [reflexivity|exact (dot_no_LF _ Hd)]. }
  rewrite Hidx.
  destruct (Z.eqb_spec (Z.of_nat (length pre) + 3
                        + Z.of_nat (length (heading sec))) (-1)) as [E|_];
    [lia|].
  assert (Hend : match positions rest p' with
                 | next :: _ => snd next
                 | [] => Z.of_nat (length markdown)
                 end = p').
  { destruct rest as [|sec2 rest2]; [|reflexivity].
    cbn [positions]. rewrite Hlen. cbn [render flat_map length].
    unfold p'. lia. }
  rewrite Hend.
  assert (Hslice : slice markdown
                     (Z.of_nat (length pre) + 3
                      + Z.of_nat (length (heading sec)) + 1) p'
                   = content sec ++ [LF]).
  { replace (Z.of_nat (length pre) + 3
             + Z.of_nat (length (heading sec)) + 1)%Z
      with (Z.of_nat (length (pre ++ js "## " ++ heading sec ++ [LF]))).
    2:{ rewrite !length_app. cbn [length js list_ascii_of_string map]. lia. }
    replace p'
      with (Z.of_nat (length (pre ++ js "## " ++ heading sec ++ [LF])
                      + length (content sec ++ [LF]))).
    2:{ unfold p'. rewrite render_section_length, !length_app.
        cbn [length js list_ascii_of_string map]. lia. }
    rewrite slice_between.
    - rewrite Hmid. apply between_middle.
    - rewrite Hmid, !length_app. lia.
    - rewrite Hmid, !length_app. lia. }
  rewrite Hslice, (trim_line _ Ht).
  f_equal; [destruct sec; reflexivity|].
  unfold markdown, p'.
  replace (pre ++ render (sec :: rest))
    with ((pre ++ render_section sec) ++ render rest)
    by (cbn [render flat_map]; rewrite app_assoc; reflexivity).
  replace (Z.of_nat (length pre) + Z.of_nat (length (render_section sec)))%Z
    with (Z.of_nat (length (pre ++ render_section sec)))
    by (rewrite length_app; lia).
  apply IH, Hr.
Qed.

Lemma render_length (secs : list AnswerSection) :
  length secs <= length (render secs).
Proof.
  induction secs as [|sec rest IH]; [apply le_n|].
  cbn [render flat_map length]. fold (render rest).
  rewrite length_app.
  pose proof (render_section_length sec). lia.
Qed.

(** X20.  [parseSections] reads back an answer written section by
    section.  For sections whose headings are not empty, on one line and
    without white space at their ends, and whose contents have no white
    space at their ends and no line that starts with two hash signs and
    white space (deeper headings, of three hash signs or more, are
    allowed): the text that gives each section a heading line ["## "] and
    its content on the lines after it is parsed into exactly those
    sections, in their order, with their headings and contents as they
    were written. *)
Theorem parseSections_reads_back (secs : list AnswerSection) :
  forallb plain secs = true ->
  parseSections (render secs) = Some secs.
Proof.
  intros Hp. unfold parseSections.
  destruct secs as [|sec rest]; [reflexivity|].
  assert (Hnb : JS.eqb (trim (render (sec :: rest))) [] = false).
  { destruct (JS.eqb (trim (render (sec :: rest))) []) eqn:E; [|reflexivity].
    apply eqb_nil, trim_nil_iff in E. discriminate E. }
  rewrite Hnb.
  rewrite (exec_loop_render (sec :: rest) _ Hp)
    by (pose proof (render_length (sec :: rest)); lia).
  cbn [positions].
  change ((heading sec, 0%Z)
          :: positions rest (0 + Z.of_nat (length (render_section sec)))%Z)
    with (positions (sec :: rest) (Z.of_nat (length (@nil code_unit)))).
  f_equal. apply (sections_render (sec :: rest) [] Hp).
Qed.

Lemma exec_loop_from (secs : list AnswerSection) (prev : option code_unit)
    (pos : Z) (fuel : nat) :
  line_start prev = true ->
  forallb plain secs = true ->
  length secs < fuel ->
  exec_loop fuel prev (render secs) pos = Some (positions secs pos).
Proof.
  intros Hl Hp Hf. destruct secs as [|sec rest].
  - destruct fuel; [lia|]. cbn [exec_loop render flat_map].
    rewrite exec_unfold, match_at_unfold, Hl. reflexivity.
  - destruct fuel as [|fuel]; [simpl in Hf; lia|].
    cbn [forallb] in Hp. apply andb_true_iff in Hp. destruct Hp as [Hs Hr].
    destruct (plain_inv sec Hs) as (Hh & Ht & Hn).
    destruct (plain_heading_inv _ Hh) as (c0 & r0 & E & _ & _ & Htrim & Hlast).
    cbn [exec_loop render flat_map]. fold (render rest).
    rewrite (exec_heading prev sec (render rest) pos Hl Hh).
    cbn [index group1 lastIndex remaining before_remaining].
    rewrite (exec_loop_resume rest _ (content sec) _ fuel Hlast Hn Hr)
      by (simpl in Hf; lia).
    rewrite Htrim. cbn [positions]. f_equal. f_equal. f_equal.
    rewrite render_section_length. lia.
Qed.

Lemma exec_loop_content (c s : jsstring) (fuel : nat) :
  no_heading_line true c = true ->
  exec_loop fuel None (c ++ LF :: s) 0 =
  exec_loop fuel (Some LF) s (Z.of_nat (length c) + 1)%Z.
Proof.
  intros Hc. destruct fuel as [|fuel]; [reflexivity|].
  cbn [exec_loop].
  rewrite (exec_content c true None s 0 eq_refl Hc). reflexivity.
Qed.

(** X21.  The text before the first heading is dropped.  When an answer
    written section by section is preceded by lines of its own (none of
    which is a heading of the second level), [parseSections] returns the
    sections alone, the same as without those lines: no section holds
    that text. *)
Theorem text_before_the_first_heading_is_dropped (preamble : jsstring)
    (secs : list AnswerSection) :
  secs <> [] ->
  no_heading_line true preamble = true ->
  forallb plain secs = true ->
  parseSections (preamble ++ LF :: render secs) = Some secs /\
  parseSections (preamble ++ LF :: render secs) = parseSections (render secs).
Proof.
  intros Hne Hpre Hp.
  assert (H : parseSections (preamble ++ LF :: render secs) = Some secs).
  { unfold parseSections.
    destruct secs as [|sec rest]; [congruence|].
    assert (Hnb : JS.eqb (trim (preamble ++ LF :: render (sec :: rest))) []
                  = false).
    { destruct (JS.eqb (trim (preamble ++ LF :: render (sec :: rest))) [])
        eqn:E; [|reflexivity].
      apply eqb_nil, trim_nil_iff in E.
      rewrite forallb_app in E. apply andb_true_iff in E.
      destruct E as [_ E]. discriminate E. }
    rewrite Hnb, (exec_loop_content _ _ _ Hpre).
    rewrite (exec_loop_from (sec :: rest) (Some LF) _ _ eq_refl Hp).
    2:{ pose proof (render_length (sec :: rest)).
        rewrite length_app. cbn [length] in *. lia. }
    cbn [positions].
    change ((heading sec, (Z.of_nat (length preamble) + 1)%Z)
            :: positions rest
                 (Z.of_nat (length preamble) + 1
                  + Z.of_nat (length (render_section sec)))%Z)
      with (positions (sec :: rest) (Z.of_nat (length preamble) + 1)%Z).
    replace (Z.of_nat (length preamble) + 1)%Z
      with (Z.of_nat (length (preamble ++ [LF])))
      by (rewrite length_app; cbn [length]; lia).
    replace (preamble ++ LF :: render (sec :: rest))
      with ((preamble ++ [LF]) ++ render (sec :: rest))
      by (rewrite <- app_assoc; reflexivity).
    f_equal. apply (sections_render (sec :: rest) _ Hp). }
  split; [exact H|].
  rewrite H. symmetry.
  unfold parseSections.
  destruct secs as [|sec rest]; [congruence|].
  assert (Hnb : JS.eqb (trim (render (sec :: rest))) [] = false).
  { destruct (JS.eqb (trim (render (sec :: rest))) []) eqn:E; [|reflexivity].
    apply eqb_nil, trim_nil_iff in E. discriminate E. }
  rewrite Hnb.
  rewrite (exec_loop_from (sec :: rest) None 0 _ eq_refl Hp)
    by (pose proof (render_length (sec :: rest)); lia).
  cbn [positions].
  change ((heading sec, 0%Z)
          :: positions rest (0 + Z.of_nat (length (render_section sec)))%Z)
    with (positions (sec :: rest) (Z.of_nat (length (@nil code_unit)))).
  f_equal. apply (sections_render (sec :: rest) [] Hp).
Qed.

Lemma text_before_the_first_heading_is_dropped_witness :
  parseSections
    (md "Here is what I found:||## Summary|Revenue grew.|") =
  Some [{| heading := js "Summary"; content := js "Revenue grew." |}].
Proof.
  refine (proj1 (text_before_the_first_heading_is_dropped
                   (md "Here is what I found:|")
                   [{| heading := js "Summary";
                       content := js "Revenue grew." |}]
                   _ eq_refl eq_refl)).
  discriminate.
Defined.

Lemma parseSections_reads_back_witness :
  parseSections
    (md "## Summary|Revenue grew.||### By region|- EMEA: 4%|## Evidence|See [1].|") =
  Some [{| heading := js "Summary";
           content := md "Revenue grew.||### By region|- EMEA: 4%" |};
        {| heading := js "Evidence"; content := js "See [1]." |}].
Proof.
  exact (parseSections_reads_back
           [{| heading := js "Summary";
               content := md "Revenue grew.||### By region|- EMEA: 4%" |};
            {| heading := js "Evidence"; content := js "See [1]." |}]
           eq_refl).
Defined.

End RenderingProperties.

(* ================================================================== *)
(** * Properties of the [code] component *)
(* ================================================================== *)

Module MarkdownComponentsProperties.
Import JS.
Import StreamFacts.
Import MarkdownComponents.

Lemma word_run_spec (s : jsstring) :
  s = fst (word_run s) ++ snd (word_run s) /\
  forallb is_word (fst (word_run s)) = true /\
  match snd (word_run s) with
  | [] => True
  | c :: _ => is_word c = false
  end.
Proof.
  induction s as [|c r (IH1 & IH2 & IH3)]; [repeat split|].
  cbn [word_run]. destruct (is_word c) eqn:Hc.
  - destruct (word_run r) as [w rest]. cbn [fst snd] in *.
    repeat split; [rewrite IH1 at 1; reflexivity| |exact IH3].
    cbn [forallb]. rewrite Hc, IH2. reflexivity.
  - repeat split. exact Hc.
Qed.

Lemma word_run_all (w : jsstring) :
  forallb is_word w = true -> word_run w = (w, []).
Proof.
  induction w as [|c w IH]; [reflexivity|].
  cbn [forallb word_run]. intros H. apply andb_true_iff in H.
  destruct H as [Hc Hw]. rewrite Hc, (IH Hw). reflexivity.
Qed.

Lemma match_here_spec (s w : jsstring) :
  match_here s = Some w ->
  w <> [] /\ forallb is_word w = true /\
  exists post,
    s = js "language-" ++ w ++ post /\
    match post with
    | [] => True
    | c :: _ => is_word c = false
    end.
Proof.
  unfold match_here.
  destruct (startsWith s (js "language-")) eqn:Hs; [|discriminate].
  pose proof (ApiProperties.startsWith_split _ _ Hs) as Hsplit.
  change (length (js "language-")) with 9 in Hsplit.
  destruct (word_run_spec (skipn 9 s)) as (H1 & H2 & H3).
  destruct (word_run (skipn 9 s)) as [[|c w'] post]; [discriminate|].
  intros H. injection H as <-. cbn [fst snd] in *.
  split; [discriminate|]. split; [exact H2|].
  exists post. split; [|exact H3].
  rewrite Hsplit at 1. rewrite H1. reflexivity.
Qed.

(** The pattern matches wherever ["language-"] and a word character
    stand. *)
Lemma match_here_complete (w post : jsstring) :
  w <> [] -> forallb is_word w = true ->
  match_here (js "language-" ++ w ++ post) <> None.
Proof.
  intros Hn Hw. unfold match_here. rewrite startsWith_app.
  change 9 with (length (js "language-")).
  rewrite skipn_app, Nat.sub_diag, skipn_all. cbn [app skipn].
  destruct w as [|c w]; [congruence|].
  cbn [forallb] in Hw. apply andb_true_iff in Hw. destruct Hw as [Hc _].
  rewrite <- app_comm_cons. cbn [word_run]. rewrite Hc.
  destruct (word_run (w ++ post)) as [run rest]. discriminate.
Qed.

(** A match of [exec] is the leftmost one, with all the word characters
    that follow. *)
Lemma exec_spec (s : jsstring) :
  forall w,
    exec s = Some w ->
    w <> [] /\ forallb is_word w = true /\
    exists pre post,
      s = pre ++ js "language-" ++ w ++ post /\
      match post with
      | [] => True
      | c :: _ => is_word c = false
      end /\
      (forall pre' w' post',
         w' <> [] -> forallb is_word w' = true ->
         s = pre' ++ js "language-" ++ w' ++ post' ->
         length pre <= length pre').
Proof.
  induction s as [|c r IH]; intros w H.
  - cbn in H. discriminate.
  - cbn [exec] in H.
    destruct (match_here (c :: r)) as [w'|] eqn:Hm.
    + injection H as <-.
      destruct (match_here_spec _ _ Hm) as (Hn & Hw & post & Hs & Hp).
      split; [exact Hn|]. split; [exact Hw|].
      exists [], post. split; [exact Hs|]. split; [exact Hp|].
      intros. apply Nat.le_0_l.
    + destruct (IH w H) as (Hn & Hw & pre & post & Hs & Hp & Hleft).
      split; [exact Hn|]. split; [exact Hw|].
      exists (c :: pre), post. split; [rewrite Hs; reflexivity|].
      split; [exact Hp|].
      intros pre' w' post' Hn' Hw' Hs'.
      destruct pre' as [|c' pre'].
      * exfalso. cbn [app] in Hs'. rewrite Hs' in Hm.
        exact (match_here_complete w' post' Hn' Hw' Hm).
      * rewrite <- app_comm_cons in Hs'. injection Hs' as _ Hr.
        cbn [length]. apply le_n_S.
        exact (Hleft pre' w' post' Hn' Hw' Hr).
Qed.

(** No match: ["language-"] and a word character stand nowhere. *)
Lemma no_language_class (s : jsstring) :
  exec s = None ->
  forall pre w post,
    w <> [] -> forallb is_word w = true ->
    s <> pre ++ js "language-" ++ w ++ post.
Proof.
  induction s as [|c r IH]; intros H pre w post Hn Hw Hs.
  - destruct pre; discriminate Hs.
  - cbn [exec] in H.
    destruct (match_here (c :: r)) as [w'|] eqn:Hm; [discriminate H|].
    destruct pre as [|c' pre].
    + cbn [app] in Hs. rewrite Hs in Hm.
      exact (match_here_complete w post Hn Hw Hm).
    + rewrite <- app_comm_cons in Hs. injection Hs as _ Hr.
      exact (IH H pre w post Hn Hw Hr).
Qed.

Lemma word_not_space (c : code_unit) :
  is_word c = true -> is_whitespace c = false.
Proof.
  unfold is_word, is_whitespace. intros H.
  repeat match goal with
         | H : _ || _ = true |- _ => apply orb_true_iff in H; destruct H as [H|H]
         | H : _ && _ = true |- _ => apply andb_true_iff in H; destruct H
         | H : N.leb _ _ = true |- _ => apply N.leb_le in H
         | H : N.eqb _ _ = true |- _ => apply N.eqb_eq in H
         end;
    repeat match goal with
           | |- _ || _ = false => apply orb_false_iff; split
           | |- _ && _ = false =>
               apply andb_false_iff;
               first [left; apply N.leb_gt; lia|right; apply N.leb_gt; lia]
           | |- N.eqb _ _ = false => apply N.eqb_neq; lia
           end.
Qed.

(** X22.  The class of the inner [code] element of a code block is one
    token, or empty.  When ["language-"] and a word character stand
    somewhere in the class name, it is ["language-"] and the word
    characters behind its first such occurrence, as many as there are: no
    occurrence starts further to the left.  When they stand nowhere, it
    is empty.  No other class of the class name and no white space gets
    into it, and it is its own language class. *)
Theorem language_class_is_one_token (className : option jsstring) :
  ((language_class className = [] /\
    forall pre w post,
      w <> [] -> forallb is_word w = true ->
      or_empty className <> pre ++ js "language-" ++ w ++ post) \/
   exists w pre post,
     w <> [] /\ forallb is_word w = true /\
     language_class className = js "language-" ++ w /\
     or_empty className = pre ++ js "language-" ++ w ++ post /\
     match post with
     | [] => True
     | c :: _ => is_word c = false
     end /\
     forall pre' w' post',
       w' <> [] -> forallb is_word w' = true ->
       or_empty className = pre' ++ js "language-" ++ w' ++ post' ->
       length pre <= length pre') /\
  forallb (fun c => negb (is_whitespace c)) (language_class className) = true /\
  language_class (Some (language_class className)) = language_class className.
Proof.
  remember (language_class className) as lc eqn:Hlc.
  unfold language_class in Hlc.
  destruct (exec (or_empty className)) as [w|] eqn:E; subst lc.
  - destruct (exec_spec _ _ E) as (Hn & Hw & pre & post & Hs & Hp & Hleft).
    split; [|split].
    + right. exists w, pre, post.
      split; [exact Hn|]. split; [exact Hw|]. split; [reflexivity|].
      split; [exact Hs|]. split; [exact Hp|exact Hleft].
    + rewrite forallb_app. apply andb_true_iff. split; [reflexivity|].
      rewrite forallb_forall in *. intros c Hc.
      rewrite (word_not_space c (Hw c Hc)). reflexivity.
    + unfold language_class. cbn [or_empty].
      assert (Hm : match_here (js "language-" ++ w) = Some w).
      { unfold match_here. rewrite startsWith_app.
        change 9 with (length (js "language-")).
        rewrite skipn_app, Nat.sub_diag, skipn_all. cbn [app skipn].
        rewrite (word_run_all _ Hw).
        destruct w; [congruence|reflexivity]. }
      assert (He : exec (js "language-" ++ w) = Some w).
      { change (js "language-" ++ w)
          with (108%N :: (skipn 1 (js "language-") ++ w)) in *.
        cbn [exec]. rewrite Hm. reflexivity. }
      rewrite He. reflexivity.
  - split; [left; split; [reflexivity|exact (no_language_class _ E)]|].
    split; reflexivity.
Qed.

(** Of two language classes the first one is taken, and a class that
    only ends in the word is not. *)
Lemma first_language_class_is_taken :
  language_class (Some (js "hljs language-js language-ts")) =
    js "language-js" /\
  language_class (Some (js "language- language-py-3")) = js "language-py" /\
  language_class (Some (js "language-")) = [].
Proof. repeat split. Qed.

End MarkdownComponentsProperties.

(* ================================================================== *)
(** * The request body read back *)
(* ================================================================== *)

Module RequestProperties.
Import JS.
Import JSON.
Import JSONFacts.
Import Request.

Lemma hex_digit_value (d : N) :
  (d < 16)%N -> hex_value (hex_digit d) = Some d.
Proof.
  intros Hd.
  assert (Hall : forallb
            (fun k => match hex_value (hex_digit (N.of_nat k)) with
                      | Some x => N.eqb x (N.of_nat k)
                      | None => false
                      end) (seq 0 16) = true) by (vm_compute; reflexivity).
  rewrite forallb_forall in Hall.
  specialize (Hall (N.to_nat d)).
  rewrite N2Nat.id in Hall.
  assert (Hin : In (N.to_nat d) (seq 0 16)) by (apply in_seq; lia).
  specialize (Hall Hin).
  destruct (hex_value (hex_digit d)) as [x|]; [|discriminate].
  apply N.eqb_eq in Hall. congruence.
Qed.

Lemma hex_digit_u (d : N) : (d < 16)%N -> N.eqb (hex_digit d) 117 = false.
Proof.
  intros Hd. unfold hex_digit. apply N.eqb_neq.
  destruct (N.ltb_spec d 10); lia.
Qed.

Lemma four_digits (c : N) :
  (c < 65536)%N ->
  (c / 4096 < 16 /\ (c / 256) mod 16 < 16 /\ (c / 16) mod 16 < 16 /\
   c mod 16 < 16 /\
   ((c / 4096 * 16 + (c / 256) mod 16) * 16 + (c / 16) mod 16) * 16
   + c mod 16 = c)%N.
Proof.
  intros Hc.
  pose proof (N.div_mod c 16 ltac:(lia)) as H1.
  pose proof (N.div_mod (c / 16) 16 ltac:(lia)) as H2.
  pose proof (N.div_mod (c / 256) 16 ltac:(lia)) as H3.
  pose proof (N.mod_lt c 16 ltac:(lia)) as L1.
  pose proof (N.mod_lt (c / 16) 16 ltac:(lia)) as L2.
  pose proof (N.mod_lt (c / 256) 16 ltac:(lia)) as L3.
  assert (E2 : (c / 16 / 16 = c / 256)%N)
    by (rewrite N.Div0.div_div; reflexivity).
  assert (E3 : (c / 256 / 16 = c / 4096)%N)
    by (rewrite N.Div0.div_div; reflexivity).
  rewrite E2 in H2. rewrite E3 in H3.
  assert (L4 : (c / 4096 < 16)%N)
    by (apply N.Div0.div_lt_upper_bound; lia).
  repeat split; try assumption. lia.
Qed.

(** ** The parser of strings, one character at a time *)

Lemma parse_unicode (h1 h2 h3 h4 : code_unit) (r : jsstring) :
  parse_string_body (92%N :: 117%N :: h1 :: h2 :: h3 :: h4 :: r) =
  match hex_value h1, hex_value h2, hex_value h3, hex_value h4 with
  | Some a, Some b, Some c', Some d =>
      and_then (((a * 16 + b) * 16 + c') * 16 + d)%N (parse_string_body r)
  | _, _, _, _ => None
  end.
Proof. reflexivity. Qed.

Lemma parse_short (e u : code_unit) (r : jsstring) :
  N.eqb e 117 = false ->
  escape_value e = Some u ->
  parse_string_body (92%N :: e :: r) = and_then u (parse_string_body r).
Proof.
  intros He Hu. cbn [parse_string_body].
  change (N.eqb 92 34) with false. change (N.eqb 92 92) with true.
  cbn iota. rewrite He, Hu. reflexivity.
Qed.

Lemma parse_literal (c : code_unit) (r : jsstring) :
  N.eqb c 34 = false -> N.eqb c 92 = false -> N.ltb c 32 = false ->
  parse_string_body (c :: r) = and_then c (parse_string_body r).
Proof.
  intros H1 H2 H3. cbn [parse_string_body]. rewrite H1, H2, H3.
  reflexivity.
Qed.

Lemma unicode_escape_parses (c : code_unit) (r : jsstring) :
  (c < 65536)%N ->
  parse_string_body (UnicodeEscape c ++ r) = and_then c (parse_string_body r).
Proof.
  intros Hc. destruct (four_digits c Hc) as (L4 & L3 & L2 & L1 & E).
  unfold UnicodeEscape. cbn [app]. rewrite parse_unicode.
  rewrite !hex_digit_value by assumption. rewrite E. reflexivity.
Qed.

Lemma quote_unit_parses (c : code_unit) (r : jsstring) :
  (c < 65536)%N ->
  parse_string_body (quote_unit c ++ r) = and_then c (parse_string_body r).
Proof.
  intros Hc. unfold quote_unit.
  destruct (N.eqb_spec c 8) as [->|H8]; [reflexivity|].
  destruct (N.eqb_spec c 9) as [->|H9]; [reflexivity|].
  destruct (N.eqb_spec c 10) as [->|H10]; [reflexivity|].
  destruct (N.eqb_spec c 12) as [->|H12]; [reflexivity|].
  destruct (N.eqb_spec c 13) as [->|H13]; [reflexivity|].
  destruct (N.eqb_spec c 34) as [->|H34]; [reflexivity|].
  destruct (N.eqb_spec c 92) as [->|H92]; [reflexivity|].
  destruct (N.ltb_spec c 32) as [H32|H32].
  - apply unicode_escape_parses, Hc.
  - cbn [app]. apply parse_literal.
    + apply N.eqb_neq, H34.
    + apply N.eqb_neq, H92.
    + apply N.ltb_ge, H32.
Qed.

Lemma surrogate_literal (c : code_unit) (r : jsstring) :
  (55296 <= c)%N ->
  parse_string_body (c :: r) = and_then c (parse_string_body r).
Proof.
  intros Hc. apply parse_literal.
  - apply N.eqb_neq. lia.
  - apply N.eqb_neq. lia.
  - apply N.ltb_ge. lia.
Qed.

(** The characters [QuoteJSONString] writes between the quotes are read
    back as the string. *)
Lemma quote_body_parses (n : nat) :
  forall s,
    length s <= n ->
    is_utf16 s = true ->
    forall rest,
      parse_string_body (quote_body s ++ QUOTE :: rest) = Some (s, rest).
Proof.
  induction n as [|n IH]; intros s Hn Hs rest.
  - destruct s; [reflexivity|simpl in Hn; lia].
  - destruct s as [|c r]; [reflexivity|].
    simpl in Hn. unfold is_utf16 in Hs. cbn [forallb] in Hs.
    apply andb_true_iff in Hs. destruct Hs as [Hc Hr].
    apply N.ltb_lt in Hc. fold (is_utf16 r) in Hr.
    cbn [quote_body].
    destruct (is_leading_surrogate c) eqn:Hlead.
    + unfold is_leading_surrogate in Hlead. apply andb_true_iff in Hlead.
      destruct Hlead as [Hlo _]. apply N.leb_le in Hlo.
      destruct r as [|d r'].
      * rewrite (unicode_escape_parses c _ Hc). reflexivity.
      * destruct (is_trailing_surrogate d) eqn:Htrail.
        -- unfold is_trailing_surrogate in Htrail.
           apply andb_true_iff in Htrail. destruct Htrail as [Hlo' _].
           apply N.leb_le in Hlo'.
           unfold is_utf16 in Hr. cbn [forallb] in Hr.
           apply andb_true_iff in Hr. destruct Hr as [_ Hr'].
           cbn [app].
           rewrite (surrogate_literal c) by lia.
           rewrite (surrogate_literal d) by lia.
           rewrite (IH r') by (simpl in Hn; first [lia|exact Hr']).
           reflexivity.
        -- rewrite <- app_assoc, (unicode_escape_parses c _ Hc).
           rewrite (IH (d :: r')) by (first [lia|exact Hr]).
           reflexivity.
    + destruct (is_trailing_surrogate c).
      * rewrite <- app_assoc, (unicode_escape_parses c _ Hc).
        rewrite (IH r) by (first [lia|exact Hr]). reflexivity.
      * rewrite <- app_assoc, (quote_unit_parses c _ Hc).
        rewrite (IH r) by (first [lia|exact Hr]). reflexivity.
Qed.

Lemma stringify_request_text (q : jsstring) :
  stringify_request q =
  jsq "{'query':'" ++ quote_body q ++ QUOTE :: jsq ",'top_k':5}".
Proof.
  unfold stringify_request, QuoteJSONString.
  cbn [js jsq list_ascii_of_string map app quote_body].
  rewrite <- !app_assoc. reflexivity.
Qed.

Lemma is_utf16_trim (s : jsstring) : is_utf16 s = true -> is_utf16 (trim s) = true.
Proof.
  unfold is_utf16. rewrite !forallb_forall. intros H c Hc. apply H.
  assert (Hstart : forall t x, In x (trimStart t) -> In x t).
  { induction t as [|y t IHt]; intros x Hx; [exact Hx|].
    cbn [trimStart] in Hx. destruct (is_whitespace y); [|exact Hx].
    right. apply IHt, Hx. }
  unfold trim, trimEnd in Hc.
  apply in_rev in Hc. apply Hstart in Hc. apply in_rev in Hc.
  apply Hstart, Hc.
Qed.

(** X23.  The body of the request denotes the query as it was typed.
    For every query, whatever its characters (quotation marks, reverse
    solidi, line feeds and other control characters, surrogates in pairs
    or alone), the text [JSON.stringify] writes for
    [{ query: query.trim(), top_k: 5 }] is a JSON text, and it denotes
    the object with the trimmed query as its [query] and the number 5 as
    its [top_k]. *)
Theorem request_body_is_read_back (query : jsstring) :
  is_utf16 query = true ->
  JSON.parse (request_body query) =
  Some (JObject [(js "query", JString (trim query));
                 (js "top_k", JNumber five)]).
Proof.
  intros Hq. apply is_utf16_trim in Hq. unfold request_body.
  generalize dependent (trim query). clear query. intros q Hq.
  apply parse_spec. exists 4, [].
  split; [|reflexivity].
  rewrite stringify_request_text.
  rewrite parse_value_S.
  change (skip_ws (jsq "{'query':'" ++ quote_body q
                   ++ QUOTE :: jsq ",'top_k':5}"))
    with (123%N :: jsq "'query':'" ++ quote_body q
          ++ QUOTE :: jsq ",'top_k':5}").
  cbn [startsWith js list_ascii_of_string map N_of_ascii N.eqb Pos.eqb
       andb N_of_digits].
  change (N.eqb 123 34) with false. change (N.eqb 123 91) with false.
  change (N.eqb 123 123) with true. cbn iota.
  change (skip_ws (jsq "'query':'" ++ quote_body q
                   ++ QUOTE :: jsq ",'top_k':5}"))
    with (QUOTE :: jsq "query':'" ++ quote_body q
          ++ QUOTE :: jsq ",'top_k':5}").
  change (N.eqb QUOTE 125) with false. cbn iota.
  rewrite parse_members_S.
  change (skip_ws (jsq "'query':'" ++ quote_body q
                   ++ QUOTE :: jsq ",'top_k':5}"))
    with (QUOTE :: jsq "query':'" ++ quote_body q
          ++ QUOTE :: jsq ",'top_k':5}").
  change (N.eqb QUOTE 34) with true. cbn iota.
  change (parse_string_body (jsq "query':'" ++ quote_body q
                             ++ QUOTE :: jsq ",'top_k':5}"))
    with (Some (js "query",
                58%N :: QUOTE :: quote_body q
                ++ QUOTE :: jsq ",'top_k':5}")).
  cbn iota.
  change (skip_ws (58%N :: QUOTE :: quote_body q
                   ++ QUOTE :: jsq ",'top_k':5}"))
    with (58%N :: QUOTE :: quote_body q ++ QUOTE :: jsq ",'top_k':5}").
  change (N.eqb 58 58) with true. cbn iota.
  rewrite parse_value_S.
  change (skip_ws (QUOTE :: quote_body q ++ QUOTE :: jsq ",'top_k':5}"))
    with (QUOTE :: quote_body q ++ QUOTE :: jsq ",'top_k':5}").
  cbn [startsWith js list_ascii_of_string map].
  change (N.eqb (N_of_ascii "n") QUOTE) with false.
  change (N.eqb (N_of_ascii "t") QUOTE) with false.
  change (N.eqb (N_of_ascii "f") QUOTE) with false.
  cbn [andb]. cbn iota.
  change (N.eqb QUOTE 34) with true. cbn iota.
  rewrite (quote_body_parses (length q) q (le_n _) Hq).
  reflexivity.
Qed.

Lemma request_body_is_read_back_witness :
  JSON.parse
    (request_body (jsq " say 'hi' " ++ QueryInterface.md "|to C:\temp  ")) =
  Some (JObject [(js "query",
                  JString (jsq "say 'hi' " ++ QueryInterface.md "|to C:\temp"));
                 (js "top_k", JNumber five)]).
Proof.
  exact (request_body_is_read_back
           (jsq " say 'hi' " ++ QueryInterface.md "|to C:\temp  ") eq_refl).
Defined.

End RequestProperties.
